(** * Hotel search: cache, directory and fallback policy

    A shallow embedding of the hotel-search core of the travel backend:

    - [src/models/hotelSearchCache.js]: the search-result cache
      ([generateSearchKey], [findValidCache], [createOrUpdateCache],
      [recordHit], the [pre('save')] hook);
    - [src/models/Hotel.js]: the hotel directory
      ([calculatePopularityScore], [findAlternatives]);
    - [src/services/hotelService.js]: the orchestrator ([searchHotels],
      [searchHotelsFromDatabase], [searchHotelByName],
      [getAlternativeHotels], [verifyRecommendedHotels],
      [formatHotelResults], [formatHotelDetails], [updateOrCreateHotel]).

    Conventions of the embedding.

    - A JavaScript string is a [string] whose characters are the code
      units below 256 (Latin-1); [toLowerCase] and the class [\s] are
      those of JavaScript on that range.
    - A [Date] is [option Z]: [Some t] is the time value [t] of a valid
      date, in milliseconds since the epoch (UTC), [None] is an Invalid
      Date.  Local time is UTC plus a fixed offset.
    - A [Number] that counts something (rooms, guests, hit counts) is a
      [Z]; a [Number] that measures something (ratings, prices, scores) is
      a rational [Q], the value of the double.  The popularity score
      ([calculatePopularityScore]) and the average of the statistics are
      computed as the code computes them, every operation rounded to the
      nearest double ([double]).  Comparisons compare the rationals, and
      the remaining arithmetic (the difference of two star ratings, the
      bounds one star around a rating, the ranking score of an
      alternative, the average of a price range) is on the rationals.
    - An optional field is an [option]; [None] is [undefined].
    - A thrown [Error] is the [Throw] of its message; an awaited promise
      that rejects is a [Throw] as well. *)

From Stdlib Require Import ZArith QArith Qround Qabs Qminmax Qpower List String Ascii Bool.
From Stdlib Require Import Lia Lqa Permutation Sorted DecimalString.
Import ListNotations.

Set Implicit Arguments.

(** ** Exceptions *)

Inductive Exc (A : Type) : Type :=
| Ok (a : A)
| Throw (message : string).

Arguments Ok {A} a.
Arguments Throw {A} message.

Definition exc_bind {A B} (c : Exc A) (k : A -> Exc B) : Exc B :=
  match c with
  | Ok a => k a
  | Throw m => Throw m
  end.

Declare Scope exc_scope.
Delimit Scope exc_scope with exc.
Notation "'let?' x ':=' c 'in' k" := (exc_bind c (fun x => k))
  (at level 10, x name, c at level 100, k at level 200) : exc_scope.

(** ** JavaScript values *)

(** Truthiness of the values that occur on the left of [||] and in [if]. *)
Class Truthy (A : Type) := truthy : A -> bool.

#[export] Instance Truthy_string : Truthy string :=
  fun s => match s with EmptyString => false | String _ _ => true end.
#[export] Instance Truthy_Z : Truthy Z :=
  fun z => negb (Z.eqb z 0).
#[export] Instance Truthy_Q : Truthy Q :=
  fun q => negb (Z.eqb (Qnum q) 0).
#[export] Instance Truthy_nat : Truthy nat :=
  fun n => negb (Nat.eqb n 0).
(** Arrays and objects are always truthy, also when empty. *)
#[export] Instance Truthy_list {A} : Truthy (list A) :=
  fun _ => true.
#[export] Instance Truthy_bool : Truthy bool :=
  fun b => b.

Definition is_truthy {A} `{Truthy A} (v : option A) : bool :=
  match v with
  | Some a => truthy a
  | None => false
  end.

(** [a || b] on optional values: [a] when it is truthy, [b] otherwise. *)
Definition js_or {A} `{Truthy A} (a b : option A) : option A :=
  if is_truthy a then a else b.

(** [a || d] with a default [d] that is a literal. *)
Definition js_or_default {A} `{Truthy A} (a : option A) (d : A) : A :=
  match a with
  | Some v => if truthy v then v else d
  | None => d
  end.

(** ** Strings *)

(** The lower case of a character: A-Z, and in the upper half the letters
    U+00C0-U+00DE but the multiplication sign U+00D7, move up by 32. *)
Definition lower_char (c : ascii) : ascii :=
  let n := nat_of_ascii c in
  if ((65 <=? n)%nat && (n <=? 90)%nat)
     || ((192 <=? n)%nat && (n <=? 222)%nat && negb (n =? 215)%nat)
  then ascii_of_nat (n + 32)
  else c.

(** [String.prototype.toLowerCase] *)
Fixpoint toLowerCase (s : string) : string :=
  match s with
  | EmptyString => EmptyString
  | String c s' => String (lower_char c) (toLowerCase s')
  end.

(** The character class [\s]: tab, line feed, vertical tab, form feed,
    carriage return, space and no-break space. *)
Definition is_space (c : ascii) : bool :=
  let n := nat_of_ascii c in
  ((9 <=? n)%nat && (n <=? 13)%nat) || (n =? 32)%nat || (n =? 160)%nat.

(** Drops the whitespace a string starts with. *)
Fixpoint skip_spaces (s : string) : string :=
  match s with
  | EmptyString => EmptyString
  | String c s' => if is_space c then skip_spaces s' else s
  end.

(** [s.replace(/\s+/g, '-')]: every maximal run of whitespace becomes one
    hyphen.  [in_run] tells that the previous character was whitespace,
    whose hyphen is already written. *)
Fixpoint replace_spaces_from (in_run : bool) (s : string) : string :=
  match s with
  | EmptyString => EmptyString
  | String c s' =>
      if is_space c
      then if in_run then replace_spaces_from true s'
           else String "-" (replace_spaces_from true s')
      else String c (replace_spaces_from false s')
  end.

Definition replace_spaces (s : string) : string := replace_spaces_from false s.

(** Drops the whitespace a string ends with. *)
Fixpoint trim_end (s : string) : string :=
  match s with
  | EmptyString => EmptyString
  | String c s' =>
      match trim_end s' with
      | EmptyString => if is_space c then EmptyString else String c EmptyString
      | rest => String c rest
      end
  end.

(** [String.prototype.trim]: the string without the whitespace at its two
    ends. *)
Definition trim (s : string) : string := trim_end (skip_spaces s).

(** [s.startsWith(t)] *)
Fixpoint startsWith (s t : string) {struct t} : bool :=
  match t with
  | EmptyString => true
  | String b t' =>
      match s with
      | EmptyString => false
      | String a s' => Ascii.eqb a b && startsWith s' t'
      end
  end.

(** [s.includes(t)] *)
Fixpoint includes (s t : string) : bool :=
  startsWith s t ||
  match s with
  | EmptyString => false
  | String _ s' => includes s' t
  end.

(** [parts.join(sep)] *)
Fixpoint join (sep : string) (parts : list string) : string :=
  match parts with
  | [] => EmptyString
  | [p] => p
  | p :: rest => (p ++ sep ++ join sep rest)%string
  end.

(** [String(n)] for an integer [n]. *)
Definition Z_to_string (z : Z) : string :=
  NilZero.string_of_int (Z.to_int z).

(** ** Dates *)

Definition JsDate := option Z.

Definition msPerDay : Z := 86400000.
Definition msPerHour : Z := 3600000.

(** Proleptic Gregorian date of a day number (days since 1970-01-01). *)
Definition civil_from_days (days : Z) : Z * Z * Z :=
  let z := (days + 719468)%Z in
  let era := (z / 146097)%Z in
  let doe := (z - era * 146097)%Z in
  let yoe := ((doe - doe / 1460 + doe / 36524 - doe / 146096) / 365)%Z in
  let doy := (doe - (365 * yoe + yoe / 4 - yoe / 100))%Z in
  let mp := ((5 * doy + 2) / 153)%Z in
  let d := (doy - (153 * mp + 2) / 5 + 1)%Z in
  let m := (if (mp <? 10)%Z then mp + 3 else mp - 9)%Z in
  let y := (yoe + era * 400 + (if (m <=? 2)%Z then 1 else 0))%Z in
  (y, m, d).

Fixpoint zeros (n : nat) : string :=
  match n with
  | O => EmptyString
  | S n' => String "0" (zeros n')
  end.

(** Decimal digits of a non-negative integer, zero-padded to [width]. *)
Definition pad_number (width : nat) (z : Z) : string :=
  let digits := Z_to_string z in
  (zeros (width - String.length digits) ++ digits)%string.

(** The year part of [toISOString]: four digits, or a sign and six digits
    outside 0..9999. *)
Definition iso_year (y : Z) : string :=
  if ((0 <=? y) && (y <=? 9999))%Z then pad_number 4 y
  else if (y <? 0)%Z then String "-" (pad_number 6 (- y))
  else String "+" (pad_number 6 y).

(** [new Date(d).toISOString().split('T')[0]]: the UTC calendar day.
    [toISOString] throws a RangeError on an Invalid Date. *)
Definition iso_date (d : JsDate) : Exc string :=
  match d with
  | None => Throw "Invalid time value"
  | Some t =>
      let '(y, m, dd) := civil_from_days (t / msPerDay) in
      Ok (iso_year y ++ "-" ++ pad_number 2 m ++ "-" ++ pad_number 2 dd)%string
  end.

(** [d.setHours(0, 0, 0, 0)] on the current instant, for a process whose
    local time is UTC plus [tz] milliseconds. *)
Definition start_of_local_day (tz now : Z) : Z :=
  (now - (now + tz) mod msPerDay)%Z.

(** ** Data model *)

(** *** Hotels as the inventory service and the formatters see them *)

(** The [price] object of an inbound record. *)
Module RawPrice.
Record t := mk {
  total : option Q;
  currency : option string;
  perNight : option Q
}.
End RawPrice.

(** An object handed to [formatHotelResults] or [formatHotelDetails]: the
    fields either of them reads. *)
Module Raw.
Record t := mk {
  id : option string;
  hotelId : option string;
  name : option string;
  hotelName : option string;
  address : option string;
  city : option string;
  country : option string;
  latitude : option Q;
  longitude : option Q;
  starRating : option Q;
  category : option Q;
  reviewScore : option Q;
  rating : option Q;
  reviewCount : option Z;
  numberOfReviews : option Z;
  price : option RawPrice.t;
  totalPrice : option Q;
  pricePerNight : option Q;
  amenities : option (list string);
  facilities : option (list string);
  images : option (list string);
  photos : option (list string);
  description : option string;
  hotelDescription : option string;
  distance : option Q;
  availability : option string;
  rooms : option (list string);
  checkInTime : option string;
  checkOutTime : option string;
  cancellationPolicy : option string;
  childPolicy : option string;
  petPolicy : option string;
  phone : option string;
  email : option string;
  website : option string
}.
End Raw.

Record Coordinates := {
  latitude : option Q;
  longitude : option Q
}.

Record Location := {
  address : option string;
  city : option string;
  country : option string;
  coordinates : Coordinates
}.

Record Price := {
  amount : option Q;
  currency : string;
  perNight : option Q
}.

(** What [formatHotelResults] returns for one hotel. *)
Module Fmt.
Record t := mk {
  id : option string;
  name : option string;
  location : Location;
  starRating : option Q;
  reviewScore : option Q;
  reviewCount : option Z;
  price : Price;
  amenities : list string;
  images : list string;
  description : option string;
  distance : option Q;
  availability : string
}.
End Fmt.

Record Policies := {
  checkIn : string;
  checkOut : string;
  cancellation : option string;
  children : option string;
  pets : option string
}.

Record Contact := {
  phone : option string;
  email : option string;
  website : option string
}.

(** What [formatHotelDetails] returns. *)
Module Det.
Record t := mk {
  id : option string;
  name : option string;
  location : Location;
  starRating : option Q;
  reviewScore : option Q;
  reviewCount : option Z;
  description : option string;
  amenities : list string;
  images : list string;
  rooms : list string;
  policies : Policies;
  contact : Contact
}.
End Det.

(** A hotel of a search result: the cache and the inventory service give
    formatted results, the directory fallback gives formatted details. *)
Inductive ResultHotel :=
| Listed (h : Fmt.t)
| Detailed (d : Det.t).

(** [hotel.name] *)
Definition hotel_name (h : ResultHotel) : option string :=
  match h with
  | Listed f => Fmt.name f
  | Detailed d => Det.name d
  end.

(** [hotel.starRating] *)
Definition hotel_starRating (h : ResultHotel) : option Q :=
  match h with
  | Listed f => Fmt.starRating f
  | Detailed d => Det.starRating d
  end.

(** [hotel.reviewScore] *)
Definition hotel_reviewScore (h : ResultHotel) : option Q :=
  match h with
  | Listed f => Fmt.reviewScore f
  | Detailed d => Det.reviewScore d
  end.

(** [hotel.price?.amount]: formatted details carry no price. *)
Definition hotel_priceAmount (h : ResultHotel) : option Q :=
  match h with
  | Listed f => amount (Fmt.price f)
  | Detailed _ => None
  end.

(** *** The hotel directory (Hotel.js) *)

Inductive HotelStatus := HotelActive | HotelInactive | HotelPending | HotelSuspended.

Inductive VerificationMethod := ExactMatch | PartialMatch | FuzzyMatch | Manual.

Record VerificationRecord := {
  originalQuery : string;
  confidence : Q;
  verified : bool;
  verificationMethod : VerificationMethod
}.

Module PriceRange.
Record t := mk {
  min : option Q;
  max : option Q
}.
End PriceRange.

(** A document of the [Hotel] collection. *)
Module Doc.
Record t := mk {
  _id : string;
  hotelId : string;
  name : string;
  description : option string;
  address : string;
  city : string;
  country : string;
  starRating : option Q;
  reviewScore : option Q;
  reviewCount : option Z;
  priceRange : PriceRange.t;
  amenities : list string;
  images : list string;
  verificationHistory : list VerificationRecord;
  popularityScore : Z;
  status : HotelStatus;
  isFeatured : bool
}.
End Doc.

(** The update document of [updateOrCreateHotel]. *)
Module HotelData.
Record t := mk {
  hotelId : option string;
  name : option string;
  location : Location;
  starRating : option Q;
  reviewScore : option Q;
  reviewCount : option Z;
  description : option string;
  amenities : list string;
  images : list string;
  policies : option Policies;
  contact : option Contact;
  status : HotelStatus;
  lastUpdated : Z
}.
End HotelData.

(** *** The search-result cache (hotelSearchCache.js) *)

Module Filters.
Record t := mk {
  minRating : option Z;
  maxPrice : option Z;
  amenities : list string;
  hotelChain : option string
}.
End Filters.

(** The [searchParams] of the cache. *)
Module Params.
Record t := mk {
  location : string;
  checkIn : JsDate;
  checkOut : JsDate;
  rooms : option Z;
  guests : option Z;
  additionalFilters : option Filters.t
}.
End Params.

Record CacheResults := {
  hotels : list Fmt.t;
  totalResults : Z;
  searchTimestamp : Z
}.

Inductive CacheSource := TssApi | FallbackSource | ManualSource.

Record CacheMetadata := {
  source : CacheSource;
  responseTime : Z;
  apiVersion : string;
  hitCount : Z;
  lastAccessed : Z
}.

Inductive CacheStatus := CacheActive | CacheExpired | CacheInvalid.

(** A document of the [HotelSearchCache] collection. *)
Record CacheEntry := {
  docId : nat;
  searchKey : string;
  searchParams : Params.t;
  results : CacheResults;
  cacheMetadata : CacheMetadata;
  expiresAt : Z;
  isExpired : bool;
  status : CacheStatus;
  createdAt : Z;
  updatedAt : Z
}.

Definition CacheStatus_eqb (a b : CacheStatus) : bool :=
  match a, b with
  | CacheActive, CacheActive | CacheExpired, CacheExpired
  | CacheInvalid, CacheInvalid => true
  | _, _ => false
  end.

(** ** The search-result cache *)

Local Open Scope string_scope.
Local Open Scope Z_scope.
Local Open Scope exc_scope.

(** A key part that is pushed only when the filter is truthy. *)
Definition filter_part {A} `{Truthy A}
    (prefix : string) (v : option A) (show : A -> string) : list string :=
  match v with
  | Some a => if truthy a then [prefix ++ show a] else []
  | None => []
  end.

(** [hotelSearchCacheSchema.statics.generateSearchKey] *)
Definition generateSearchKey (searchParams : Params.t) : Exc string :=
  let location := Params.location searchParams in
  let rooms := Params.rooms searchParams in
  let guests := Params.guests searchParams in
  let loc := replace_spaces (toLowerCase location) in
  let? ci := iso_date (Params.checkIn searchParams) in
  let? co := iso_date (Params.checkOut searchParams) in
  let keyParts :=
    [ loc; ci; co;
      "r" ++ Z_to_string (js_or_default rooms 1);
      "g" ++ Z_to_string (js_or_default guests 1) ] in
  let keyParts :=
    match Params.additionalFilters searchParams with
    | Some f =>
        (keyParts
         ++ filter_part "minr" (Filters.minRating f) Z_to_string
         ++ filter_part "maxp" (Filters.maxPrice f) Z_to_string
         ++ filter_part "chain" (Filters.hotelChain f) toLowerCase)%list
    | None => keyParts
    end in
  Ok (join "_" keyParts).

(** The filter of [findValidCache]:
    [{ searchKey, status: 'active', isExpired: false, expiresAt: { $gt: now } }] *)
Definition valid_for (key : string) (now : Z) (e : CacheEntry) : bool :=
  String.eqb (searchKey e) key
  && CacheStatus_eqb (status e) CacheActive
  && negb (isExpired e)
  && (now <? expiresAt e).

(** [hotelSearchCacheSchema.statics.findValidCache]: [findOne] gives the
    first document of the collection that passes the filter, or [null]. *)
Definition findValidCache
    (docs : list CacheEntry) (searchParams : Params.t) (now : Z)
  : Exc (option CacheEntry) :=
  let? key := generateSearchKey searchParams in
  Ok (find (valid_for key now) docs).

(** An identifier no document of the collection has. *)
Definition fresh_id (docs : list CacheEntry) : nat :=
  S (fold_right Nat.max O (map docId docs)).

(** *** Casting by the schema

    Mongoose casts the update of [findOneAndUpdate] by the schema before
    it reaches the store: the setters of the paths run ([trim] on
    [searchParams.location]), and every element of [results.hotels]
    becomes a subdocument of the hotel schema, which keeps the paths of
    that schema (not [id], not [description]) and gets an [_id] of its
    own, which its [id] virtual gives back. *)

(** The [_id] of a subdocument: an ObjectId, which the driver makes from
    the time and a counter.  The model writes the two down; no property
    depends on the value. *)
Definition objectId (now : Z) (counter : nat) : string :=
  (Z_to_string now ++ "-" ++ Z_to_string (Z.of_nat counter))%string.

Definition cast_hotel (_id : string) (hotel : Fmt.t) : Fmt.t :=
  {| Fmt.id := Some _id;
     Fmt.name := Fmt.name hotel;
     Fmt.location := Fmt.location hotel;
     Fmt.starRating := Fmt.starRating hotel;
     Fmt.reviewScore := Fmt.reviewScore hotel;
     Fmt.reviewCount := Fmt.reviewCount hotel;
     Fmt.price := Fmt.price hotel;
     Fmt.amenities := Fmt.amenities hotel;
     Fmt.images := Fmt.images hotel;
     Fmt.description := None;
     Fmt.distance := Fmt.distance hotel;
     Fmt.availability := Fmt.availability hotel |}.

Fixpoint cast_hotels (now : Z) (counter : nat) (hotels : list Fmt.t) : list Fmt.t :=
  match hotels with
  | [] => []
  | hotel :: rest =>
      cast_hotel (objectId now counter) hotel :: cast_hotels now (S counter) rest
  end.

Definition cast_results (now : Z) (res : CacheResults) : CacheResults :=
  {| hotels := cast_hotels now 0 (hotels res);
     totalResults := totalResults res;
     searchTimestamp := searchTimestamp res |}.

Definition cast_params (searchParams : Params.t) : Params.t :=
  {| Params.location := trim (Params.location searchParams);
     Params.checkIn := Params.checkIn searchParams;
     Params.checkOut := Params.checkOut searchParams;
     Params.rooms := Params.rooms searchParams;
     Params.guests := Params.guests searchParams;
     Params.additionalFilters := Params.additionalFilters searchParams |}.

(** The update of [createOrUpdateCache] applied to an existing document:
    the plain fields and [$set] overwrite, [$inc] adds one hit. *)
Definition apply_cache_update
    (key : string) (searchParams : Params.t) (res : CacheResults)
    (expires now : Z) (e : CacheEntry) : CacheEntry :=
  {| docId := docId e;
     searchKey := key;
     searchParams := searchParams;
     results := res;
     cacheMetadata :=
       {| source := source (cacheMetadata e);
          responseTime := responseTime (cacheMetadata e);
          apiVersion := apiVersion (cacheMetadata e);
          hitCount := hitCount (cacheMetadata e) + 1;
          lastAccessed := now |};
     expiresAt := expires;
     isExpired := false;
     status := CacheActive;
     createdAt := createdAt e;
     updatedAt := now |}.

(** The document an upsert inserts: the update on top of the schema
    defaults ([setDefaultsOnInsert]). *)
Definition inserted_cache_entry
    (id : nat) (key : string) (searchParams : Params.t) (res : CacheResults)
    (expires now : Z) : CacheEntry :=
  {| docId := id;
     searchKey := key;
     searchParams := searchParams;
     results := res;
     cacheMetadata :=
       {| source := TssApi;
          responseTime := 0;
          apiVersion := "1.0";
          hitCount := 1;
          lastAccessed := now |};
     expiresAt := expires;
     isExpired := false;
     status := CacheActive;
     createdAt := now;
     updatedAt := now |}.

(** Replaces the first document that passes [p]. *)
Fixpoint update_first (p : CacheEntry -> bool) (f : CacheEntry -> CacheEntry)
    (docs : list CacheEntry) : list CacheEntry :=
  match docs with
  | [] => []
  | d :: rest => if p d then f d :: rest else d :: update_first p f rest
  end.

(** [hotelSearchCacheSchema.statics.createOrUpdateCache]:
    [findOneAndUpdate({ searchKey }, update, { upsert: true, new: true })].
    The signature is computed from the parameters as they are given; the
    update is cast by the schema and goes to the store without document
    middleware: [pre('save')] runs on [save()] only.  Returns the document
    after the update and the collection after it. *)
Definition createOrUpdateCache
    (docs : list CacheEntry) (searchParams : Params.t) (res : CacheResults)
    (ttlHours : Z) (now : Z) : Exc (CacheEntry * list CacheEntry) :=
  let? key := generateSearchKey searchParams in
  let expires := now + ttlHours * msPerHour in
  let same_key := fun e => String.eqb (searchKey e) key in
  let storedParams := cast_params searchParams in
  let storedResults := cast_results now res in
  match find same_key docs with
  | Some e =>
      Ok (apply_cache_update key storedParams storedResults expires now e,
          update_first same_key
            (apply_cache_update key storedParams storedResults expires now) docs)
  | None =>
      let e :=
        inserted_cache_entry (fresh_id docs) key storedParams storedResults
          expires now in
      Ok (e, (docs ++ [e])%list)
  end.

(** [hotelSearchCacheSchema.pre('save')]: a check-out date before the start
    of the current local day expires the entry. *)
Definition pre_save (tz now : Z) (e : CacheEntry) : CacheEntry :=
  let today := start_of_local_day tz now in
  match Params.checkOut (searchParams e) with
  | Some checkOut =>
      if checkOut <? today
      then {| docId := docId e; searchKey := searchKey e;
              searchParams := searchParams e; results := results e;
              cacheMetadata := cacheMetadata e; expiresAt := expiresAt e;
              isExpired := true; status := CacheExpired;
              createdAt := createdAt e; updatedAt := updatedAt e |}
      else e
  | None => e
  end.

(** [doc.save()]: the hooks run, then the document replaces the stored one
    with its identifier. *)
Definition save (tz now : Z) (docs : list CacheEntry) (e : CacheEntry)
  : CacheEntry * list CacheEntry :=
  let e1 := pre_save tz now e in
  let e2 := {| docId := docId e1; searchKey := searchKey e1;
               searchParams := searchParams e1; results := results e1;
               cacheMetadata := cacheMetadata e1; expiresAt := expiresAt e1;
               isExpired := isExpired e1; status := status e1;
               createdAt := createdAt e1; updatedAt := now |} in
  (e2, map (fun d => if Nat.eqb (docId d) (docId e2) then e2 else d) docs).

(** [hotelSearchCacheSchema.methods.recordHit] *)
Definition recordHit (tz now : Z) (docs : list CacheEntry) (e : CacheEntry)
  : CacheEntry * list CacheEntry :=
  let e' := {| docId := docId e; searchKey := searchKey e;
               searchParams := searchParams e; results := results e;
               cacheMetadata :=
                 {| source := source (cacheMetadata e);
                    responseTime := responseTime (cacheMetadata e);
                    apiVersion := apiVersion (cacheMetadata e);
                    hitCount := hitCount (cacheMetadata e) + 1;
                    lastAccessed := now |};
               expiresAt := expiresAt e; isExpired := isExpired e;
               status := status e;
               createdAt := createdAt e; updatedAt := updatedAt e |} in
  save tz now docs e'.

(** The [isValid] virtual. *)
Definition isValid (now : Z) (e : CacheEntry) : bool :=
  CacheStatus_eqb (status e) CacheActive
  && negb (isExpired e)
  && (now <? expiresAt e).

(** [hotelSearchCacheSchema.statics.cleanupExpired] *)
Definition cleanupExpired (docs : list CacheEntry) (now : Z) : list CacheEntry :=
  filter (fun e => negb ((expiresAt e <? now)
                         || CacheStatus_eqb (status e) CacheExpired
                         || isExpired e)) docs.

(** ** The hotel directory *)

Local Open Scope Q_scope.

(** *** Double-precision arithmetic

    A finite double is the rational it stands for.  [double x] is the
    double nearest to [x], ties going to the even significand (IEEE 754
    binary64, round to nearest even): 53 significant bits, subnormal
    numbers down to [2^-1074].  The upper end of the exponent range is not
    modelled: no operation below reaches [2^1024] on fields in the ranges
    of the schema. *)

Definition pow2 (e : Z) : Q := 2 ^ e.

(** The exponent of the leading bit: [2^k <= |x| < 2^(k+1)]. *)
Definition ilog2 (x : Q) : Z :=
  let k := (Z.log2 (Z.abs (Qnum x)) - Z.log2 (Z.pos (Qden x)))%Z in
  if Qle_bool (pow2 k) (Qabs x) then k else (k - 1)%Z.

(** The nearest integer, a half going to the even one. *)
Definition rne (x : Q) : Z :=
  let f := Qfloor x in
  match Qcompare (x - inject_Z f) (1 # 2) with
  | Lt => f
  | Gt => (f + 1)%Z
  | Eq => if Z.even f then f else (f + 1)%Z
  end.

Definition emin : Z := -1074.

(** The exponent of the last bit of the significand of [x]. *)
Definition cexp (x : Q) : Z := Z.max (ilog2 x - 52) emin.

(** The nearest multiple of [2^e]. *)
Definition round_at (e : Z) (x : Q) : Q := inject_Z (rne (x / pow2 e)) * pow2 e.

Definition double (x : Q) : Q :=
  match Qcompare x 0 with
  | Eq => 0
  | Gt => round_at (cexp x) x
  | Lt => - round_at (cexp (- x)) (- x)
  end.

(** [a + b], [a * b] and [a / b] on doubles. *)
Definition fadd (a b : Q) : Q := double (a + b).
Definition fmul (a b : Q) : Q := double (a * b).
Definition fdiv (a b : Q) : Q := double (a / b).

(** [Math.round]: the nearest integer, halves upwards. *)
Definition Math_round (x : Q) : Z := Qfloor (x + (1 # 2)).

(** The share of verified records of a verification history. *)
Definition success_rate (history : list VerificationRecord) : Q :=
  inject_Z (Z.of_nat (List.length (filter verified history)))
  / inject_Z (Z.of_nat (List.length history)).

(** [hotelSchema.methods.calculatePopularityScore] *)
Definition calculatePopularityScore (this : Doc.t) : Z :=
  let score := 0 in
  let score :=
    match Doc.starRating this with
    | Some starRating =>
        if truthy starRating
        then fadd score (fmul (fdiv starRating 5) 25)
        else score
    | None => score
    end in
  let score :=
    match Doc.reviewScore this with
    | Some reviewScore =>
        if truthy reviewScore
        then fadd score (fmul (fdiv reviewScore 10) 30)
        else score
    | None => score
    end in
  let score :=
    match Doc.reviewCount this with
    | Some reviewCount =>
        if truthy reviewCount
        then fadd score (Qmin (fmul (fdiv (inject_Z reviewCount) 1000) 20) 20)
        else score
    | None => score
    end in
  let score :=
    if (0 <? List.length (Doc.verificationHistory this))%nat
    then
      let successRate :=
        fdiv (inject_Z (Z.of_nat (List.length
                                    (filter verified (Doc.verificationHistory this)))))
          (inject_Z (Z.of_nat (List.length (Doc.verificationHistory this)))) in
      fadd score (fmul successRate 15)
    else score in
  let score := if Doc.isFeatured this then fadd score 10 else score in
  Math_round (Qmin score 100).

(** Order of optional numbers in a descending sort: a missing value is
    the least. *)
Definition compare_opt (a b : option Q) : comparison :=
  match a, b with
  | None, None => Eq
  | None, Some _ => Lt
  | Some _, None => Gt
  | Some x, Some y => x ?= y
  end.

(** [.sort({ starRating: -1, reviewScore: -1,
             'searchMetadata.popularityScore': -1 })]: [a] may precede [b]. *)
Definition directory_order (a b : Doc.t) : bool :=
  match compare_opt (Doc.starRating b) (Doc.starRating a) with
  | Lt => true
  | Gt => false
  | Eq =>
      match compare_opt (Doc.reviewScore b) (Doc.reviewScore a) with
      | Lt => true
      | Gt => false
      | Eq => (Doc.popularityScore b <=? Doc.popularityScore a)%Z
      end
  end.

(** Stable insertion sort by an order [le]. *)
Fixpoint insert_by {A} (le : A -> A -> bool) (x : A) (l : list A) : list A :=
  match l with
  | [] => [x]
  | y :: rest => if le x y then x :: y :: rest else y :: insert_by le x rest
  end.

Fixpoint sort_by {A} (le : A -> A -> bool) (l : list A) : list A :=
  match l with
  | [] => []
  | x :: rest => insert_by le x (sort_by le rest)
  end.

Module Range.
Record t := mk {
  min : Q;
  max : Q
}.
End Range.

(** The [criteria] of [findAlternatives]. *)
Module Criteria.
Record t := mk {
  priceRange : option Range.t;
  limit : option nat
}.
End Criteria.

Definition HotelStatus_eqb (a b : HotelStatus) : bool :=
  match a, b with
  | HotelActive, HotelActive | HotelInactive, HotelInactive
  | HotelPending, HotelPending | HotelSuspended, HotelSuspended => true
  | _, _ => false
  end.

(** [{ $gte: lo, $lte: hi }] on a field that may be missing. *)
Definition in_range (lo hi : Q) (v : option Q) : bool :=
  match v with
  | Some x => Qle_bool lo x && Qle_bool x hi
  | None => false
  end.

(** The query of [findAlternatives]. *)
Definition alternatives_query
    (originalHotel : Doc.t) (criteria : Criteria.t) (h : Doc.t) : bool :=
  negb (String.eqb (Doc._id h) (Doc._id originalHotel))
  && String.eqb (Doc.city h) (Doc.city originalHotel)
  && String.eqb (Doc.country h) (Doc.country originalHotel)
  && HotelStatus_eqb (Doc.status h) HotelActive
  && match Doc.starRating originalHotel with
     | Some starRating =>
         if truthy starRating
         then in_range (Qmax 1 (starRating - 1)) (Qmin 5 (starRating + 1))
                (Doc.starRating h)
         else true
     | None => true
     end
  && match Criteria.priceRange criteria with
     | Some range =>
         match PriceRange.min (Doc.priceRange h), PriceRange.max (Doc.priceRange h) with
         | Some lo, Some hi =>
             Qle_bool (Range.min range) lo && Qle_bool hi (Range.max range)
         | _, _ => false
         end
     | None => true
     end.

(** [hotelSchema.statics.findAlternatives] on the documents of the
    collection. *)
Definition findAlternatives
    (docs : list Doc.t) (originalHotel : Doc.t) (criteria : Criteria.t)
  : list Doc.t :=
  firstn (js_or_default (Criteria.limit criteria) 5%nat)
    (sort_by directory_order
       (filter (alternatives_query originalHotel criteria) docs)).

Local Close Scope Q_scope.

(** ** The orchestrator: formatting *)

(** [o?.f] *)
Definition opt_chain {A B} (o : option A) (f : A -> option B) : option B :=
  match o with
  | Some a => f a
  | None => None
  end.

(** The body of the [map] of [formatHotelResults]. *)
Definition formatHotelResult (hotel : Raw.t) : Fmt.t :=
  {| Fmt.id := js_or (Raw.id hotel) (Raw.hotelId hotel);
     Fmt.name := js_or (Raw.name hotel) (Raw.hotelName hotel);
     Fmt.location :=
       {| address := Raw.address hotel;
          city := Raw.city hotel;
          country := Raw.country hotel;
          coordinates :=
            {| latitude := Raw.latitude hotel;
               longitude := Raw.longitude hotel |} |};
     Fmt.starRating := js_or (Raw.starRating hotel) (Raw.category hotel);
     Fmt.reviewScore := js_or (Raw.reviewScore hotel) (Raw.rating hotel);
     Fmt.reviewCount := js_or (Raw.reviewCount hotel) (Raw.numberOfReviews hotel);
     Fmt.price :=
       {| amount :=
            js_or (opt_chain (Raw.price hotel) RawPrice.total) (Raw.totalPrice hotel);
          currency :=
            js_or_default (opt_chain (Raw.price hotel) RawPrice.currency) "EUR";
          perNight :=
            js_or (opt_chain (Raw.price hotel) RawPrice.perNight)
              (Raw.pricePerNight hotel) |};
     Fmt.amenities :=
       js_or_default (js_or (Raw.amenities hotel) (Raw.facilities hotel)) [];
     Fmt.images := js_or_default (js_or (Raw.images hotel) (Raw.photos hotel)) [];
     Fmt.description := js_or (Raw.description hotel) (Raw.hotelDescription hotel);
     Fmt.distance := Raw.distance hotel;
     Fmt.availability := js_or_default (Raw.availability hotel) "available" |}.

(** [HotelService.formatHotelResults] *)
Definition formatHotelResults (hotels : list Raw.t) : list Fmt.t :=
  map formatHotelResult hotels.

(** [HotelService.formatHotelDetails] *)
Definition formatHotelDetails (hotel : Raw.t) : Det.t :=
  {| Det.id := js_or (Raw.id hotel) (Raw.hotelId hotel);
     Det.name := js_or (Raw.name hotel) (Raw.hotelName hotel);
     Det.location :=
       {| address := Raw.address hotel;
          city := Raw.city hotel;
          country := Raw.country hotel;
          coordinates :=
            {| latitude := Raw.latitude hotel;
               longitude := Raw.longitude hotel |} |};
     Det.starRating := js_or (Raw.starRating hotel) (Raw.category hotel);
     Det.reviewScore := js_or (Raw.reviewScore hotel) (Raw.rating hotel);
     Det.reviewCount := js_or (Raw.reviewCount hotel) (Raw.numberOfReviews hotel);
     Det.description := js_or (Raw.description hotel) (Raw.hotelDescription hotel);
     Det.amenities :=
       js_or_default (js_or (Raw.amenities hotel) (Raw.facilities hotel)) [];
     Det.images := js_or_default (js_or (Raw.images hotel) (Raw.photos hotel)) [];
     Det.rooms := js_or_default (Raw.rooms hotel) [];
     Det.policies :=
       {| checkIn := js_or_default (Raw.checkInTime hotel) "15:00";
          checkOut := js_or_default (Raw.checkOutTime hotel) "11:00";
          cancellation := Raw.cancellationPolicy hotel;
          children := Raw.childPolicy hotel;
          pets := Raw.petPolicy hotel |};
     Det.contact :=
       {| phone := Raw.phone hotel;
          email := Raw.email hotel;
          website := Raw.website hotel |} |}.

(** [hotel.toObject()] of a directory document, as [formatHotelDetails]
    reads it: [id] is the virtual of [_id]; the address, the policies and
    the contact are nested in the document, so the top-level fields the
    formatter looks for are missing. *)
Definition toObject (d : Doc.t) : Raw.t :=
  {| Raw.id := Some (Doc._id d);
     Raw.hotelId := Some (Doc.hotelId d);
     Raw.name := Some (Doc.name d);
     Raw.hotelName := None;
     Raw.address := None;
     Raw.city := None;
     Raw.country := None;
     Raw.latitude := None;
     Raw.longitude := None;
     Raw.starRating := Doc.starRating d;
     Raw.category := None;
     Raw.reviewScore := Doc.reviewScore d;
     Raw.rating := None;
     Raw.reviewCount := Doc.reviewCount d;
     Raw.numberOfReviews := None;
     Raw.price := None;
     Raw.totalPrice := None;
     Raw.pricePerNight := None;
     Raw.amenities := Some (Doc.amenities d);
     Raw.facilities := None;
     Raw.images := Some (Doc.images d);
     Raw.photos := None;
     Raw.description := Doc.description d;
     Raw.hotelDescription := None;
     Raw.distance := None;
     Raw.availability := None;
     Raw.rooms := None;
     Raw.checkInTime := None;
     Raw.checkOutTime := None;
     Raw.cancellationPolicy := None;
     Raw.childPolicy := None;
     Raw.petPolicy := None;
     Raw.phone := None;
     Raw.email := None;
     Raw.website := None |}.

(** The [hotelData] of [updateOrCreateHotel] for a formatted result, which
    has no [policies] and no [contact]. *)
Definition hotelData_of (formattedHotel : Fmt.t) (now : Z) : HotelData.t :=
  {| HotelData.hotelId := Fmt.id formattedHotel;
     HotelData.name := Fmt.name formattedHotel;
     HotelData.location := Fmt.location formattedHotel;
     HotelData.starRating := Fmt.starRating formattedHotel;
     HotelData.reviewScore := Fmt.reviewScore formattedHotel;
     HotelData.reviewCount := Fmt.reviewCount formattedHotel;
     HotelData.description := Fmt.description formattedHotel;
     HotelData.amenities := Fmt.amenities formattedHotel;
     HotelData.images := Fmt.images formattedHotel;
     HotelData.policies := None;
     HotelData.contact := None;
     HotelData.status := HotelActive;
     HotelData.lastUpdated := now |}.

(** ** The orchestrator: collaborators and effects *)

Module Room.
Record t := mk {
  adults : Z;
  children : Z
}.
End Room.

(** The body of [POST /hotels/search]. *)
Module Payload.
Record t := mk {
  destination : string;
  checkInDate : JsDate;
  checkOutDate : JsDate;
  rooms : list Room.t;
  currency : string;
  nationality : string
}.
End Payload.

(** [response.data] *)
Module ApiData.
Record t := mk {
  hotels : option (list Raw.t);
  totalResults : option Z
}.
End ApiData.

Record Response := {
  data : option ApiData.t
}.

(** The operations on the cache collection that reach the database. *)
Inductive CacheOp := FindOne | FindOneAndUpdate | Save.

(** The collaborators of the service, over the state [E] of the outside
    world: the clock, the inventory service and the database.  Each call
    may change that state; a [Throw] is a rejected promise.

    - [clock]: [Date.now()];
    - [timezone]: the offset of local time from UTC, in milliseconds;
    - [tss_post]: [this.tssApi.post('/hotels/search', payload)];
    - [hotel_find]: [Hotel.find] with the filter of
      [searchHotelsFromDatabase] for a location (the location is compiled
      as a regular expression, which can throw), before [limit];
    - [hotel_findOneAndUpdate]: the upsert of [updateOrCreateHotel];
    - [cache_fault]: whether an operation on the cache collection fails,
      and with which message. *)
Class Backend (E : Type) := {
  clock : E -> Z;
  timezone : E -> Z;
  tss_post : Payload.t -> E -> Exc Response * E;
  hotel_find : string -> E -> Exc (list Doc.t) * E;
  hotel_findOneAndUpdate : HotelData.t -> E -> Exc unit * E;
  cache_fault : CacheOp -> E -> option string * E
}.

(** The state a call runs in: the cache collection and the outside world. *)
Record World (E : Type) := {
  cache : list CacheEntry;
  ext : E
}.

(** An asynchronous computation: it ends with a value or a thrown error,
    and in both cases leaves a state behind. *)
Definition M (E A : Type) : Type := World E -> Exc A * World E.

Definition ret {E A} (a : A) : M E A := fun w => (Ok a, w).

Definition throw {E A} (message : string) : M E A := fun w => (Throw message, w).

Definition bind {E A B} (c : M E A) (k : A -> M E B) : M E B :=
  fun w =>
    match c w with
    | (Ok a, w') => k a w'
    | (Throw m, w') => (Throw m, w')
    end.

(** [try { c } catch (error) { handler(error.message) }] *)
Definition try_catch {E A} (c : M E A) (handler : string -> M E A) : M E A :=
  fun w =>
    match c w with
    | (Ok a, w') => (Ok a, w')
    | (Throw m, w') => handler m w'
    end.

Definition lift_exc {E A} (r : Exc A) : M E A := fun w => (r, w).

Declare Scope m_scope.
Delimit Scope m_scope with m.
Notation "x <- c ;; k" := (bind c (fun x => k))
  (at level 61, c at next level, right associativity) : m_scope.
Notation "c ;; k" := (bind c (fun _ => k))
  (at level 61, right associativity) : m_scope.

(** [for (const x of xs) { await f(x) }] *)
Fixpoint for_each {E A} (f : A -> M E unit) (xs : list A) : M E unit :=
  match xs with
  | [] => ret tt
  | x :: rest => bind (f x) (fun _ => for_each f rest)
  end.

(** [xs.find(p)] and [xs.filter(p)] for a callback that can throw. *)
Fixpoint find_exc {A} (p : A -> Exc bool) (xs : list A) : Exc (option A) :=
  match xs with
  | [] => Ok None
  | x :: rest =>
      let? b := p x in
      if b then Ok (Some x) else find_exc p rest
  end.

Fixpoint filter_exc {A} (p : A -> Exc bool) (xs : list A) : Exc (list A) :=
  match xs with
  | [] => Ok []
  | x :: rest =>
      let? b := p x in
      let? rest' := filter_exc p rest in
      Ok (if b then x :: rest' else rest')
  end.

(** The provenance tag of a search result. *)
Inductive Source := SourceCache | SourceApi | SourceFallback.

(** What [searchHotels] returns. *)
Module Result.
Record t := mk {
  hotels : list ResultHotel;
  total : Z;
  source : Source;
  responseTime : option Z
}.
End Result.

(** What [searchHotelsFromDatabase] returns. *)
Module DbResult.
Record t := mk {
  hotels : list ResultHotel;
  total : Z
}.
End DbResult.

(** The argument of [searchHotels]. *)
Module Search.
Record t := mk {
  location : string;
  checkIn : JsDate;
  checkOut : JsDate;
  rooms : option Z;
  guests : option Z
}.
End Search.

(** A default parameter value: it replaces [undefined] only. *)
Definition default_to {A} (v : option A) (d : A) : A :=
  match v with
  | Some a => a
  | None => d
  end.

(** What [searchHotelByName] returns. *)
Module NameMatch.
Record t := mk {
  found : bool;
  hotel : option ResultHotel;
  confidence : Q
}.
End NameMatch.

(** The argument of [getAlternativeHotels]. *)
Module AltReq.
Record t := mk {
  originalHotelName : string;
  location : string;
  checkIn : JsDate;
  checkOut : JsDate;
  priceRange : option Range.t;
  starRating : option Q;
  limit : option nat
}.
End AltReq.

(** A hotel the itinerary generator recommends. *)
Module Recommended.
Record t := mk {
  name : string;
  starRating : option Q
}.
End Recommended.

Record VerifiedItem := {
  v_original : Recommended.t;
  v_verified : option ResultHotel;
  v_status : string;
  v_confidence : Q
}.

Record AlternativesItem := {
  a_original : Recommended.t;
  a_alternatives : list ResultHotel;
  a_status : string
}.

Record UnavailableItem := {
  u_original : Recommended.t;
  u_status : string;
  u_reason : string
}.

(** The [results] of [verifyRecommendedHotels]. *)
Module Verification.
Record t := mk {
  verified : list VerifiedItem;
  alternatives : list AlternativesItem;
  unavailable : list UnavailableItem
}.
End Verification.

(** The message of the TypeError of [undefined.toLowerCase()]. *)
Definition no_toLowerCase : string :=
  "Cannot read properties of undefined (reading 'toLowerCase')".

(** [hotel.name.toLowerCase()] *)
Definition lower_name (hotel : ResultHotel) : Exc string :=
  match hotel_name hotel with
  | Some n => Ok (toLowerCase n)
  | None => Throw no_toLowerCase
  end.

(** ** The orchestrator: matching and ranking *)

Local Open Scope Q_scope.

(** The callback of the first [find] of [searchHotelByName]:
    [hotel.name.toLowerCase() === hotelName.toLowerCase()]. *)
Definition same_name (hotelName : string) (hotel : ResultHotel) : Exc bool :=
  let? n := lower_name hotel in
  Ok (String.eqb n (toLowerCase hotelName)).

(** The callback of the second [find]: one lower-cased name includes the
    other. *)
Definition similar_name (hotelName : string) (hotel : ResultHotel) : Exc bool :=
  let? n := lower_name hotel in
  Ok (includes n (toLowerCase hotelName) || includes (toLowerCase hotelName) n).

(** The body of [searchHotelByName] after the search: an exact match of
    the lower-cased names first, then a containment either way. *)
Definition match_by_name (hotels : list ResultHotel) (hotelName : string)
  : Exc NameMatch.t :=
  let? exactMatch := find_exc (same_name hotelName) hotels in
  match exactMatch with
  | Some hotel => Ok (NameMatch.mk true (Some hotel) 1)
  | None =>
      let? partialMatch := find_exc (similar_name hotelName) hotels in
      match partialMatch with
      | Some hotel => Ok (NameMatch.mk true (Some hotel) (8 # 10))
      | None => Ok (NameMatch.mk false None 0)
      end
  end.

(** The first filter of [getAlternativeHotels]:
    [hotel.name.toLowerCase() !== originalHotelName.toLowerCase()]. *)
Definition other_name (originalHotelName : string) (hotel : ResultHotel) : Exc bool :=
  let? n := lower_name hotel in
  Ok (negb (String.eqb n (toLowerCase originalHotelName))).

(** [Math.abs(hotel.starRating - starRating) <= ratingRange]; a missing
    rating makes the difference [NaN], which compares false. *)
Definition within_rating (ratingRange starRating : Q) (hotel : ResultHotel) : bool :=
  match hotel_starRating hotel with
  | Some r => Qle_bool (Qabs (r - starRating)) ratingRange
  | None => false
  end.

(** The sort key of [getAlternativeHotels]. *)
Definition alternative_score (a : ResultHotel) : Q :=
  js_or_default (hotel_starRating a) 0 * (7 # 10)
  + js_or_default (hotel_reviewScore a) 0 * (3 # 10).

(** The comparator [(a, b) => bScore - aScore] leaves [a] before [b] when
    it is not positive. *)
Definition score_order (a b : ResultHotel) : bool :=
  Qle_bool (alternative_score b - alternative_score a) 0.

(** The body of [getAlternativeHotels] after the search. *)
Definition alternatives_among (hotels : list ResultHotel) (req : AltReq.t)
  : Exc (list ResultHotel) :=
  let? alternatives :=
    filter_exc (other_name (AltReq.originalHotelName req)) hotels in
  let alternatives :=
    match AltReq.starRating req with
    | Some starRating =>
        if truthy starRating
        then
          let ratingRange := 5 # 10 in
          filter (within_rating ratingRange starRating) alternatives
        else alternatives
    | None => alternatives
    end in
  let alternatives :=
    match AltReq.priceRange req with
    | Some priceRange =>
        filter (fun hotel =>
          let price := js_or_default (hotel_priceAmount hotel) 0 in
          Qle_bool (Range.min priceRange) price
          && Qle_bool price (Range.max priceRange)) alternatives
    | None => alternatives
    end in
  let alternatives := sort_by score_order alternatives in
  Ok (firstn (default_to (AltReq.limit req) 5%nat) alternatives).

Local Close Scope Q_scope.

(** ** The orchestrator: the service *)

Section Service.

Context {E : Type} `{Backend E}.

Local Open Scope m_scope.

Definition now : M E Z := fun w => (Ok (clock (ext w)), w).

Definition local_timezone : M E Z := fun w => (Ok (timezone (ext w)), w).

Definition get_cache : M E (list CacheEntry) := fun w => (Ok (cache w), w).

Definition put_cache (docs : list CacheEntry) : M E unit :=
  fun w => (Ok tt, {| cache := docs; ext := ext w |}).

(** A call to a collaborator. *)
Definition call {A} (op : E -> Exc A * E) : M E A :=
  fun w =>
    let (r, x) := op (ext w) in
    (r, {| cache := cache w; ext := x |}).

(** The database round trip of an operation on the cache collection. *)
Definition cache_roundtrip (op : CacheOp) : M E unit :=
  call (fun x =>
    match cache_fault op x with
    | (Some m, x') => (Throw m, x')
    | (None, x') => (Ok tt, x')
    end).

(** [await HotelSearchCache.findValidCache(params)] *)
Definition HotelSearchCache_findValidCache (searchParams : Params.t)
  : M E (option CacheEntry) :=
  t <- now ;;
  docs <- get_cache ;;
  r <- lift_exc (findValidCache docs searchParams t) ;;
  cache_roundtrip FindOne ;;
  ret r.

(** [await HotelSearchCache.createOrUpdateCache(params, results, ttl)] *)
Definition HotelSearchCache_createOrUpdateCache
    (searchParams : Params.t) (res : CacheResults) (ttlHours : Z)
  : M E CacheEntry :=
  t <- now ;;
  docs <- get_cache ;;
  r <- lift_exc (createOrUpdateCache docs searchParams res ttlHours t) ;;
  cache_roundtrip FindOneAndUpdate ;;
  put_cache (snd r) ;;
  ret (fst r).

(** [await cachedResult.recordHit()] *)
Definition CacheEntry_recordHit (e : CacheEntry) : M E CacheEntry :=
  t <- now ;;
  tz <- local_timezone ;;
  docs <- get_cache ;;
  cache_roundtrip Save ;;
  put_cache (snd (recordHit tz t docs e)) ;;
  ret (fst (recordHit tz t docs e)).

(** [HotelService.updateOrCreateHotel] for a formatted result: an error of
    the upsert is logged and swallowed. *)
Definition updateOrCreateHotel (formattedHotel : Fmt.t) : M E unit :=
  try_catch
    (t <- now ;;
     call (hotel_findOneAndUpdate (hotelData_of formattedHotel t)))
    (fun _ => ret tt).

(** [HotelService.updateOrCreateHotels] *)
Definition updateOrCreateHotels (hotels : list Fmt.t) : M E unit :=
  try_catch
    (for_each updateOrCreateHotel hotels)
    (fun _ => ret tt).

(** [HotelService.searchHotelsFromDatabase] *)
Definition searchHotelsFromDatabase (location : string) (checkIn checkOut : JsDate)
  : M E DbResult.t :=
  try_catch
    (found <- call (hotel_find location) ;;
     let hotels := firstn 20 found in
     ret (DbResult.mk
            (map (fun hotel => Detailed (formatHotelDetails (toObject hotel))) hotels)
            (Z.of_nat (List.length hotels))))
    (fun _ => ret (DbResult.mk [] 0)).

(** The parameters [searchHotels] gives to the cache: [rooms] and [guests]
    default to 1. *)
Definition search_params (criteria : Search.t) : Params.t :=
  Params.mk (Search.location criteria) (Search.checkIn criteria)
    (Search.checkOut criteria)
    (Some (default_to (Search.rooms criteria) 1))
    (Some (default_to (Search.guests criteria) 1))
    None.

(** The [searchPayload] of [searchHotels]. *)
Definition search_payload (criteria : Search.t) : Payload.t :=
  Payload.mk (Search.location criteria) (Search.checkIn criteria)
    (Search.checkOut criteria)
    [Room.mk (default_to (Search.guests criteria) 1) 0] "EUR" "DE".

(** The [try] block of [searchHotels]: the cache, then the inventory
    service. *)
Definition search_attempt (criteria : Search.t) : M E Result.t :=
  cachedResult <- HotelSearchCache_findValidCache (search_params criteria) ;;
  match cachedResult with
  | Some cached =>
      cached' <- CacheEntry_recordHit cached ;;
      ret (Result.mk (map Listed (hotels (results cached')))
             (totalResults (results cached')) SourceCache None)
  | None =>
      startTime <- now ;;
      response <- call (tss_post (search_payload criteria)) ;;
      endTime <- now ;;
      let responseTime := endTime - startTime in
      match opt_chain (data response) ApiData.hotels with
      | Some rawHotels =>
          let formattedHotels := formatHotelResults rawHotels in
          let total :=
            js_or_default (opt_chain (data response) ApiData.totalResults)
              (Z.of_nat (List.length formattedHotels)) in
          searchTimestamp <- now ;;
          HotelSearchCache_createOrUpdateCache (search_params criteria)
            {| hotels := formattedHotels;
               totalResults := total;
               searchTimestamp := searchTimestamp |}
            2 ;;
          updateOrCreateHotels formattedHotels ;;
          ret (Result.mk (map Listed formattedHotels) total SourceApi
                 (Some responseTime))
      | None => ret (Result.mk [] 0 SourceApi None)
      end
  end.

(** The [catch] block of [searchHotels]: the directory. *)
Definition search_fallback (criteria : Search.t) : M E Result.t :=
  fallbackResults <-
    searchHotelsFromDatabase (Search.location criteria)
      (Search.checkIn criteria) (Search.checkOut criteria) ;;
  if (0 <? List.length (DbResult.hotels fallbackResults))%nat
  then ret (Result.mk (DbResult.hotels fallbackResults)
              (DbResult.total fallbackResults) SourceFallback None)
  else throw "Failed to search hotels via TSS API".

(** [HotelService.searchHotels] *)
Definition searchHotels (criteria : Search.t) : M E Result.t :=
  try_catch (search_attempt criteria) (fun _ => search_fallback criteria).

(** [HotelService.searchHotelByName] *)
Definition searchHotelByName
    (hotelName location : string) (checkIn checkOut : JsDate)
  : M E NameMatch.t :=
  try_catch
    (searchResults <- searchHotels (Search.mk location checkIn checkOut None None) ;;
     lift_exc (match_by_name (Result.hotels searchResults) hotelName))
    (fun message => throw ("Failed to search hotel by name: " ++ message)).

(** [HotelService.getAlternativeHotels] *)
Definition getAlternativeHotels (req : AltReq.t) : M E (list ResultHotel) :=
  try_catch
    (searchResults <-
       searchHotels (Search.mk (AltReq.location req) (AltReq.checkIn req)
                       (AltReq.checkOut req) None None) ;;
     lift_exc (alternatives_among (Result.hotels searchResults) req))
    (fun message => throw ("Failed to get alternative hotels: " ++ message)).

(** One turn of the loop of [verifyRecommendedHotels]. *)
Definition verify_one
    (location : string) (checkIn checkOut : JsDate)
    (results : Verification.t) (recommendedHotel : Recommended.t)
  : M E Verification.t :=
  try_catch
    (searchResult <-
       searchHotelByName (Recommended.name recommendedHotel) location checkIn checkOut ;;
     if NameMatch.found searchResult
     then
       ret (Verification.mk
              (Verification.verified results
               ++ [ {| v_original := recommendedHotel;
                       v_verified := NameMatch.hotel searchResult;
                       v_status := "verified";
                       v_confidence := NameMatch.confidence searchResult |} ])%list
              (Verification.alternatives results)
              (Verification.unavailable results))
     else
       alternatives <-
         getAlternativeHotels
           (AltReq.mk (Recommended.name recommendedHotel) location checkIn checkOut
              None (Recommended.starRating recommendedHotel) (Some 3%nat)) ;;
       if (0 <? List.length alternatives)%nat
       then
         ret (Verification.mk
                (Verification.verified results)
                (Verification.alternatives results
                 ++ [ {| a_original := recommendedHotel;
                         a_alternatives := alternatives;
                         a_status := "alternatives_found" |} ])%list
                (Verification.unavailable results))
       else
         ret (Verification.mk
                (Verification.verified results)
                (Verification.alternatives results)
                (Verification.unavailable results
                 ++ [ {| u_original := recommendedHotel;
                         u_status := "unavailable";
                         u_reason := "No suitable alternatives found" |} ])%list))
    (fun message =>
       ret (Verification.mk
              (Verification.verified results)
              (Verification.alternatives results)
              (Verification.unavailable results
               ++ [ {| u_original := recommendedHotel;
                       u_status := "error";
                       u_reason := message |} ])%list)).

(** [HotelService.verifyRecommendedHotels] *)
Fixpoint verify_loop
    (location : string) (checkIn checkOut : JsDate)
    (results : Verification.t) (hotels : list Recommended.t)
  : M E Verification.t :=
  match hotels with
  | [] => ret results
  | recommendedHotel :: rest =>
      results' <- verify_one location checkIn checkOut results recommendedHotel ;;
      verify_loop location checkIn checkOut results' rest
  end.

Definition verifyRecommendedHotels
    (hotels : list Recommended.t) (location : string) (checkIn checkOut : JsDate)
  : M E Verification.t :=
  verify_loop location checkIn checkOut (Verification.mk [] [] []) hotels.

End Service.

(** ** A scripted backend

    A test double for the collaborators: every call answers as the script
    says and leaves the script as it is. *)

Record Script := {
  script_now : Z;
  script_timezone : Z;
  script_api : Exc Response;
  script_directory : Exc (list Doc.t);
  script_upsert : Exc unit;
  script_cache_fault : CacheOp -> option string
}.

#[export] Instance Scripted : Backend Script := {
  clock := script_now;
  timezone := script_timezone;
  tss_post := fun _ x => (script_api x, x);
  hotel_find := fun _ x => (script_directory x, x);
  hotel_findOneAndUpdate := fun _ x => (script_upsert x, x);
  cache_fault := fun op x => (script_cache_fault x op, x)
}.

(** An inbound record with a name and a star rating only. *)
Definition raw_named (id name : string) (stars : option Q) : Raw.t :=
  {| Raw.id := Some id; Raw.hotelId := None;
     Raw.name := Some name; Raw.hotelName := None;
     Raw.address := None; Raw.city := None; Raw.country := None;
     Raw.latitude := None; Raw.longitude := None;
     Raw.starRating := stars; Raw.category := None;
     Raw.reviewScore := None; Raw.rating := None;
     Raw.reviewCount := None; Raw.numberOfReviews := None;
     Raw.price := None; Raw.totalPrice := None; Raw.pricePerNight := None;
     Raw.amenities := None; Raw.facilities := None;
     Raw.images := None; Raw.photos := None;
     Raw.description := None; Raw.hotelDescription := None;
     Raw.distance := None; Raw.availability := None;
     Raw.rooms := None; Raw.checkInTime := None; Raw.checkOutTime := None;
     Raw.cancellationPolicy := None; Raw.childPolicy := None;
     Raw.petPolicy := None; Raw.phone := None; Raw.email := None;
     Raw.website := None |}.

(** A directory document with a name, a city and a star rating only. *)
Definition doc_named (id name city : string) (stars : option Q) : Doc.t :=
  {| Doc._id := id; Doc.hotelId := id; Doc.name := name;
     Doc.description := None; Doc.address := ""; Doc.city := city;
     Doc.country := "FR"; Doc.starRating := stars; Doc.reviewScore := None;
     Doc.reviewCount := Some 0; Doc.priceRange := PriceRange.mk None None;
     Doc.amenities := []; Doc.images := [];
     Doc.verificationHistory := []; Doc.popularityScore := 0;
     Doc.status := HotelActive; Doc.isFeatured := false |}.

(** 2025-06-01, 2025-06-03 and 2025-05-20 at midnight UTC. *)
Definition june_1 : Z := 1748736000000.
Definition june_3 : Z := 1748908800000.
Definition may_20 : Z := 1747699200000.

(** ** Vocabulary of the properties and example data *)

(** A world with an empty cache and a script. *)
Definition scripted_world
    (api : Exc Response) (directory : Exc (list Doc.t)) (upsert : Exc unit)
    (fault : CacheOp -> option string) : World Script :=
  {| cache := [];
     ext := {| script_now := may_20;
               script_timezone := 0;
               script_api := api;
               script_directory := directory;
               script_upsert := upsert;
               script_cache_fault := fault |} |}.

Definition no_fault : CacheOp -> option string := fun _ => None.

Definition write_fault : CacheOp -> option string :=
  fun op =>
    match op with
    | FindOneAndUpdate => Some "connection closed"
    | _ => None
    end.

Definition api_timeout : Exc Response := Throw "timeout of 30000ms exceeded".

Definition api_answer (rawHotels : list Raw.t) : Exc Response :=
  Ok {| data := Some (ApiData.mk (Some rawHotels) None) |}.

(** A world with an empty cache in which the inventory service answers
    with [rawHotels], the directory with [docs], and nothing fails. *)
Definition healthy_world (rawHotels : list Raw.t) (docs : list Doc.t) : World Script :=
  scripted_world (api_answer rawHotels) (Ok docs) (Ok tt) no_fault.

(** The search of the examples: Paris, 2025-06-01 to 2025-06-03. *)
Definition paris_params : Params.t :=
  Params.mk "Paris" (Some june_1) (Some june_3) (Some 1) (Some 1) None.

(** An entry for [paris_params] whose flags say valid and whose expiry
    was [expires]. *)
Definition paris_entry (expires : Z) : CacheEntry :=
  {| docId := 1;
     searchKey := "paris_2025-06-01_2025-06-03_r1_g1";
     searchParams := paris_params;
     results := {| hotels := []; totalResults := 0; searchTimestamp := may_20 |};
     cacheMetadata :=
       {| source := TssApi; responseTime := 0; apiVersion := "1.0";
          hitCount := 1; lastAccessed := may_20 |};
     expiresAt := expires;
     isExpired := false;
     status := CacheActive;
     createdAt := may_20;
     updatedAt := may_20 |}.

(** Two locations that differ only in the case of their letters and in
    what each run of whitespace is made of: character by character they
    agree up to case, and where one has a run of whitespace the other has
    one too. *)
Inductive same_location : string -> string -> Prop :=
| same_end : same_location "" ""
| same_char a b s t :
    is_space a = false -> is_space b = false ->
    lower_char a = lower_char b ->
    same_location s t ->
    same_location (String a s) (String b t)
| same_run a b s t :
    is_space a = true -> is_space b = true ->
    same_location (skip_spaces s) (skip_spaces t) ->
    same_location (String a s) (String b t).

(** Two dates of the same UTC calendar day. *)
Definition same_day (d1 d2 : JsDate) : Prop :=
  match d1, d2 with
  | Some t1, Some t2 => (t1 / msPerDay = t2 / msPerDay)%Z
  | None, None => True
  | _, _ => False
  end.

(** The filters the signature reads. *)
Definition key_filters (f : option Filters.t)
  : option Z * option Z * option string :=
  match f with
  | Some f => (Filters.minRating f, Filters.maxPrice f, Filters.hotelChain f)
  | None => (None, None, None)
  end.

(** A string without its whitespace. *)
Fixpoint remove_spaces (s : string) : string :=
  match s with
  | EmptyString => EmptyString
  | String c s' => if is_space c then remove_spaces s' else String c (remove_spaces s')
  end.

(** 2020-01-01 and 2020-01-03 at midnight UTC. *)
Definition jan_1_2020 : Z := 1577836800000.
Definition jan_3_2020 : Z := 1578009600000.

Definition past_params : Params.t :=
  Params.mk "Paris" (Some jan_1_2020) (Some jan_3_2020) (Some 1) (Some 1) None.

Definition no_results (now : Z) : CacheResults :=
  {| hotels := []; totalResults := 0; searchTimestamp := now |}.

Local Open Scope Q_scope.

(** The value of an optional number in a sum: nothing is added for a
    missing one. *)
Definition value_or_zero (v : option Q) : Q :=
  match v with
  | Some x => x
  | None => 0
  end.

Definition count_or_zero (v : option Z) : Q :=
  match v with
  | Some c => inject_Z c
  | None => 0
  end.

(** The verification success rate of a hotel: the share of verified
    records, 0 for a hotel that was never verified. *)
Definition verificationSuccessRate (this : Doc.t) : Q :=
  match Doc.verificationHistory this with
  | [] => 0
  | _ :: _ => success_rate (Doc.verificationHistory this)
  end.

(** The value of the formula of the specification, before it is rounded
    and clamped. *)
Definition popularity_value
    (starRating reviewScore reviewCount rate : Q) (featured : bool) : Q :=
  25 * starRating / 5 + 30 * reviewScore / 10
  + Qmin 20 (20 * reviewCount / 1000)
  + 15 * rate
  + (if featured then 10 else 0).

(** The formula of the specification, rounded and clamped to 100. *)
Definition popularity_formula
    (starRating reviewScore reviewCount rate : Q) (featured : bool) : Z :=
  Z.min 100
    (Math_round (popularity_value starRating reviewScore reviewCount rate featured)).

(** [rate] is the share of verified records of [history]: the number of
    verified records over the number of records, 0 for no record. *)
Definition is_success_share (history : list VerificationRecord) (rate : Q) : Prop :=
  match history with
  | [] => rate == 0
  | _ :: _ =>
      rate * inject_Z (Z.of_nat (List.length history))
      == inject_Z (Z.of_nat (List.length (filter verified history)))
  end.

(** The ranges of the schema: a star rating in 1..5, a review score in
    0..10, a review count that is not negative. *)
Definition in_schema_ranges (this : Doc.t) : Prop :=
  (forall r, Doc.starRating this = Some r -> 1 <= r <= 5)
  /\ (forall r, Doc.reviewScore this = Some r -> 0 <= r <= 10)
  /\ (forall c, Doc.reviewCount this = Some c -> (0 <= c)%Z).

(** One step of the accumulation of the score: the term of an input is
    added when the input is truthy. *)
Definition add_when {A} `{Truthy A} (v : option A) (term : A -> Q) (score : Q) : Q :=
  match v with
  | Some x => if truthy x then fadd score (term x) else score
  | None => score
  end.

Definition star_term (starRating : Q) : Q := fmul (fdiv starRating 5) 25.

Definition review_term (reviewScore : Q) : Q := fmul (fdiv reviewScore 10) 30.

Definition count_term (reviewCount : Z) : Q :=
  Qmin (fmul (fdiv (inject_Z reviewCount) 1000) 20) 20.

Definition rate_term (history : list VerificationRecord) : Q :=
  fmul (fdiv (inject_Z (Z.of_nat (List.length (filter verified history))))
          (inject_Z (Z.of_nat (List.length history)))) 15.

(** The score before it is clamped and rounded. *)
Definition accumulated_score (this : Doc.t) : Q :=
  let s1 := add_when (Doc.starRating this) star_term 0 in
  let s2 := add_when (Doc.reviewScore this) review_term s1 in
  let s3 := add_when (Doc.reviewCount this) count_term s2 in
  let s4 :=
    if (0 <? List.length (Doc.verificationHistory this))%nat
    then fadd s3 (rate_term (Doc.verificationHistory this))
    else s3 in
  if Doc.isFeatured this then fadd s4 10 else s4.

(** The unit of the error bounds: [2^-47], the spacing of the doubles
    below 128 halved. *)
Definition half_ulp : Q := pow2 (-47).

(** A directory document with the inputs of the score only. *)
Definition scored_doc (stars review : Q) (count : Z)
    (history : list bool) (featured : bool) : Doc.t :=
  {| Doc._id := "h"; Doc.hotelId := "h"; Doc.name := "Hotel";
     Doc.description := None; Doc.address := ""; Doc.city := "Paris";
     Doc.country := "FR"; Doc.starRating := Some stars;
     Doc.reviewScore := Some review; Doc.reviewCount := Some count;
     Doc.priceRange := PriceRange.mk None None;
     Doc.amenities := []; Doc.images := [];
     Doc.verificationHistory :=
       map (fun v => {| originalQuery := "Hotel"; confidence := 1;
                        verified := v; verificationMethod := ExactMatch |})
         history;
     Doc.popularityScore := 0;
     Doc.status := HotelActive; Doc.isFeatured := featured |}.

(** The first present value of a pair, as the specification words it. *)
Definition first_present {A} (a b : option A) : option A :=
  match a with
  | Some _ => a
  | None => b
  end.

(** How the code coalesces a pair [a], [b] into [r]: a truthy [a] wins,
    otherwise [b] is taken as it is; this is the first present value
    unless [a] is present and falsy (0 or the empty string). *)
Definition coalesced {A} `{Truthy A} (a b r : option A) : Prop :=
  (is_truthy a = true -> r = a)
  /\ (is_truthy a = false -> r = b)
  /\ (a = None \/ is_truthy a = true -> r = first_present a b).

(** An inbound record and its normal form. *)
Definition normalized (hotel : Raw.t) (f : Fmt.t) : Prop :=
  coalesced (Raw.id hotel) (Raw.hotelId hotel) (Fmt.id f)
  /\ coalesced (Raw.name hotel) (Raw.hotelName hotel) (Fmt.name f)
  /\ coalesced (Raw.starRating hotel) (Raw.category hotel) (Fmt.starRating f)
  /\ coalesced (Raw.reviewScore hotel) (Raw.rating hotel) (Fmt.reviewScore f)
  /\ coalesced (Raw.reviewCount hotel) (Raw.numberOfReviews hotel) (Fmt.reviewCount f)
  /\ coalesced (opt_chain (Raw.price hotel) RawPrice.total) (Raw.totalPrice hotel)
       (amount (Fmt.price f))
  /\ coalesced (opt_chain (Raw.price hotel) RawPrice.perNight) (Raw.pricePerNight hotel)
       (perNight (Fmt.price f))
  /\ coalesced (Raw.description hotel) (Raw.hotelDescription hotel) (Fmt.description f)
  /\ Fmt.amenities f
     = default_to (first_present (Raw.amenities hotel) (Raw.facilities hotel)) []
  /\ Fmt.images f
     = default_to (first_present (Raw.images hotel) (Raw.photos hotel)) [].

(** A record whose review count is 0 under the first name of the pair
    and 120 under the second. *)
Definition hotel_without_reviews : Raw.t :=
  {| Raw.id := Some "h1"; Raw.hotelId := None;
     Raw.name := Some "Hotel"; Raw.hotelName := None;
     Raw.address := None; Raw.city := None; Raw.country := None;
     Raw.latitude := None; Raw.longitude := None;
     Raw.starRating := Some 4; Raw.category := None;
     Raw.reviewScore := None; Raw.rating := None;
     Raw.reviewCount := Some 0%Z; Raw.numberOfReviews := Some 120%Z;
     Raw.price := None; Raw.totalPrice := None; Raw.pricePerNight := None;
     Raw.amenities := None; Raw.facilities := None;
     Raw.images := None; Raw.photos := None;
     Raw.description := None; Raw.hotelDescription := None;
     Raw.distance := None; Raw.availability := None;
     Raw.rooms := None; Raw.checkInTime := None; Raw.checkOutTime := None;
     Raw.cancellationPolicy := None; Raw.childPolicy := None;
     Raw.petPolicy := None; Raw.phone := None; Raw.email := None;
     Raw.website := None |}.

(** The message of the error of [searchHotels]. *)
Definition inventory_unavailable : string := "Failed to search hotels via TSS API".

Definition paris_search : Search.t :=
  Search.mk "Paris" (Some june_1) (Some june_3) None None.

Definition hotel_p : Doc.t := doc_named "p" "Hotel P" "Paris" (Some 3).

(** [t] occurs in [s]. *)
Definition contains (s t : string) : Prop :=
  exists l r, s = (l ++ t ++ r)%string.

(** The upper-case letters of Latin-1 (A-Z, and U+00C0-U+00DE without the
    multiplication sign) and, at the same positions, their lower-case
    forms. *)
Definition upper_case_letters : list ascii :=
  (list_ascii_of_string "ABCDEFGHIJKLMNOPQRSTUVWXYZ"
   ++ map ascii_of_nat (seq 192 23 ++ seq 216 7))%list.

Definition lower_case_letters : list ascii :=
  (list_ascii_of_string "abcdefghijklmnopqrstuvwxyz"
   ++ map ascii_of_nat (seq 224 23 ++ seq 248 7))%list.

(** [l] is the lower case of the character [c]: the letter paired with
    [c] when [c] is an upper-case letter, [c] itself otherwise. *)
Definition lower_case_of_char (c l : ascii) : Prop :=
  In (c, l) (combine upper_case_letters lower_case_letters)
  \/ (~ In c upper_case_letters /\ l = c).

(** [l] is the lower case of the string [s], character by character. *)
Inductive lower_case_of : string -> string -> Prop :=
| lower_case_end : lower_case_of "" ""
| lower_case_char c l s t :
    lower_case_of_char c l ->
    lower_case_of s t ->
    lower_case_of (String c s) (String l t).

(** Two strings that are equal case apart: they have the same lower
    case. *)
Definition equal_ignoring_case (s t : string) : Prop :=
  exists l, lower_case_of s l /\ lower_case_of t l.

(** A result whose name is the wanted one, case apart. *)
Definition exact_match (hotelName : string) (hotel : ResultHotel) : Prop :=
  exists n, hotel_name hotel = Some n
            /\ equal_ignoring_case n hotelName.

(** A result whose lower-cased name contains the lower-cased wanted one,
    or is contained in it. *)
Definition partial_match (hotelName : string) (hotel : ResultHotel) : Prop :=
  exists n lowerName lowerWanted,
    hotel_name hotel = Some n
    /\ lower_case_of n lowerName
    /\ lower_case_of hotelName lowerWanted
    /\ (contains lowerName lowerWanted \/ contains lowerWanted lowerName).

(** Every character. *)
Definition all_chars : list ascii := map ascii_of_nat (seq 0 256).

(** A record of the inventory service without a name. *)
Definition raw_nameless (id : string) : Raw.t :=
  {| Raw.id := Some id; Raw.hotelId := None;
     Raw.name := None; Raw.hotelName := None;
     Raw.address := None; Raw.city := None; Raw.country := None;
     Raw.latitude := None; Raw.longitude := None;
     Raw.starRating := None; Raw.category := None;
     Raw.reviewScore := None; Raw.rating := None;
     Raw.reviewCount := None; Raw.numberOfReviews := None;
     Raw.price := None; Raw.totalPrice := None; Raw.pricePerNight := None;
     Raw.amenities := None; Raw.facilities := None;
     Raw.images := None; Raw.photos := None;
     Raw.description := None; Raw.hotelDescription := None;
     Raw.distance := None; Raw.availability := None;
     Raw.rooms := None; Raw.checkInTime := None; Raw.checkOutTime := None;
     Raw.cancellationPolicy := None; Raw.childPolicy := None;
     Raw.petPolicy := None; Raw.phone := None; Raw.email := None;
     Raw.website := None |}.

(** [find] with a callback on the lower-cased name of a hotel, when every
    hotel has a name. *)
Definition on_name (f : string -> bool) (hotel : ResultHotel) : bool :=
  match hotel_name hotel with
  | Some n => f (toLowerCase n)
  | None => false
  end.

(** The hotel the inventory service lists as "The Grand Hotel Paris". *)
Definition the_grand_hotel : Raw.t :=
  raw_named "g" "The Grand Hotel Paris" (Some 5%Q).

Local Close Scope Q_scope.

(** ** The rest of the cache model *)

(** [hotelSearchCacheSchema.methods.needsRefresh]; the threshold defaults
    to one hour. *)
Definition needsRefresh
    (now : Z) (refreshThresholdHours : option Z) (this : CacheEntry) : bool :=
  let refreshTime := now - default_to refreshThresholdHours 1 * msPerHour in
  (lastAccessed (cacheMetadata this) <? refreshTime)
  || (updatedAt this <? refreshTime).

(** A row of the first [$group] of [getCacheStats]. *)
Module StatusStats.
Record t := mk {
  _id : CacheStatus;
  count : Z;
  avgHitCount : Q;
  totalHits : Z
}.
End StatusStats.

(** The document of the second [$group] of [getCacheStats]. *)
Module CacheStats.
Record t := mk {
  totalEntries : Z;
  statusBreakdown : list StatusStats.t;
  overallHits : Z
}.
End CacheStats.

(** [{ $sum: ... }] *)
Definition sum_Z (l : list Z) : Z := fold_right Z.add 0 l.

Definition hit_counts (docs : list CacheEntry) : list Z :=
  map (fun e => hitCount (cacheMetadata e)) docs.

(** The group of one status in [{ $group: { _id: '$status', ... } }]; a
    status no document has gives no group.  The average is a double. *)
Definition status_group (docs : list CacheEntry) (s : CacheStatus)
  : list StatusStats.t :=
  match filter (fun e => CacheStatus_eqb (status e) s) docs with
  | [] => []
  | g =>
      [ StatusStats.mk s
          (Z.of_nat (List.length g))
          (fdiv (inject_Z (sum_Z (hit_counts g)))
             (inject_Z (Z.of_nat (List.length g))))
          (sum_Z (hit_counts g)) ]
  end.

(** The groups by status.  MongoDB does not fix their order; here they
    come in the order of the enumeration. *)
Definition group_by_status (docs : list CacheEntry) : list StatusStats.t :=
  flat_map (status_group docs) [CacheActive; CacheExpired; CacheInvalid].

(** [hotelSearchCacheSchema.statics.getCacheStats]: the result of the
    aggregation, one document, or none for an empty collection. *)
Definition getCacheStats (docs : list CacheEntry) : list CacheStats.t :=
  match group_by_status docs with
  | [] => []
  | groups =>
      [ CacheStats.mk
          (sum_Z (map StatusStats.count groups))
          groups
          (sum_Z (map StatusStats.totalHits groups)) ]
  end.

(** The signatures of a collection, document by document. *)
Definition signatures (docs : list CacheEntry) : list string :=
  map searchKey docs.

(** The documents of one status. *)
Definition with_status (s : CacheStatus) (docs : list CacheEntry) : list CacheEntry :=
  filter (fun e => CacheStatus_eqb (status e) s) docs.

(** ** The rest of the directory model *)

(** [xs.slice(-n)]: the last [n] elements. *)
Definition last_n {A} (n : nat) (xs : list A) : list A :=
  skipn (List.length xs - n) xs.

(** A document with another verification history. *)
Definition with_history (this : Doc.t) (history : list VerificationRecord) : Doc.t :=
  {| Doc._id := Doc._id this;
     Doc.hotelId := Doc.hotelId this;
     Doc.name := Doc.name this;
     Doc.description := Doc.description this;
     Doc.address := Doc.address this;
     Doc.city := Doc.city this;
     Doc.country := Doc.country this;
     Doc.starRating := Doc.starRating this;
     Doc.reviewScore := Doc.reviewScore this;
     Doc.reviewCount := Doc.reviewCount this;
     Doc.priceRange := Doc.priceRange this;
     Doc.amenities := Doc.amenities this;
     Doc.images := Doc.images this;
     Doc.verificationHistory := history;
     Doc.popularityScore := Doc.popularityScore this;
     Doc.status := Doc.status this;
     Doc.isFeatured := Doc.isFeatured this |}.

(** [hotelSchema.methods.addVerificationRecord]: the record is pushed and
    the last 50 records are kept; the method defaults to ['fuzzy_match'].
    The date of a record is not part of [VerificationRecord]. *)
Definition addVerificationRecord
    (this : Doc.t) (query : string) (score : Q) (ok : bool)
    (method : option VerificationMethod) : Doc.t :=
  let history :=
    (Doc.verificationHistory this
     ++ [ {| originalQuery := query;
             confidence := score;
             verified := ok;
             verificationMethod := default_to method FuzzyMatch |} ])%list in
  with_history this
    (if (50 <? List.length history)%nat then last_n 50 history else history).

(** The [averagePrice] virtual: the middle of the price range when both
    ends are truthy, [null] otherwise. *)
Definition averagePrice (this : Doc.t) : option Q :=
  match PriceRange.min (Doc.priceRange this), PriceRange.max (Doc.priceRange this) with
  | Some lo, Some hi =>
      if truthy lo && truthy hi then Some ((lo + hi) / 2)%Q else None
  | _, _ => None
  end.

(** The number of verified records of a history. *)
Definition verified_count (history : list VerificationRecord) : nat :=
  List.length (filter verified history).

(** [a] is rated at least as high as [b]; a missing rating is the least. *)
Definition rated_at_least (a b : Doc.t) : Prop :=
  compare_opt (Doc.starRating b) (Doc.starRating a) <> Gt.

(** [b] scores at most what [a] scores in the ranking of
    [getAlternativeHotels]. *)
Definition scores_at_least (a b : ResultHotel) : Prop :=
  (alternative_score b <= alternative_score a)%Q.

(** ** Vocabulary of the further properties of the service *)

(** The state of the outside world after the upserts of
    [updateOrCreateHotels], issued in the order of the list whether or
    not one fails. *)
Definition upserts {E} `{Backend E} (formattedHotels : list Fmt.t) (x : E) : E :=
  fold_left
    (fun x formattedHotel =>
       snd (hotel_findOneAndUpdate (hotelData_of formattedHotel (clock x)) x))
    formattedHotels x.

(** The hotels [verifyRecommendedHotels] has reported on so far. *)
Definition reported (results : Verification.t) : list Recommended.t :=
  (map v_original (Verification.verified results)
   ++ map a_original (Verification.alternatives results)
   ++ map u_original (Verification.unavailable results))%list.

(** A hotel of a search result that comes from the cache or from the
    inventory service. *)
Definition is_listed (h : ResultHotel) : Prop :=
  match h with
  | Listed _ => True
  | Detailed _ => False
  end.

(** A hotel of a search result that comes from the directory. *)
Definition is_detailed (h : ResultHotel) : Prop :=
  match h with
  | Listed _ => False
  | Detailed _ => True
  end.

(** A string of whitespace. *)
Definition all_spaces (s : string) : Prop :=
  Forall (fun c => is_space c = true) (list_ascii_of_string s).

(** [t] is [s] without the whitespace at its two ends. *)
Definition trimmed_of (s t : string) : Prop :=
  (exists l r, s = (l ++ t ++ r)%string /\ all_spaces l /\ all_spaces r)
  /\ (forall c rest, t = String c rest -> is_space c = false)
  /\ (forall init c, t = (init ++ String c "")%string -> is_space c = false).

(** [stored] is the form the cache schema gives the hotel [given]: the
    paths of the schema are kept, there is no description, and the [id]
    is the subdocument's own, whatever the hotel's was. *)
Definition stored_form (given stored : Fmt.t) : Prop :=
  Fmt.name stored = Fmt.name given
  /\ Fmt.location stored = Fmt.location given
  /\ Fmt.starRating stored = Fmt.starRating given
  /\ Fmt.reviewScore stored = Fmt.reviewScore given
  /\ Fmt.reviewCount stored = Fmt.reviewCount given
  /\ Fmt.price stored = Fmt.price given
  /\ Fmt.amenities stored = Fmt.amenities given
  /\ Fmt.images stored = Fmt.images given
  /\ Fmt.distance stored = Fmt.distance given
  /\ Fmt.availability stored = Fmt.availability given
  /\ Fmt.description stored = None
  /\ Fmt.id stored <> None.

(** A hotel of a search result and the hotel a cache hit returns for it. *)
Definition cached_form (given cached : ResultHotel) : Prop :=
  match given, cached with
  | Listed f, Listed f' => stored_form f f'
  | _, _ => False
  end.

(** The invariant of the cache collection: no two documents share an
    identifier or a signature. *)
Definition one_entry_per_signature (docs : list CacheEntry) : Prop :=
  NoDup (map docId docs) /\ NoDup (signatures docs).

(** The price [getAlternativeHotels] compares with the price range: 0 for
    a hotel without a price. *)
Definition price_or_zero (hotel : ResultHotel) : Q :=
  js_or_default (hotel_priceAmount hotel) 0%Q.

(** A directory document with a price range only. *)
Definition priced_doc (lo hi : Q) : Doc.t :=
  {| Doc._id := "h"; Doc.hotelId := "h"; Doc.name := "Hotel";
     Doc.description := None; Doc.address := ""; Doc.city := "Paris";
     Doc.country := "FR"; Doc.starRating := None;
     Doc.reviewScore := None; Doc.reviewCount := None;
     Doc.priceRange := PriceRange.mk (Some lo) (Some hi);
     Doc.amenities := []; Doc.images := [];
     Doc.verificationHistory := [];
     Doc.popularityScore := 0;
     Doc.status := HotelActive; Doc.isFeatured := false |}.

(** What the three lists of [verifyRecommendedHotels] hold: a verified
    item has a hotel and a confidence of 1 or 0.8, an item with
    alternatives has one to three of them, an unavailable item is
    unavailable or in error. *)
Definition well_reported (results : Verification.t) : Prop :=
  Forall (fun v =>
            v_status v = "verified"%string
            /\ v_verified v <> None
            /\ (v_confidence v = 1%Q \/ v_confidence v = (8 # 10)%Q))
    (Verification.verified results)
  /\ Forall (fun a =>
               a_status a = "alternatives_found"%string
               /\ (1 <= List.length (a_alternatives a) <= 3)%nat)
       (Verification.alternatives results)
  /\ Forall (fun u =>
               u_status u = "unavailable"%string \/ u_status u = "error"%string)
       (Verification.unavailable results).

(** The search [searchHotelByName] and [getAlternativeHotels] make. *)
Definition plain_search (location : string) (checkIn checkOut : JsDate) : Search.t :=
  Search.mk location checkIn checkOut None None.

(** What a hotel formatted from a directory document looks like: no
    address, city, country or contact, the default check-in and check-out
    times, and no price. *)
Definition bare_details (h : ResultHotel) : Prop :=
  match h with
  | Listed _ => False
  | Detailed d =>
      address (Det.location d) = None
      /\ city (Det.location d) = None
      /\ country (Det.location d) = None
      /\ checkIn (Det.policies d) = "15:00"%string
      /\ checkOut (Det.policies d) = "11:00"%string
      /\ phone (Det.contact d) = None
      /\ email (Det.contact d) = None
  end.

(** * Properties *)

(** ** The cache lookup *)

Lemma CacheStatus_eqb_eq a b : CacheStatus_eqb a b = true <-> a = b.
Proof. destruct a, b; simpl; split; congruence. Qed.

Lemma valid_for_spec key now e :
  valid_for key now e = true <->
  searchKey e = key /\ status e = CacheActive /\ isExpired e = false
  /\ (now < expiresAt e)%Z.
Proof.
  unfold valid_for.
  rewrite !andb_true_iff, String.eqb_eq, CacheStatus_eqb_eq,
    negb_true_iff, Z.ltb_lt.
  tauto.
Qed.

(** C4. For every cache collection and every signature, [findValidCache]
    returns a result; an entry it returns is a document of the collection
    with that signature whose status is active, whose [isExpired] flag is
    false and whose [expiresAt] is strictly after the current time; and it
    returns none exactly when no document with the signature meets the
    three conditions.  So an entry whose [expiresAt] has passed is never
    returned, whatever its flags say. *)
Theorem findValidCache_returns_only_valid :
  forall (docs : list CacheEntry) (searchParams : Params.t) (now : Z) (key : string),
    generateSearchKey searchParams = Ok key ->
    (exists r, findValidCache docs searchParams now = Ok r)
    /\ (forall e, findValidCache docs searchParams now = Ok (Some e) ->
          In e docs /\ searchKey e = key /\ status e = CacheActive
          /\ isExpired e = false /\ (now < expiresAt e)%Z)
    /\ (findValidCache docs searchParams now = Ok None <->
        forall e, In e docs -> searchKey e = key ->
          ~ (status e = CacheActive /\ isExpired e = false
             /\ (now < expiresAt e)%Z)).
Proof.
  intros docs searchParams now key Hkey.
  unfold findValidCache. rewrite Hkey. simpl.
  split; [eexists; reflexivity|]. split.
  - intros e He. injection He as He.
    apply find_some in He. destruct He as [Hin Hv].
    apply valid_for_spec in Hv. tauto.
  - split.
    + intros Hnone e Hin Hk Hvalid. injection Hnone as Hnone.
      pose proof (find_none _ _ Hnone e Hin) as Hf.
      assert (valid_for key now e = true) by (apply valid_for_spec; tauto).
      congruence.
    + intros Hall. f_equal.
      destruct (find (valid_for key now) docs) as [e|] eqn:Hf; [|reflexivity].
      apply find_some in Hf. destruct Hf as [Hin Hv].
      apply valid_for_spec in Hv. exfalso.
      apply (Hall e Hin); tauto.
Qed.

Lemma findValidCache_returns_only_valid_witness :
  generateSearchKey paris_params = Ok "paris_2025-06-01_2025-06-03_r1_g1"
  /\ findValidCache [paris_entry (may_20 - 1)] paris_params may_20 = Ok None.
Proof.
  split; [vm_compute; reflexivity|].
  destruct (findValidCache_returns_only_valid
              [paris_entry (may_20 - 1)] paris_params may_20
              (key := "paris_2025-06-01_2025-06-03_r1_g1"))
    as [_ [_ Hnone]]; [vm_compute; reflexivity|].
  apply Hnone. intros e [He|[]] _ [_ [_ Hlt]].
  subst e. vm_compute in Hlt. discriminate.
Defined.

(** ** The cache signature *)

Lemma is_space_lower c : is_space (lower_char c) = is_space c.
Proof.
  destruct c as [[] [] [] [] [] [] [] []]; vm_compute; reflexivity.
Qed.

Lemma replace_spaces_in_run s :
  replace_spaces_from true (toLowerCase s)
  = replace_spaces_from false (toLowerCase (skip_spaces s)).
Proof.
  induction s as [|c s IH]; simpl; [reflexivity|].
  rewrite is_space_lower.
  destruct (is_space c) eqn:Hc; [exact IH|].
  simpl. rewrite is_space_lower, Hc. reflexivity.
Qed.

Lemma same_location_normalized s t :
  same_location s t ->
  replace_spaces (toLowerCase s) = replace_spaces (toLowerCase t).
Proof.
  unfold replace_spaces.
  induction 1 as [|a b s t Ha Hb Hab _ IH|a b s t Ha Hb _ IH]; simpl.
  - reflexivity.
  - rewrite !is_space_lower, Ha, Hb, Hab, IH. reflexivity.
  - rewrite !is_space_lower, Ha, Hb, !replace_spaces_in_run, IH. reflexivity.
Qed.

Lemma same_day_iso d1 d2 : same_day d1 d2 -> iso_date d1 = iso_date d2.
Proof.
  destruct d1 as [t1|], d2 as [t2|]; simpl; try tauto.
  intros ->. reflexivity.
Qed.

(** C5, as stated, fails: a location with a space after it differs from
    the bare one in whitespace only, and the two signatures differ. *)
Lemma generateSearchKey_trailing_space_counterexample :
  let p1 := Params.mk "Paris" (Some june_1) (Some june_3) (Some 1) (Some 1) None in
  let p2 := Params.mk "Paris " (Some june_1) (Some june_3) (Some 1) (Some 1) None in
  remove_spaces (toLowerCase (Params.location p1))
  = remove_spaces (toLowerCase (Params.location p2))
  /\ generateSearchKey p1 = Ok "paris_2025-06-01_2025-06-03_r1_g1"
  /\ generateSearchKey p2 = Ok "paris-_2025-06-01_2025-06-03_r1_g1"
  /\ generateSearchKey p1 <> generateSearchKey p2.
Proof.
  vm_compute. repeat split; discriminate.
Qed.

(** C5, amended.  The signature depends on the location, the UTC day of
    check-in and of check-out, the room and guest counts and the
    [minRating], [maxPrice] and [hotelChain] filters only: two searches
    whose locations differ only in letter case and in the make-up of each
    whitespace run, whose dates fall on the same UTC days and which agree
    on the counts and on the three filters have the same signature (or
    both fail on an invalid date).  Whitespace that is added where there
    was none, also before or after the location, changes the signature. *)
Theorem generateSearchKey_normalizes :
  forall p1 p2 : Params.t,
    same_location (Params.location p1) (Params.location p2) ->
    same_day (Params.checkIn p1) (Params.checkIn p2) ->
    same_day (Params.checkOut p1) (Params.checkOut p2) ->
    Params.rooms p1 = Params.rooms p2 ->
    Params.guests p1 = Params.guests p2 ->
    key_filters (Params.additionalFilters p1)
    = key_filters (Params.additionalFilters p2) ->
    generateSearchKey p1 = generateSearchKey p2.
Proof.
  intros [l1 i1 o1 r1 g1 f1] [l2 i2 o2 r2 g2 f2]; simpl.
  intros Hl Hi Ho -> -> Hf.
  unfold generateSearchKey; simpl.
  rewrite (same_location_normalized Hl), (same_day_iso _ _ Hi),
    (same_day_iso _ _ Ho).
  destruct (iso_date i2) as [ci|m]; simpl; [|reflexivity].
  destruct (iso_date o2) as [co|m]; simpl; [|reflexivity].
  destruct f1 as [[a1 b1 c1 d1]|], f2 as [[a2 b2 c2 d2]|]; simpl in Hf;
    inversion Hf; subst; simpl; rewrite ?app_nil_r; reflexivity.
Qed.

Lemma generateSearchKey_normalizes_witness :
  generateSearchKey
    (Params.mk "New   York" (Some june_1) (Some june_3) (Some 1) (Some 2)
       (Some (Filters.mk None None ["pool"] None)))
  = generateSearchKey
      (Params.mk "new yORK" (Some (june_1 + 5000)) (Some (june_3 + 86399999))
         (Some 1) (Some 2) None).
Proof.
  apply generateSearchKey_normalizes; simpl;
    try reflexivity.
  repeat first
    [ apply same_end
    | apply same_char; [reflexivity | reflexivity | reflexivity |]
    | apply same_run; [reflexivity | reflexivity | simpl] ].
Defined.

(** ** Storing a search whose check-out date has passed *)

(** The stored entry never leaves [createOrUpdateCache] expired: the
    update sets the flags to valid and no hook runs. *)
Lemma createOrUpdateCache_stores_active docs searchParams res ttlHours now e docs' :
  createOrUpdateCache docs searchParams res ttlHours now = Ok (e, docs') ->
  status e = CacheActive /\ isExpired e = false
  /\ expiresAt e = (now + ttlHours * msPerHour)%Z.
Proof.
  unfold createOrUpdateCache.
  destruct (generateSearchKey searchParams) as [key|m]; simpl; [|discriminate].
  destruct (find _ docs); intros Heq; injection Heq as <- _; simpl; auto.
Qed.

(** C2 on the code.  On 2025-06-01 a search with check-out 2020-01-03 is
    stored with a two-hour TTL.  The check-out date is before the start of
    the current day, yet the stored entry is active and not expired, and
    the lookup with the same parameters returns it.  The hook that expires
    such entries runs on [save] only: the entry expires when the hit is
    recorded, after the lookup has served it. *)
Theorem createOrUpdateCache_past_checkout_stays_valid :
  (jan_3_2020 < start_of_local_day 0 june_1)%Z
  /\ exists e,
       createOrUpdateCache [] past_params (no_results june_1) 2 june_1
       = Ok (e, [e])
       /\ status e = CacheActive
       /\ isExpired e = false
       /\ findValidCache [e] past_params june_1 = Ok (Some e)
       /\ status (fst (recordHit 0 june_1 [e] e)) = CacheExpired
       /\ isExpired (fst (recordHit 0 june_1 [e] e)) = true.
Proof.
  split; [vm_compute; reflexivity|].
  eexists. split; [vm_compute; reflexivity|].
  vm_compute. repeat split; reflexivity.
Qed.

(** ** The popularity score *)

Local Open Scope Q_scope.

(** Linear arithmetic after the divisions by the constants of the score
    are turned into products. *)
Ltac q_linear :=
  unfold Qdiv in *;
  change (/ 5) with (1 # 5) in *;
  change (/ 10) with (1 # 10) in *;
  change (/ 1000) with (1 # 1000) in *;
  lra.

Lemma falsy_Q_zero (q : Q) : truthy q = false -> q == 0.
Proof.
  unfold truthy, Truthy_Q. rewrite negb_false_iff, Z.eqb_eq.
  destruct q as [n d]; simpl. intros ->. reflexivity.
Qed.

Lemma falsy_Z_zero (z : Z) : truthy z = false -> z = 0%Z.
Proof.
  unfold truthy, Truthy_Z. rewrite negb_false_iff, Z.eqb_eq. auto.
Qed.

(** *** Rounding to the nearest double *)

Unset Implicit Arguments.

Lemma pow2_pos e : 0 < pow2 e.
Proof. apply Qpower_0_lt. reflexivity. Qed.

Lemma pow2_le a b : (a <= b)%Z -> pow2 a <= pow2 b.
Proof. intros H. apply Qpower_le_compat_l; [exact H|]. discriminate. Qed.

Lemma pow2_lt a b : (a < b)%Z -> pow2 a < pow2 b.
Proof. intros H. apply Qpower_lt_compat_l; [exact H|]. reflexivity. Qed.

Lemma pow2_lt_inv a b : pow2 a < pow2 b -> (a < b)%Z.
Proof. intros H. apply (Qpower_lt_compat_l_inv 2); [exact H|reflexivity]. Qed.

Lemma pow2_plus a b : pow2 (a + b) == pow2 a * pow2 b.
Proof. apply Qpower_plus. discriminate. Qed.

Lemma pow2_Z n : (0 <= n)%Z -> pow2 n == inject_Z (2 ^ n).
Proof. intros H. unfold pow2. rewrite Zpower_Qpower by exact H. reflexivity. Qed.

Lemma pow2_multiple e k :
  (e <= k)%Z -> pow2 k == inject_Z (2 ^ (k - e)) * pow2 e.
Proof.
  intros H. rewrite <- pow2_Z by lia. rewrite <- pow2_plus.
  replace (k - e + e)%Z with k by lia. reflexivity.
Qed.

Lemma ilog2_spec x :
  ~ x == 0 -> pow2 (ilog2 x) <= Qabs x /\ Qabs x < pow2 (ilog2 x + 1).
Proof.
  intros Hx. unfold ilog2.
  set (n := Z.abs (Qnum x)). set (d := Z.pos (Qden x)).
  assert (Hn : (0 < n)%Z).
  { unfold n. destruct x as [[|p|p] q]; simpl; try lia.
    exfalso. apply Hx. reflexivity. }
  assert (Hd : (0 < d)%Z) by (unfold d; lia).
  destruct (Z.log2_spec n Hn) as [Hn1 Hn2].
  destruct (Z.log2_spec d Hd) as [Hd1 Hd2].
  pose proof (Z.log2_nonneg n) as Ha. pose proof (Z.log2_nonneg d) as Hb.
  set (a := Z.log2 n) in *. set (b := Z.log2 d) in *.
  assert (Habs : Qabs x == inject_Z n / inject_Z d).
  { unfold n, d. destruct x as [xn xd]. simpl. unfold Qabs.
    rewrite (Qmake_Qdiv (Z.abs xn) xd). reflexivity. }
  assert (Hdq : 0 < inject_Z d).
  { change 0 with (inject_Z 0). rewrite <- Zlt_Qlt. exact Hd. }
  assert (Hpa : 0 < pow2 a) by apply pow2_pos.
  assert (Hpb : 0 < pow2 b) by apply pow2_pos.
  assert (Hlow : pow2 (a - b - 1) <= Qabs x).
  { rewrite Habs. unfold pow2.
    replace (a - b - 1)%Z with (a - (b + 1))%Z by lia.
    rewrite Qpower_minus by discriminate.
    fold (pow2 a) (pow2 (b + 1)).
    rewrite (pow2_Z a), (pow2_Z (b + 1)) by lia.
    apply Qle_shift_div_l; [exact Hdq|].
    unfold Qdiv. rewrite <- Qmult_assoc, (Qmult_comm (/ _)), Qmult_assoc.
    apply Qle_shift_div_r.
    { change 0 with (inject_Z 0). rewrite <- Zlt_Qlt. lia. }
    rewrite <- !inject_Z_mult. rewrite <- Zle_Qle. nia. }
  assert (Hhigh : Qabs x < pow2 (a - b + 1)).
  { rewrite Habs. unfold pow2.
    replace (a - b + 1)%Z with (a + 1 - b)%Z by lia.
    rewrite Qpower_minus by discriminate.
    fold (pow2 (a + 1)) (pow2 b).
    rewrite (pow2_Z (a + 1)), (pow2_Z b) by lia.
    apply Qlt_shift_div_r; [exact Hdq|].
    unfold Qdiv. rewrite <- Qmult_assoc, (Qmult_comm (/ _)), Qmult_assoc.
    apply Qlt_shift_div_l.
    { change 0 with (inject_Z 0). rewrite <- Zlt_Qlt. lia. }
    rewrite <- !inject_Z_mult. rewrite <- Zlt_Qlt. nia. }
  destruct (Qle_bool (pow2 (a - b)) (Qabs x)) eqn:Hle.
  - apply Qle_bool_iff in Hle. split; [exact Hle|exact Hhigh].
  - split; [exact Hlow|].
    replace (a - b - 1 + 1)%Z with (a - b)%Z by lia.
    apply Qnot_le_lt. intros H. apply Qle_bool_iff in H. congruence.
Qed.

Lemma ilog2_unique x k :
  pow2 k <= Qabs x -> Qabs x < pow2 (k + 1) -> ilog2 x = k.
Proof.
  intros H1 H2.
  assert (Hx : ~ x == 0).
  { intros H. rewrite H in H1. pose proof (pow2_pos k). simpl in H1.
    change (Qabs 0) with 0 in H1. lra. }
  destruct (ilog2_spec x Hx) as [H3 H4].
  assert (pow2 k < pow2 (ilog2 x + 1)) by lra.
  assert (pow2 (ilog2 x) < pow2 (k + 1)) by lra.
  apply pow2_lt_inv in H, H0. lia.
Qed.

Lemma ilog2_le x y :
  ~ x == 0 -> Qabs x <= Qabs y -> (ilog2 x <= ilog2 y)%Z.
Proof.
  intros Hx Hle.
  assert (Hy : ~ y == 0).
  { intros H. rewrite H in Hle. change (Qabs 0) with 0 in Hle.
    pose proof (Qabs_nonneg x). apply Hx.
    revert Hle H0. apply Qabs_case; intros; lra. }
  destruct (ilog2_spec x Hx) as [H1 _].
  destruct (ilog2_spec y Hy) as [_ H2].
  assert (H : pow2 (ilog2 x) < pow2 (ilog2 y + 1)) by lra.
  apply pow2_lt_inv in H. lia.
Qed.

Lemma rne_cases x :
  (rne x = Qfloor x /\ x - inject_Z (Qfloor x) <= 1 # 2)
  \/ (rne x = (Qfloor x + 1)%Z /\ 1 # 2 <= x - inject_Z (Qfloor x)).
Proof.
  unfold rne.
  destruct (Qcompare (x - inject_Z (Qfloor x)) (1 # 2)) eqn:Hc.
  - apply Qeq_alt in Hc. destruct (Z.even (Qfloor x)); [left|right]; (split; [reflexivity|lra]).
  - apply Qlt_alt in Hc. left. split; [reflexivity|lra].
  - apply Qgt_alt in Hc. right. split; [reflexivity|lra].
Qed.

Lemma Qfloor_bounds x :
  inject_Z (Qfloor x) <= x /\ x < inject_Z (Qfloor x) + 1.
Proof.
  split; [apply Qfloor_le|].
  pose proof (Qlt_floor x) as H. rewrite inject_Z_plus in H. exact H.
Qed.

Lemma rne_error x : Qabs (inject_Z (rne x) - x) <= 1 # 2.
Proof.
  destruct (Qfloor_bounds x) as [H1 H2].
  destruct (rne_cases x) as [[-> H]|[-> H]]; apply Qabs_case; intros;
    rewrite ?inject_Z_plus; change (inject_Z 1) with 1; lra.
Qed.

Lemma rne_comp x y : x == y -> rne x = rne y.
Proof.
  intros H. unfold rne. rewrite (Qfloor_comp _ _ H).
  assert (Hc : Qcompare (x - inject_Z (Qfloor y)) (1 # 2)
               = Qcompare (y - inject_Z (Qfloor y)) (1 # 2)).
  { apply Qcompare_comp; [rewrite H; reflexivity|reflexivity]. }
  rewrite Hc. reflexivity.
Qed.

Lemma rne_Z n : rne (inject_Z n) = n.
Proof.
  unfold rne. rewrite Qfloor_Z.
  assert (Hc : Qcompare (inject_Z n - inject_Z n) (1 # 2) = Lt).
  { apply (proj1 (Qlt_alt _ _)). lra. }
  rewrite Hc. reflexivity.
Qed.

Lemma rne_mono x y : x <= y -> (rne x <= rne y)%Z.
Proof.
  intros Hle.
  pose proof (Qfloor_resp_le _ _ Hle) as Hf.
  destruct (Z.eq_dec (Qfloor x) (Qfloor y)) as [Heq|Hne].
  - unfold rne. rewrite Heq.
    destruct (Qcompare (x - inject_Z (Qfloor y)) (1 # 2)) eqn:Hx;
      [apply Qeq_alt in Hx|apply Qlt_alt in Hx|apply Qgt_alt in Hx];
      (destruct (Qcompare (y - inject_Z (Qfloor y)) (1 # 2)) eqn:Hy;
       [apply Qeq_alt in Hy|apply Qlt_alt in Hy|apply Qgt_alt in Hy]);
      try (destruct (Z.even (Qfloor y))); try lia; exfalso; lra.
  - destruct (rne_cases x) as [[-> _]|[-> _]];
      destruct (rne_cases y) as [[-> _]|[-> _]]; lia.
Qed.

Lemma rne_nonneg x : 0 <= x -> (0 <= rne x)%Z.
Proof.
  intros H. rewrite <- (rne_Z 0). apply rne_mono. exact H.
Qed.

Lemma pow2_neq e : ~ pow2 e == 0.
Proof. pose proof (pow2_pos e). lra. Qed.

Lemma div_pow2_le e x y : x <= y -> x / pow2 e <= y / pow2 e.
Proof.
  intros H. unfold Qdiv. apply Qmult_le_compat_r; [exact H|].
  apply Qinv_le_0_compat. apply Qlt_le_weak. apply pow2_pos.
Qed.

Lemma round_at_mono e x y : x <= y -> round_at e x <= round_at e y.
Proof.
  intros H. unfold round_at. apply Qmult_le_compat_r.
  - rewrite <- Zle_Qle. apply rne_mono. apply div_pow2_le. exact H.
  - apply Qlt_le_weak. apply pow2_pos.
Qed.

Lemma round_at_comp e x y : x == y -> round_at e x == round_at e y.
Proof.
  intros H. unfold round_at.
  rewrite (rne_comp (x / pow2 e) (y / pow2 e)); [reflexivity|].
  rewrite H. reflexivity.
Qed.

Lemma round_at_exact e m : round_at e (inject_Z m * pow2 e) == inject_Z m * pow2 e.
Proof.
  unfold round_at.
  rewrite (rne_comp (inject_Z m * pow2 e / pow2 e) (inject_Z m)).
  - rewrite rne_Z. reflexivity.
  - field. apply pow2_neq.
Qed.

Lemma round_at_pow2 e k : (e <= k)%Z -> round_at e (pow2 k) == pow2 k.
Proof.
  intros H. rewrite (round_at_comp e _ _ (pow2_multiple e k H)).
  rewrite round_at_exact. symmetry. apply pow2_multiple. exact H.
Qed.

Lemma round_at_nonneg e x : 0 <= x -> 0 <= round_at e x.
Proof.
  intros H. unfold round_at. apply Qmult_le_0_compat.
  - change 0 with (inject_Z 0). rewrite <- Zle_Qle. apply rne_nonneg.
    apply Qle_shift_div_l; [apply pow2_pos|]. lra.
  - apply Qlt_le_weak. apply pow2_pos.
Qed.

Lemma round_at_error e x : Qabs (round_at e x - x) <= pow2 (e - 1).
Proof.
  unfold round_at.
  assert (Hx : inject_Z (rne (x / pow2 e)) * pow2 e - x
               == (inject_Z (rne (x / pow2 e)) - x / pow2 e) * pow2 e).
  { field. apply pow2_neq. }
  rewrite Hx, Qabs_Qmult.
  rewrite (Qabs_pos (pow2 e)) by (apply Qlt_le_weak; apply pow2_pos).
  assert (Hp : pow2 (e - 1) == (1 # 2) * pow2 e).
  { replace (e - 1)%Z with (-1 + e)%Z by lia. rewrite pow2_plus. reflexivity. }
  rewrite Hp. apply Qmult_le_compat_r; [apply rne_error|].
  apply Qlt_le_weak. apply pow2_pos.
Qed.

Lemma double_pos_eq x : 0 < x -> double x = round_at (cexp x) x.
Proof.
  intros H. unfold double.
  assert (Hc : Qcompare x 0 = Gt) by (apply (proj1 (Qgt_alt _ _)); exact H).
  rewrite Hc. reflexivity.
Qed.

Lemma double_neg_eq x : x < 0 -> double x = - round_at (cexp (- x)) (- x).
Proof.
  intros H. unfold double.
  assert (Hc : Qcompare x 0 = Lt) by (apply (proj1 (Qlt_alt _ _)); exact H).
  rewrite Hc. reflexivity.
Qed.

Lemma double_zero_eq x : x == 0 -> double x = 0.
Proof.
  intros H. unfold double.
  assert (Hc : Qcompare x 0 = Eq) by (apply (proj1 (Qeq_alt _ _)); exact H).
  rewrite Hc. reflexivity.
Qed.

Lemma cexp_ge_emin x : (emin <= cexp x)%Z.
Proof. unfold cexp. lia. Qed.

Lemma round_pos_mono x y :
  0 < x -> x <= y -> round_at (cexp x) x <= round_at (cexp y) y.
Proof.
  intros Hx Hle.
  assert (Hnx : ~ x == 0) by lra.
  assert (Hny : ~ y == 0) by lra.
  assert (Hk : (ilog2 x <= ilog2 y)%Z).
  { apply ilog2_le; [exact Hnx|]. rewrite !Qabs_pos by lra. exact Hle. }
  destruct (ilog2_spec x Hnx) as [_ Hx2].
  destruct (ilog2_spec y Hny) as [Hy1 _].
  rewrite Qabs_pos in Hx2 by lra. rewrite Qabs_pos in Hy1 by lra.
  destruct (Z.eq_dec (cexp x) (cexp y)) as [Heq|Hne].
  - rewrite Heq. apply round_at_mono. exact Hle.
  - assert (Hlt : (cexp x < cexp y)%Z) by (unfold cexp in *; lia).
    set (b := Z.max (ilog2 x + 1) (cexp x)).
    assert (Hb : (b <= ilog2 y)%Z) by (unfold b, cexp in *; lia).
    apply Qle_trans with (pow2 b).
    + rewrite <- (round_at_pow2 (cexp x) b) by (unfold b; lia).
      apply round_at_mono.
      apply Qle_trans with (pow2 (ilog2 x + 1)); [lra|].
      apply pow2_le. unfold b. lia.
    + apply Qle_trans with (pow2 (ilog2 y)); [apply pow2_le; exact Hb|].
      rewrite <- (round_at_pow2 (cexp y) (ilog2 y)) by (unfold cexp in *; lia).
      apply round_at_mono. exact Hy1.
Qed.

Lemma double_nonneg x : 0 <= x -> 0 <= double x.
Proof.
  intros H. destruct (Qlt_le_dec 0 x) as [Hpos|Hle].
  - rewrite double_pos_eq by exact Hpos. apply round_at_nonneg. exact H.
  - rewrite double_zero_eq by lra. lra.
Qed.

Lemma double_nonpos x : x <= 0 -> double x <= 0.
Proof.
  intros H. destruct (Qlt_le_dec x 0) as [Hneg|Hle].
  - rewrite double_neg_eq by exact Hneg.
    pose proof (round_at_nonneg (cexp (- x)) (- x)). lra.
  - rewrite double_zero_eq by lra. lra.
Qed.

Lemma double_mono x y : x <= y -> double x <= double y.
Proof.
  intros Hle.
  destruct (Qlt_le_dec x 0) as [Hx|Hx].
  - destruct (Qlt_le_dec y 0) as [Hy|Hy].
    + rewrite (double_neg_eq x Hx), (double_neg_eq y Hy).
      assert (H : round_at (cexp (- y)) (- y) <= round_at (cexp (- x)) (- x))
        by (apply round_pos_mono; lra).
      lra.
    + apply Qle_trans with 0; [apply double_nonpos; lra|apply double_nonneg; exact Hy].
  - destruct (Qlt_le_dec 0 x) as [Hx'|Hx'].
    + rewrite (double_pos_eq x Hx'), (double_pos_eq y) by lra.
      apply round_pos_mono; assumption.
    + rewrite (double_zero_eq x) by lra. apply double_nonneg. lra.
Qed.

Lemma double_comp x y : x == y -> double x == double y.
Proof.
  intros H. apply Qle_antisym; apply double_mono; rewrite H; apply Qle_refl.
Qed.

Lemma ilog2_opp x : ~ x == 0 -> ilog2 (- x) = ilog2 x.
Proof.
  intros Hx. destruct (ilog2_spec x Hx) as [H1 H2].
  apply ilog2_unique; rewrite Qabs_opp; assumption.
Qed.

Lemma cexp_opp x : ~ x == 0 -> cexp (- x) = cexp x.
Proof. intros Hx. unfold cexp. rewrite ilog2_opp by exact Hx. reflexivity. Qed.

(** A number on the grid of its own exponent is a double. *)
Lemma double_fix x m e :
  x == inject_Z m * pow2 e -> (cexp x <= e)%Z -> double x == x.
Proof.
  intros Hx He.
  assert (Hgrid : forall y n, y == inject_Z n * pow2 e -> (cexp y <= e)%Z ->
                    round_at (cexp y) y == y).
  { intros y n Hy Hc.
    assert (Hy' : y == inject_Z (n * 2 ^ (e - cexp y)) * pow2 (cexp y)).
    { apply Qeq_trans with (inject_Z n * pow2 e); [exact Hy|].
      rewrite inject_Z_mult, (pow2_multiple (cexp y) e Hc). ring. }
    rewrite (round_at_comp _ _ _ Hy'), round_at_exact. symmetry. exact Hy'. }
  destruct (Qlt_le_dec 0 x) as [Hpos|Hle].
  - rewrite double_pos_eq by exact Hpos. exact (Hgrid x m Hx He).
  - destruct (Qlt_le_dec x 0) as [Hneg|Hge].
    + rewrite double_neg_eq by exact Hneg.
      assert (Hnx : ~ x == 0) by lra.
      rewrite (Hgrid (- x) (- m)%Z).
      * ring.
      * rewrite Hx, inject_Z_opp. ring.
      * rewrite cexp_opp by exact Hnx. exact He.
    + rewrite double_zero_eq by lra. lra.
Qed.

Lemma rne_le_pow2 x n : x <= inject_Z n -> (rne x <= n)%Z.
Proof. intros H. rewrite <- (rne_Z n). apply rne_mono. exact H. Qed.

Lemma round_pos_on_grid_at x e :
  0 < x -> e = cexp x ->
  exists m e', round_at e x == inject_Z m * pow2 e'
               /\ (cexp (round_at e x) <= e')%Z.
Proof.
  intros Hpos He0.
  assert (Hnx : ~ x == 0) by lra.
  destruct (ilog2_spec x Hnx) as [Hk1 Hk2].
  rewrite Qabs_pos in Hk1, Hk2 by lra.
  assert (He : (ilog2 x - 52 <= e)%Z) by (rewrite He0; unfold cexp; lia).
  assert (Hemin : (emin <= e)%Z) by (rewrite He0; apply cexp_ge_emin).
  remember (rne (x / pow2 e)) as m eqn:Hm.
  assert (Hm0 : (0 <= m)%Z).
  { rewrite Hm. apply rne_nonneg. apply Qle_shift_div_l; [apply pow2_pos|]. lra. }
  assert (Hm53 : (m <= 2 ^ 53)%Z).
  { rewrite Hm. apply rne_le_pow2. rewrite <- pow2_Z by lia.
    apply Qle_shift_div_r; [apply pow2_pos|].
    rewrite <- pow2_plus.
    apply Qle_trans with (pow2 (ilog2 x + 1)); [lra|]. apply pow2_le. lia. }
  assert (Hval : round_at e x == inject_Z m * pow2 e)
    by (unfold round_at; rewrite <- Hm; reflexivity).
  remember (round_at e x) as y eqn:Hy0.
  destruct (Z.eq_dec m 0) as [Hz|Hnz].
  - exists 0%Z, (cexp y). split; [|apply Z.le_refl].
    apply Qeq_trans with (inject_Z m * pow2 e); [exact Hval|]. rewrite Hz. ring.
  - destruct (Z.eq_dec m (2 ^ 53)) as [Htop|Hntop].
    + exists (2 ^ 52)%Z, (e + 1)%Z.
      assert (Hy : y == pow2 (53 + e)).
      { apply Qeq_trans with (inject_Z m * pow2 e); [exact Hval|].
        rewrite Htop, <- pow2_Z, <- pow2_plus by lia. reflexivity. }
      split.
      * apply Qeq_trans with (pow2 (53 + e)); [exact Hy|].
        rewrite <- pow2_Z, <- pow2_plus by lia.
        replace (52 + (e + 1))%Z with (53 + e)%Z by lia. reflexivity.
      * assert (Hi : ilog2 y = (53 + e)%Z).
        { assert (Hab : Qabs y == pow2 (53 + e)).
          { rewrite (Qabs_wd _ _ Hy).
            apply Qabs_pos. apply Qlt_le_weak. apply pow2_pos. }
          apply ilog2_unique.
          - rewrite Hab. apply Qle_refl.
          - rewrite Hab. apply pow2_lt. lia. }
        unfold cexp. rewrite Hi. unfold emin in *. lia.
    + exists m, e. split; [exact Hval|].
      assert (Hypos : 0 < y).
      { assert (0 < inject_Z m * pow2 e).
        { apply Qmult_lt_0_compat; [|apply pow2_pos].
          change 0 with (inject_Z 0). rewrite <- Zlt_Qlt. lia. }
        lra. }
      assert (Hny : ~ y == 0) by lra.
      destruct (ilog2_spec _ Hny) as [Hy1 _].
      rewrite Qabs_pos in Hy1 by lra.
      assert (Hlt : inject_Z m * pow2 e < pow2 (53 + e)).
      { rewrite pow2_plus, (pow2_Z 53) by lia.
        apply Qmult_lt_r; [apply pow2_pos|]. rewrite <- Zlt_Qlt. lia. }
      assert (Hp : pow2 (ilog2 y) < pow2 (53 + e)) by lra.
      apply pow2_lt_inv in Hp. unfold cexp. unfold emin in *. lia.
Qed.

Lemma round_pos_on_grid x :
  0 < x ->
  exists m e, round_at (cexp x) x == inject_Z m * pow2 e
              /\ (cexp (round_at (cexp x) x) <= e)%Z.
Proof. intros H. exact (round_pos_on_grid_at x (cexp x) H eq_refl). Qed.

Lemma double_on_grid x :
  exists m e, double x == inject_Z m * pow2 e /\ (cexp (double x) <= e)%Z.
Proof.
  destruct (Qlt_le_dec 0 x) as [Hpos|Hle].
  - rewrite double_pos_eq by exact Hpos. apply round_pos_on_grid. exact Hpos.
  - destruct (Qlt_le_dec x 0) as [Hneg|Hge].
    + rewrite double_neg_eq by exact Hneg.
      destruct (round_pos_on_grid (- x)) as [m [e [Hv Hc]]]; [lra|].
      destruct (Qeq_dec (round_at (cexp (- x)) (- x)) 0) as [Hz|Hnz].
      * exists 0%Z, (cexp (- round_at (cexp (- x)) (- x))). split; [|apply Z.le_refl].
        change (inject_Z 0) with 0. lra.
      * exists (- m)%Z, e. split.
        -- rewrite Hv, inject_Z_opp. ring.
        -- rewrite cexp_opp by exact Hnz. exact Hc.
    + rewrite double_zero_eq by lra.
      exists 0%Z, (cexp 0). split; [ring|apply Z.le_refl].
Qed.

Lemma double_idempotent x : double (double x) == double x.
Proof.
  destruct (double_on_grid x) as [m [e [Hv Hc]]].
  exact (double_fix _ _ _ Hv Hc).
Qed.

Lemma double_error x :
  Qabs x < 128 -> Qabs (double x - x) <= pow2 (-47).
Proof.
  intros Hb.
  assert (Hround : forall y, 0 < y -> y < 128 ->
                     Qabs (round_at (cexp y) y - y) <= pow2 (-47)).
  { intros y Hy Hlt.
    assert (Hny : ~ y == 0) by lra.
    destruct (ilog2_spec y Hny) as [H1 _]. rewrite Qabs_pos in H1 by lra.
    assert (Hp : pow2 (ilog2 y) < pow2 7).
    { apply Qle_lt_trans with y; [exact H1|]. rewrite (pow2_Z 7) by lia. exact Hlt. }
    apply pow2_lt_inv in Hp.
    apply Qle_trans with (pow2 (cexp y - 1)); [apply round_at_error|].
    apply pow2_le. unfold cexp, emin. lia. }
  destruct (Qlt_le_dec 0 x) as [Hpos|Hle].
  - rewrite double_pos_eq by exact Hpos. apply Hround; [exact Hpos|].
    rewrite Qabs_pos in Hb by lra. exact Hb.
  - destruct (Qlt_le_dec x 0) as [Hneg|Hge].
    + rewrite double_neg_eq by exact Hneg.
      assert (Heq : - round_at (cexp (- x)) (- x) - x
                    == - (round_at (cexp (- x)) (- x) - - x)) by ring.
      rewrite Heq, Qabs_opp. apply Hround; [lra|].
      rewrite Qabs_neg in Hb by lra. exact Hb.
    + rewrite double_zero_eq by lra.
      assert (Heq : 0 - x == 0) by lra. rewrite Heq.
      change (Qabs 0) with 0. apply Qlt_le_weak. apply pow2_pos.
Qed.

(** *** The accumulated score *)

Lemma half_ulp_value : half_ulp == 1 # 140737488355328.
Proof. reflexivity. Qed.

Lemma double_near x :
  - (128) < x -> x < 128 -> - half_ulp <= double x - x <= half_ulp.
Proof.
  intros H1 H2.
  assert (Hb : Qabs x < 128) by (apply Qabs_case; intros; lra).
  pose proof (double_error x Hb) as He.
  apply Qabs_Qle_condition in He. exact He.
Qed.

Lemma fadd_near s t S T es et :
  - es <= s - S <= es -> - et <= t - T <= et ->
  - (128) < s + t -> s + t < 128 ->
  - (es + et + half_ulp) <= fadd s t - (S + T) <= es + et + half_ulp.
Proof.
  intros Hs Ht H1 H2. unfold fadd.
  pose proof (double_near (s + t) H1 H2). lra.
Qed.

Lemma term_near x d c :
  0 < d -> 0 <= x <= d -> 0 <= c <= 30 ->
  - ((c + 1) * half_ulp) <= fmul (fdiv x d) c - x / d * c <= (c + 1) * half_ulp
  /\ 0 <= fmul (fdiv x d) c <= c + 1.
Proof.
  intros Hd Hx Hc. pose proof half_ulp_value as Hu.
  assert (Ha : 0 <= x / d <= 1).
  { split.
    - apply Qle_shift_div_l; [exact Hd|]. lra.
    - apply Qle_shift_div_r; [exact Hd|]. lra. }
  unfold fmul, fdiv.
  set (a := x / d) in *.
  assert (He : - half_ulp <= double a - a <= half_ulp)
    by (apply double_near; lra).
  set (e := double a) in *.
  assert (Hec : - (c * half_ulp) <= e * c - a * c <= c * half_ulp).
  { assert (H1 : (e - a) * c <= half_ulp * c)
      by (apply Qmult_le_compat_r; lra).
    assert (H2 : (- half_ulp) * c <= (e - a) * c)
      by (apply Qmult_le_compat_r; lra).
    lra. }
  assert (Hac : 0 <= a * c <= c).
  { split; [apply Qmult_le_0_compat; lra|].
    assert (a * c <= 1 * c) by (apply Qmult_le_compat_r; lra). lra. }
  assert (Hcu : 0 <= c * half_ulp <= 1 # 1000).
  { rewrite Hu. split; lra. }
  assert (Hb : - half_ulp <= double (e * c) - e * c <= half_ulp)
    by (apply double_near; lra).
  assert (Hn : 0 <= double (e * c)).
  { apply double_nonneg. apply Qmult_le_0_compat; [|lra].
    unfold e. apply double_nonneg. lra. }
  split; [lra|]. split; [exact Hn|]. lra.
Qed.

Lemma Qmin_near a b c d :
  - d <= a - b <= d -> - d <= Qmin a c - Qmin c b <= d.
Proof.
  intros H.
  destruct (Q.min_spec a c) as [[H1 ->]|[H1 ->]];
    destruct (Q.min_spec c b) as [[H2 ->]|[H2 ->]]; lra.
Qed.

Lemma double_one : double 1 == 1.
Proof. vm_compute. reflexivity. Qed.

Lemma double_twenty : double 20 == 20.
Proof. vm_compute. reflexivity. Qed.

Lemma count_term_near c :
  (0 <= c)%Z ->
  - (21 * half_ulp) <= count_term c - Qmin 20 (20 * inject_Z c / 1000)
    <= 21 * half_ulp
  /\ 0 <= count_term c <= 20.
Proof.
  intros Hc. unfold count_term. pose proof half_ulp_value as Hu.
  assert (Hq : 0 <= inject_Z c)
    by (change 0 with (inject_Z 0); rewrite <- Zle_Qle; exact Hc).
  destruct (Z_lt_le_dec c 1000) as [Hlt|Hge].
  - assert (Hq' : inject_Z c <= 1000).
    { change 1000 with (inject_Z 1000). rewrite <- Zle_Qle. lia. }
    destruct (term_near (inject_Z c) 1000 20) as [Hnear Hrange]; try lra.
    set (t := fmul (fdiv (inject_Z c) 1000) 20) in *.
    assert (Hx : inject_Z c / 1000 * 20 == 20 * inject_Z c / 1000) by (field).
    split.
    + apply Qmin_near. rewrite <- Hx. lra.
    + split; [apply Q.min_glb; lra|apply Q.le_min_r].
  - assert (Hq' : 1000 <= inject_Z c).
    { change 1000 with (inject_Z 1000). rewrite <- Zle_Qle. lia. }
    assert (H1 : 1 <= fdiv (inject_Z c) 1000).
    { apply Qle_trans with (double 1);
        [rewrite double_one; apply Qle_refl|].
      unfold fdiv. apply double_mono.
      apply Qle_shift_div_l; lra. }
    assert (H20 : 20 <= fmul (fdiv (inject_Z c) 1000) 20).
    { apply Qle_trans with (double 20);
        [rewrite double_twenty; apply Qle_refl|].
      unfold fmul. apply double_mono. lra. }
    assert (Hm : Qmin (fmul (fdiv (inject_Z c) 1000) 20) 20 == 20)
      by (apply Q.min_r; exact H20).
    assert (Hm' : Qmin 20 (20 * inject_Z c / 1000) == 20).
    { apply Q.min_l. apply Qle_shift_div_l; lra. }
    rewrite Hm, Hm', Hu. split; [split|split]; lra.
Qed.

Lemma history_counts (history : list VerificationRecord) :
  history <> [] ->
  0 < inject_Z (Z.of_nat (List.length history))
  /\ 0 <= inject_Z (Z.of_nat (List.length (filter verified history)))
     <= inject_Z (Z.of_nat (List.length history)).
Proof.
  intros Hne.
  pose proof (filter_length_le verified history) as Hle.
  assert (Hpos : (0 < List.length history)%nat)
    by (destruct history; [congruence|simpl; lia]).
  split; [|split].
  - change 0 with (inject_Z 0). rewrite <- Zlt_Qlt. lia.
  - change 0 with (inject_Z 0). rewrite <- Zle_Qle. lia.
  - rewrite <- Zle_Qle. lia.
Qed.

Lemma calculatePopularityScore_accumulated (this : Doc.t) :
  calculatePopularityScore this = Math_round (Qmin (accumulated_score this) 100).
Proof. reflexivity. Qed.

Lemma Math_round_monotone x y : x <= y -> (Math_round x <= Math_round y)%Z.
Proof.
  intros Hxy. unfold Math_round. apply Qfloor_resp_le. lra.
Qed.

Lemma Math_round_near x :
  - (1 # 2) < inject_Z (Math_round x) - x <= 1 # 2.
Proof.
  unfold Math_round. destruct (Qfloor_bounds (x + (1 # 2))) as [H1 H2]. lra.
Qed.

(** The accumulated score is within [99 * 2^-47] of the exact value of
    the formula, and not negative. *)
Lemma accumulated_score_near (this : Doc.t) (rate : Q) :
  in_schema_ranges this ->
  is_success_share (Doc.verificationHistory this) rate ->
  - (99 * half_ulp)
  <= accumulated_score this
     - popularity_value (value_or_zero (Doc.starRating this))
         (value_or_zero (Doc.reviewScore this))
         (count_or_zero (Doc.reviewCount this)) rate (Doc.isFeatured this)
  <= 99 * half_ulp
  /\ 0 <= accumulated_score this.
Proof.
  intros [Hstar [Hrev Hcnt]] Hrate. pose proof half_ulp_value as Hu.
  unfold accumulated_score, popularity_value.
  (* star rating *)
  set (s1 := add_when (Doc.starRating this) star_term 0).
  assert (B1 : - (27 * half_ulp)
               <= s1 - 25 * value_or_zero (Doc.starRating this) / 5
               <= 27 * half_ulp
               /\ 0 <= s1 <= 26).
  { unfold s1, add_when.
    destruct (Doc.starRating this) as [x|]; simpl.
    - specialize (Hstar x eq_refl).
      destruct (truthy x) eqn:Ht.
      + destruct (term_near x 5 25) as [Hn Hr]; try lra.
        fold (star_term x) in Hn, Hr.
        assert (Hx : x / 5 * 25 == 25 * x / 5) by field.
        rewrite Hx in Hn.
        pose proof (fadd_near 0 (star_term x) 0 (25 * x / 5) 0 (26 * half_ulp))
          as Hadd.
        assert (Hnn : 0 <= fadd 0 (star_term x))
          by (unfold fadd; apply double_nonneg; lra).
        assert (H25 : 25 * x / 5 <= 25) by (apply Qle_shift_div_r; lra).
        rewrite Hu in *. split; [|split]; lra.
      + apply falsy_Q_zero in Ht. exfalso. lra.
    - rewrite Hu. assert (H0 : 25 * 0 / 5 == 0) by reflexivity.
      rewrite H0. split; [split|split]; lra. }
  (* review score *)
  set (s2 := add_when (Doc.reviewScore this) review_term s1).
  assert (B2 : - (59 * half_ulp)
               <= s2 - (25 * value_or_zero (Doc.starRating this) / 5
                        + 30 * value_or_zero (Doc.reviewScore this) / 10)
               <= 59 * half_ulp
               /\ 0 <= s2 <= 57).
  { destruct B1 as [B1 R1]. unfold s2, add_when.
    set (exact1 := 25 * value_or_zero (Doc.starRating this) / 5) in *.
    destruct (Doc.reviewScore this) as [x|]; simpl.
    - specialize (Hrev x eq_refl).
      destruct (truthy x) eqn:Ht.
      + destruct (term_near x 10 30) as [Hn Hr]; try lra.
        fold (review_term x) in Hn, Hr.
        assert (Hx : x / 10 * 30 == 30 * x / 10) by field.
        rewrite Hx in Hn.
        pose proof (fadd_near s1 (review_term x) exact1 (30 * x / 10)
                      (27 * half_ulp) (31 * half_ulp)) as Hadd.
        assert (Hnn : 0 <= fadd s1 (review_term x))
          by (unfold fadd; apply double_nonneg; lra).
        assert (H30 : 30 * x / 10 <= 30) by (apply Qle_shift_div_r; lra).
        rewrite Hu in *. split; [|split]; lra.
      + apply falsy_Q_zero in Ht.
        assert (H0 : 30 * x / 10 == 0) by (rewrite Ht; reflexivity).
        rewrite H0, Hu in *. split; [split|split]; lra.
    - assert (H0 : 30 * 0 / 10 == 0) by reflexivity.
      rewrite H0, Hu in *. split; [split|split]; lra. }
  (* review count *)
  set (s3 := add_when (Doc.reviewCount this) count_term s2).
  assert (B3 : - (81 * half_ulp)
               <= s3 - (25 * value_or_zero (Doc.starRating this) / 5
                        + 30 * value_or_zero (Doc.reviewScore this) / 10
                        + Qmin 20 (20 * count_or_zero (Doc.reviewCount this) / 1000))
               <= 81 * half_ulp
               /\ 0 <= s3 <= 78).
  { destruct B2 as [B2 R2]. unfold s3, add_when.
    set (exact2 := 25 * value_or_zero (Doc.starRating this) / 5
                   + 30 * value_or_zero (Doc.reviewScore this) / 10) in *.
    assert (H0 : Qmin 20 (20 * 0 / 1000) == 0) by reflexivity.
    destruct (Doc.reviewCount this) as [c|]; simpl.
    - specialize (Hcnt c eq_refl).
      destruct (truthy c) eqn:Ht.
      + destruct (count_term_near c Hcnt) as [Hn Hr].
        set (exact3 := Qmin 20 (20 * inject_Z c / 1000)) in *.
        pose proof (fadd_near s2 (count_term c) exact2 exact3
                      (59 * half_ulp) (21 * half_ulp)) as Hadd.
        assert (Hnn : 0 <= fadd s2 (count_term c))
          by (unfold fadd; apply double_nonneg; lra).
        assert (H20 : exact3 <= 20) by apply Q.le_min_l.
        rewrite Hu in *. split; [|split]; lra.
      + apply falsy_Z_zero in Ht. subst c.
        change (inject_Z 0) with 0. rewrite H0, Hu in *.
        split; [split|split]; lra.
    - rewrite H0, Hu in *. split; [split|split]; lra. }
  (* verification history *)
  set (s4 := if (0 <? List.length (Doc.verificationHistory this))%nat
             then fadd s3 (rate_term (Doc.verificationHistory this))
             else s3).
  assert (B4 : - (98 * half_ulp)
               <= s4 - (25 * value_or_zero (Doc.starRating this) / 5
                        + 30 * value_or_zero (Doc.reviewScore this) / 10
                        + Qmin 20 (20 * count_or_zero (Doc.reviewCount this) / 1000)
                        + 15 * rate)
               <= 98 * half_ulp
               /\ 0 <= s4 <= 94).
  { destruct B3 as [B3 R3]. unfold s4.
    set (exact3 := 25 * value_or_zero (Doc.starRating this) / 5
                   + 30 * value_or_zero (Doc.reviewScore this) / 10
                   + Qmin 20 (20 * count_or_zero (Doc.reviewCount this) / 1000)) in *.
    destruct (Doc.verificationHistory this) as [|v vs] eqn:Hh.
    - simpl in Hrate. simpl. rewrite Hu in *. split; [split|split]; lra.
    - assert (Hne : v :: vs <> []) by discriminate.
      destruct (history_counts (v :: vs) Hne) as [Hpos [Hk0 Hkn]].
      unfold is_success_share in Hrate.
      change (0 <? List.length (v :: vs))%nat with true. cbv iota.
      unfold rate_term.
      set (k := inject_Z (Z.of_nat (List.length (filter verified (v :: vs))))) in *.
      set (n := inject_Z (Z.of_nat (List.length (v :: vs)))) in *.
      destruct (term_near k n 15) as [Hn Hr]; try lra.
      assert (Hkn' : k / n == rate).
      { rewrite <- Hrate. field. lra. }
      set (t := fmul (fdiv k n) 15) in *.
      assert (Hn' : - (16 * half_ulp) <= t - 15 * rate <= 16 * half_ulp).
      { assert (Hx : k / n * 15 == 15 * rate) by (rewrite Hkn'; ring).
        rewrite Hx in Hn. lra. }
      assert (Hrate1 : 0 <= rate <= 1).
      { rewrite <- Hkn'. split.
        - apply Qle_shift_div_l; [exact Hpos|]. lra.
        - apply Qle_shift_div_r; [exact Hpos|]. lra. }
      pose proof (fadd_near s3 t exact3 (15 * rate)
                    (81 * half_ulp) (16 * half_ulp)) as Hadd.
      assert (Hnn : 0 <= fadd s3 t)
        by (unfold fadd; apply double_nonneg; lra).
      rewrite Hu in *. split; [|split]; lra. }
  (* featured *)
  destruct B4 as [B4 R4].
  set (exact4 := 25 * value_or_zero (Doc.starRating this) / 5
                 + 30 * value_or_zero (Doc.reviewScore this) / 10
                 + Qmin 20 (20 * count_or_zero (Doc.reviewCount this) / 1000)
                 + 15 * rate) in *.
  destruct (Doc.isFeatured this).
  - pose proof (fadd_near s4 10 exact4 10 (98 * half_ulp) 0) as Hadd.
    assert (Hnn : 0 <= fadd s4 10)
      by (unfold fadd; apply double_nonneg; lra).
    rewrite Hu in *. split; [|exact Hnn]. lra.
  - rewrite Hu in *. split; lra.
Qed.

Lemma calculatePopularityScore_near (this : Doc.t) (rate : Q) :
  in_schema_ranges this ->
  is_success_share (Doc.verificationHistory this) rate ->
  Qabs (inject_Z (calculatePopularityScore this)
        - Qmin 100
            (popularity_value (value_or_zero (Doc.starRating this))
               (value_or_zero (Doc.reviewScore this))
               (count_or_zero (Doc.reviewCount this)) rate (Doc.isFeatured this)))
  <= (1 # 2) + (1 # 2 ^ 40).
Proof.
  intros Hranges Hrate.
  destruct (accumulated_score_near this rate Hranges Hrate) as [Hnear _].
  rewrite calculatePopularityScore_accumulated.
  pose proof (Math_round_near (Qmin (accumulated_score this) 100)) as Hround.
  pose proof half_ulp_value as Hu.
  set (P := popularity_value _ _ _ _ _) in *.
  assert (Hmin : - (99 * half_ulp)
                 <= Qmin (accumulated_score this) 100 - Qmin 100 P
                 <= 99 * half_ulp)
    by (apply Qmin_near; exact Hnear).
  assert (Hc : (1 # 2 ^ 40) == 1 # 1099511627776) by reflexivity.
  rewrite Hc. rewrite Hu in *.
  apply Qabs_Qle_condition. split; lra.
Qed.

Lemma calculatePopularityScore_range (this : Doc.t) :
  in_schema_ranges this -> (0 <= calculatePopularityScore this <= 100)%Z.
Proof.
  intros Hranges. rewrite calculatePopularityScore_accumulated.
  assert (Hrate : exists rate,
             is_success_share (Doc.verificationHistory this) rate).
  { destruct (Doc.verificationHistory this) as [|v vs] eqn:Hh.
    - exists 0. reflexivity.
    - assert (Hne : v :: vs <> []) by discriminate.
      destruct (history_counts (v :: vs) Hne) as [Hpos _].
      exists (inject_Z (Z.of_nat (List.length (filter verified (v :: vs))))
              / inject_Z (Z.of_nat (List.length (v :: vs)))).
      unfold is_success_share. field. lra. }
  destruct Hrate as [rate Hrate].
  destruct (accumulated_score_near this rate Hranges Hrate) as [_ H0].
  split.
  - change 0%Z with (Math_round 0). apply Math_round_monotone.
    apply Q.min_glb; lra.
  - change 100%Z with (Math_round 100). apply Math_round_monotone.
    apply Q.le_min_r.
Qed.

Lemma add_when_fix {A} {T : Truthy A} (v : option A) (term : A -> Q) (s : Q) :
  double s == s -> double (add_when v term s) == add_when v term s.
Proof.
  intros Hs. unfold add_when.
  destruct v as [x|]; [destruct (truthy x)|]; try exact Hs.
  unfold fadd. apply double_idempotent.
Qed.

Lemma if_fadd_fix (b : bool) (s t : Q) :
  double s == s ->
  double (if b then fadd s t else s) == (if b then fadd s t else s).
Proof.
  intros Hs. destruct b; [|exact Hs]. unfold fadd. apply double_idempotent.
Qed.

Lemma le_double_of_le s x : double s == s -> s <= x -> s <= double x.
Proof.
  intros Hs Hle. apply Qle_trans with (double s).
  - rewrite Hs. apply Qle_refl.
  - apply double_mono. exact Hle.
Qed.

Lemma double_le_of_le s x : double s == s -> x <= s -> double x <= s.
Proof.
  intros Hs Hle. apply Qle_trans with (double s).
  - apply double_mono. exact Hle.
  - rewrite Hs. apply Qle_refl.
Qed.

Lemma add_when_mono {A} {T : Truthy A} (to_Q : A -> Q) (term : A -> Q)
    (v1 v2 : option A) (s1 s2 : Q) :
  (forall x, truthy x = false -> to_Q x == 0) ->
  (forall x y, to_Q x <= to_Q y -> term x <= term y) ->
  (forall x, 0 <= to_Q x -> 0 <= term x) ->
  (forall x, to_Q x <= 0 -> term x <= 0) ->
  match v1 with Some x => to_Q x | None => 0 end
  <= match v2 with Some x => to_Q x | None => 0 end ->
  s1 <= s2 -> double s1 == s1 -> double s2 == s2 ->
  add_when v1 term s1 <= add_when v2 term s2.
Proof.
  intros Hfalsy Hmono Hpos Hneg Hv Hs Hd1 Hd2. unfold add_when.
  destruct v1 as [x|], v2 as [y|];
    try (destruct (truthy x) eqn:Hx; [|apply Hfalsy in Hx]);
    try (destruct (truthy y) eqn:Hy; [|apply Hfalsy in Hy]);
    try exact Hs; unfold fadd.
  - apply double_mono. pose proof (Hmono x y Hv). lra.
  - apply double_le_of_le; [exact Hd2|].
    assert (term x <= 0) by (apply Hneg; lra). lra.
  - apply le_double_of_le; [exact Hd1|].
    assert (0 <= term y) by (apply Hpos; lra). lra.
  - apply double_le_of_le; [exact Hd2|].
    assert (term x <= 0) by (apply Hneg; lra). lra.
  - apply le_double_of_le; [exact Hd1|].
    assert (0 <= term y) by (apply Hpos; lra). lra.
Qed.

Lemma scaled_term_mono (d c x y : Q) :
  0 < d -> 0 <= c -> x <= y -> fmul (fdiv x d) c <= fmul (fdiv y d) c.
Proof.
  intros Hd Hc Hxy. unfold fmul, fdiv. apply double_mono.
  apply Qmult_le_compat_r; [|exact Hc]. apply double_mono.
  unfold Qdiv. apply Qmult_le_compat_r; [exact Hxy|].
  apply Qinv_le_0_compat. lra.
Qed.

Lemma scaled_term_nonneg (d c x : Q) :
  0 < d -> 0 <= c -> 0 <= x -> 0 <= fmul (fdiv x d) c.
Proof.
  intros Hd Hc Hx. unfold fmul, fdiv. apply double_nonneg.
  apply Qmult_le_0_compat; [|exact Hc]. apply double_nonneg.
  apply Qle_shift_div_l; [exact Hd|]. lra.
Qed.

Lemma scaled_term_nonpos (d c x : Q) :
  0 < d -> 0 <= c -> x <= 0 -> fmul (fdiv x d) c <= 0.
Proof.
  intros Hd Hc Hx. unfold fmul, fdiv. apply double_nonpos.
  assert (H : double (x / d) <= 0).
  { apply double_nonpos. apply Qle_shift_div_r; [exact Hd|]. lra. }
  assert (H' : double (x / d) * c <= 0 * c)
    by (apply Qmult_le_compat_r; [exact H|exact Hc]).
  lra.
Qed.

Lemma rate_term_success_rate (history : list VerificationRecord) :
  rate_term history = double (double (success_rate history) * 15).
Proof. reflexivity. Qed.

Lemma accumulated_score_monotone (d1 d2 : Doc.t) :
  value_or_zero (Doc.starRating d1) <= value_or_zero (Doc.starRating d2) ->
  value_or_zero (Doc.reviewScore d1) <= value_or_zero (Doc.reviewScore d2) ->
  count_or_zero (Doc.reviewCount d1) <= count_or_zero (Doc.reviewCount d2) ->
  verificationSuccessRate d1 <= verificationSuccessRate d2 ->
  Doc.isFeatured d1 = Doc.isFeatured d2 ->
  accumulated_score d1 <= accumulated_score d2.
Proof.
  intros Hs Hr Hc Hv Hf. unfold accumulated_score.
  assert (D0 : double 0 == 0) by reflexivity.
  (* star rating *)
  set (a1 := add_when (Doc.starRating d1) star_term 0).
  set (a2 := add_when (Doc.starRating d2) star_term 0).
  assert (Da1 : double a1 == a1) by (apply add_when_fix; exact D0).
  assert (Da2 : double a2 == a2) by (apply add_when_fix; exact D0).
  assert (L1 : a1 <= a2).
  { apply (add_when_mono (fun x => x)); try assumption; try apply Qle_refl.
    - intros x Hx. apply falsy_Q_zero. exact Hx.
    - intros x y Hxy. apply scaled_term_mono; lra.
    - intros x Hx. apply scaled_term_nonneg; lra.
    - intros x Hx. apply scaled_term_nonpos; lra. }
  (* review score *)
  set (b1 := add_when (Doc.reviewScore d1) review_term a1).
  set (b2 := add_when (Doc.reviewScore d2) review_term a2).
  assert (Db1 : double b1 == b1) by (apply add_when_fix; exact Da1).
  assert (Db2 : double b2 == b2) by (apply add_when_fix; exact Da2).
  assert (L2 : b1 <= b2).
  { apply (add_when_mono (fun x => x)); try assumption.
    - intros x Hx. apply falsy_Q_zero. exact Hx.
    - intros x y Hxy. apply scaled_term_mono; lra.
    - intros x Hx. apply scaled_term_nonneg; lra.
    - intros x Hx. apply scaled_term_nonpos; lra. }
  (* review count *)
  set (c1 := add_when (Doc.reviewCount d1) count_term b1).
  set (c2 := add_when (Doc.reviewCount d2) count_term b2).
  assert (Dc1 : double c1 == c1) by (apply add_when_fix; exact Db1).
  assert (Dc2 : double c2 == c2) by (apply add_when_fix; exact Db2).
  assert (L3 : c1 <= c2).
  { apply (add_when_mono inject_Z); try assumption.
    - intros x Hx. apply falsy_Z_zero in Hx. subst x. reflexivity.
    - intros x y Hxy. unfold count_term. apply Q.min_le_compat_r.
      apply scaled_term_mono; lra.
    - intros x Hx. unfold count_term. apply Q.min_glb; [|lra].
      apply scaled_term_nonneg; lra.
    - intros x Hx. unfold count_term.
      apply Qle_trans with (fmul (fdiv (inject_Z x) 1000) 20);
        [apply Q.le_min_l|].
      apply scaled_term_nonpos; lra. }
  (* verification history *)
  set (e1 := if (0 <? List.length (Doc.verificationHistory d1))%nat
             then fadd c1 (rate_term (Doc.verificationHistory d1)) else c1).
  set (e2 := if (0 <? List.length (Doc.verificationHistory d2))%nat
             then fadd c2 (rate_term (Doc.verificationHistory d2)) else c2).
  assert (De1 : double e1 == e1) by (apply if_fadd_fix; exact Dc1).
  assert (De2 : double e2 == e2) by (apply if_fadd_fix; exact Dc2).
  assert (L4 : e1 <= e2).
  { unfold e1, e2. unfold verificationSuccessRate in Hv.
    assert (Hup : forall h, 0 <= success_rate h -> 0 <= rate_term h).
    { intros h Hh. rewrite rate_term_success_rate. apply double_nonneg.
      apply Qmult_le_0_compat; [|lra]. apply double_nonneg. exact Hh. }
    assert (Hdown : forall h, success_rate h <= 0 -> rate_term h <= 0).
    { intros h Hh. rewrite rate_term_success_rate. apply double_nonpos.
      assert (H : double (success_rate h) <= 0) by (apply double_nonpos; exact Hh).
      assert (H' : double (success_rate h) * 15 <= 0 * 15)
        by (apply Qmult_le_compat_r; [exact H|lra]).
      lra. }
    destruct (Doc.verificationHistory d1) as [|v1 h1];
      destruct (Doc.verificationHistory d2) as [|v2 h2];
      cbn [List.length Nat.ltb Nat.leb]; try exact L3.
    - apply le_double_of_le; [exact Dc1|].
      pose proof (Hup (v2 :: h2) Hv). lra.
    - apply double_le_of_le; [exact Dc2|].
      pose proof (Hdown (v1 :: h1) Hv). lra.
    - unfold fadd. apply double_mono.
      assert (H : rate_term (v1 :: h1) <= rate_term (v2 :: h2)).
      { rewrite !rate_term_success_rate. apply double_mono.
        apply Qmult_le_compat_r; [|lra]. apply double_mono. exact Hv. }
      lra. }
  (* featured *)
  rewrite Hf. destruct (Doc.isFeatured d2); [|exact L4].
  unfold fadd. apply double_mono. lra.
Qed.

Lemma calculatePopularityScore_monotone (d1 d2 : Doc.t) :
  value_or_zero (Doc.starRating d1) <= value_or_zero (Doc.starRating d2) ->
  value_or_zero (Doc.reviewScore d1) <= value_or_zero (Doc.reviewScore d2) ->
  count_or_zero (Doc.reviewCount d1) <= count_or_zero (Doc.reviewCount d2) ->
  verificationSuccessRate d1 <= verificationSuccessRate d2 ->
  Doc.isFeatured d1 = Doc.isFeatured d2 ->
  (calculatePopularityScore d1 <= calculatePopularityScore d2)%Z.
Proof.
  intros Hs Hr Hc Hv Hf.
  rewrite !calculatePopularityScore_accumulated.
  apply Math_round_monotone, Q.min_le_compat_r.
  apply accumulated_score_monotone; assumption.
Qed.

Lemma success_share_is_rate (this : Doc.t) (rate : Q) :
  is_success_share (Doc.verificationHistory this) rate ->
  rate == verificationSuccessRate this.
Proof.
  unfold is_success_share, verificationSuccessRate.
  destruct (Doc.verificationHistory this) as [|v vs] eqn:Hh; [auto|].
  intros Hrate.
  assert (Hne : v :: vs <> []) by discriminate.
  destruct (history_counts (v :: vs) Hne) as [Hpos _].
  unfold success_rate. rewrite <- Hrate. field. lra.
Qed.

Set Implicit Arguments.

(** C6, as stated, fails: the score is accumulated in double-precision
    arithmetic.  For a star rating of 2.875 and a review score of 0.375
    (both doubles, both in the ranges of the schema; no reviews, no
    history, not featured) the formula is 14.375 + 1.125 = 15.5, which
    rounds to 16; the code divides 2.875 by 5 first, which is not a
    double, gets 15.499999999999998 and returns 15. *)
Lemma calculatePopularityScore_rounding_counterexample :
  let this := scored_doc (23 # 8) (3 # 8) 0 [] false in
  in_schema_ranges this
  /\ is_success_share (Doc.verificationHistory this) 0
  /\ popularity_formula (23 # 8) (3 # 8) 0 0 false = 16%Z
  /\ calculatePopularityScore this = 15%Z.
Proof.
  intros this. split; [|split; [reflexivity|split; vm_compute; reflexivity]].
  unfold in_schema_ranges, this; simpl.
  split; [|split]; intros x Hx; injection Hx as <-; vm_compute;
    try split; discriminate.
Qed.

(** C6, amended.  [calculatePopularityScore] accumulates the terms of the
    formula [25*starRating/5 + 30*reviewScore/10
    + min(20, 20*reviewCount/1000) + 15*verificationSuccessRate
    + (10 if featured)] in double-precision arithmetic, clamps the sum to
    100 and rounds it.  For a hotel whose fields are in the ranges of the
    schema, a missing input counting as 0 and the success rate being the
    number of verified records over the number of records (0 without
    records), the score is an integer within [1/2 + 2^-40] of the exact
    value of the formula clamped to 100, and it lies between 0 and 100;
    and between two such hotels the score does not decrease when star
    rating, review score, review count or verification success rate
    increase, the featured flag being the same (so it is monotone in each
    of them, the others fixed). *)
Theorem calculatePopularityScore_formula_range_monotone :
  (forall (this : Doc.t) (rate : Q),
     in_schema_ranges this ->
     is_success_share (Doc.verificationHistory this) rate ->
     Qabs (inject_Z (calculatePopularityScore this)
           - Qmin 100
               (popularity_value
                  (value_or_zero (Doc.starRating this))
                  (value_or_zero (Doc.reviewScore this))
                  (count_or_zero (Doc.reviewCount this))
                  rate
                  (Doc.isFeatured this)))
     <= (1 # 2) + (1 # 2 ^ 40))
  /\ (forall this : Doc.t,
        in_schema_ranges this ->
        (0 <= calculatePopularityScore this <= 100)%Z)
  /\ (forall (d1 d2 : Doc.t) (rate1 rate2 : Q),
        in_schema_ranges d1 -> in_schema_ranges d2 ->
        is_success_share (Doc.verificationHistory d1) rate1 ->
        is_success_share (Doc.verificationHistory d2) rate2 ->
        value_or_zero (Doc.starRating d1) <= value_or_zero (Doc.starRating d2) ->
        value_or_zero (Doc.reviewScore d1) <= value_or_zero (Doc.reviewScore d2) ->
        count_or_zero (Doc.reviewCount d1) <= count_or_zero (Doc.reviewCount d2) ->
        rate1 <= rate2 ->
        Doc.isFeatured d1 = Doc.isFeatured d2 ->
        (calculatePopularityScore d1 <= calculatePopularityScore d2)%Z).
Proof.
  split; [exact calculatePopularityScore_near|].
  split; [exact calculatePopularityScore_range|].
  intros d1 d2 rate1 rate2 _ _ H1 H2 Hs Hr Hc Hv Hf.
  apply calculatePopularityScore_monotone; try assumption.
  rewrite <- (success_share_is_rate d1 rate1 H1), <- (success_share_is_rate d2 rate2 H2).
  exact Hv.
Qed.

Lemma calculatePopularityScore_formula_range_monotone_witness :
  Qabs (inject_Z (calculatePopularityScore (scored_doc 3 7 500 [true; false] false))
        - Qmin 100 (popularity_value 3 7 500 (1 # 2) false))
  <= (1 # 2) + (1 # 2 ^ 40)
  /\ (0 <= calculatePopularityScore (scored_doc 3 7 500 [true; false] false) <= 100)%Z
  /\ (calculatePopularityScore (scored_doc 3 7 500 [true; false] false)
      <= calculatePopularityScore (scored_doc 4 7 500 [true; false] false))%Z
  /\ (calculatePopularityScore (scored_doc 3 7 500 [true; false] false)
      <= calculatePopularityScore (scored_doc 3 7 500 [true; true] false))%Z.
Proof.
  destruct calculatePopularityScore_formula_range_monotone as [Hn [Hr Hm]].
  assert (Hranges : forall s (h : list bool),
             1 <= s <= 5 -> in_schema_ranges (scored_doc s 7 500 h false)).
  { intros s h Hs. unfold in_schema_ranges; simpl.
    split; [|split]; intros x Hx; injection Hx as <-.
    - exact Hs.
    - split; discriminate.
    - discriminate. }
  split; [|split; [|split]].
  - apply (Hn (scored_doc 3 7 500 [true; false] false) (1 # 2)).
    + apply Hranges. split; discriminate.
    + reflexivity.
  - apply Hr. apply Hranges. split; discriminate.
  - apply (Hm _ _ (1 # 2) (1 # 2));
      try (apply Hranges; split; discriminate);
      try reflexivity; vm_compute; discriminate.
  - apply (Hm _ _ (1 # 2) 1);
      try (apply Hranges; split; discriminate);
      try reflexivity; vm_compute; discriminate.
Defined.


(** ** Lower case, by the table of letters *)

Lemma in_all_chars c : In c all_chars.
Proof.
  unfold all_chars. rewrite <- (ascii_nat_embedding c). apply in_map.
  apply in_seq. pose proof (nat_ascii_bounded c). lia.
Qed.

Lemma lower_char_table_check :
  forallb
    (fun c =>
       if existsb (Ascii.eqb c) upper_case_letters
       then existsb (fun p => Ascii.eqb (fst p) c
                              && Ascii.eqb (snd p) (lower_char c))
              (combine upper_case_letters lower_case_letters)
            && forallb (fun p => negb (Ascii.eqb (fst p) c)
                                 || Ascii.eqb (snd p) (lower_char c))
                 (combine upper_case_letters lower_case_letters)
       else Ascii.eqb (lower_char c) c)
    all_chars = true.
Proof. vm_compute. reflexivity. Qed.

Lemma lower_char_not_upper :
  forallb
    (fun c => negb (existsb (Ascii.eqb (lower_char c)) upper_case_letters))
    all_chars = true.
Proof. vm_compute. reflexivity. Qed.

Lemma lower_case_of_char_spec c l : lower_case_of_char c l <-> l = lower_char c.
Proof.
  pose proof (proj1 (forallb_forall _ _) lower_char_table_check c (in_all_chars c))
    as Hc. cbv beta in Hc.
  unfold lower_case_of_char.
  destruct (existsb (Ascii.eqb c) upper_case_letters) eqn:Hup.
  - apply andb_true_iff in Hc. destruct Hc as [Hex Hall].
    split.
    + intros [Hin|[Hnot _]].
      * pose proof (proj1 (forallb_forall _ _) Hall (c, l) Hin) as Hp.
        cbn [fst snd] in Hp. rewrite Ascii.eqb_refl in Hp. simpl in Hp.
        apply Ascii.eqb_eq in Hp. exact Hp.
      * exfalso. apply Hnot. apply existsb_exists in Hup.
        destruct Hup as [x [Hx Heq]]. apply Ascii.eqb_eq in Heq. subst x. exact Hx.
    + intros ->. left. apply existsb_exists in Hex.
      destruct Hex as [[u lo] [Hin Heq]]. cbn [fst snd] in Heq.
      apply andb_true_iff in Heq. destruct Heq as [Hu Hl].
      apply Ascii.eqb_eq in Hu, Hl. subst u lo. exact Hin.
  - apply Ascii.eqb_eq in Hc.
    assert (Hnot : ~ In c upper_case_letters).
    { intros Hin. assert (Ht : existsb (Ascii.eqb c) upper_case_letters = true).
      { apply existsb_exists. exists c. split; [exact Hin|apply Ascii.eqb_refl]. }
      congruence. }
    split.
    + intros [Hin|[_ ->]]; [|auto].
      exfalso. apply Hnot. exact (in_combine_l _ _ _ _ Hin).
    + intros ->. right. split; [exact Hnot|exact Hc].
Qed.

Lemma lower_case_of_spec s l : lower_case_of s l <-> l = toLowerCase s.
Proof.
  split.
  - intros H. induction H as [|c l s t Hc _ IH]; [reflexivity|].
    apply lower_case_of_char_spec in Hc. simpl. congruence.
  - intros ->. induction s as [|c s IH]; simpl; constructor; [|exact IH].
    apply lower_case_of_char_spec. reflexivity.
Qed.

Lemma equal_ignoring_case_spec s t :
  equal_ignoring_case s t <-> toLowerCase s = toLowerCase t.
Proof.
  unfold equal_ignoring_case. split.
  - intros [l [Hs Ht]]. apply lower_case_of_spec in Hs, Ht. congruence.
  - intros Heq. exists (toLowerCase s).
    split; apply lower_case_of_spec; [reflexivity|exact Heq].
Qed.

(** ** Alternatives *)

Lemma insert_by_permutation {A} (le : A -> A -> bool) x l :
  Permutation (insert_by le x l) (x :: l).
Proof.
  induction l as [|y l IH]; simpl; [reflexivity|].
  destruct (le x y); [reflexivity|].
  rewrite IH. apply perm_swap.
Qed.

Lemma sort_by_permutation {A} (le : A -> A -> bool) l :
  Permutation (sort_by le l) l.
Proof.
  induction l as [|x l IH]; simpl; [reflexivity|].
  rewrite insert_by_permutation. constructor. exact IH.
Qed.

Lemma in_firstn {A} (n : nat) (l : list A) x : In x (firstn n l) -> In x l.
Proof.
  intros Hin. rewrite <- (firstn_skipn n l). apply in_or_app. auto.
Qed.

Lemma filter_exc_spec {A} (p : A -> Exc bool) l l' :
  filter_exc p l = Ok l' ->
  (forall x, In x l' <-> In x l /\ p x = Ok true)
  /\ (List.length l' <= List.length l)%nat.
Proof.
  revert l'. induction l as [|y l IH]; simpl; intros l' Hf.
  - injection Hf as <-. simpl. split; [tauto|lia].
  - destruct (p y) as [b|m] eqn:Hy; simpl in Hf; [|discriminate].
    destruct (filter_exc p l) as [r|m] eqn:Hr; simpl in Hf; [|discriminate].
    destruct (IH r eq_refl) as [IHin IHlen].
    injection Hf as <-. split.
    + intros x. destruct b; simpl; rewrite ?IHin; split.
      * intros [<-|[Hin Hp]]; auto.
      * intros [[<-|Hin] Hp]; auto.
      * intros [Hin Hp]; auto.
      * intros [[<-|Hin] Hp]; [congruence|auto].
    + destruct b; simpl; lia.
Qed.

Lemma filter_exc_total {A} (p : A -> Exc bool) l :
  (forall x, In x l -> exists b, p x = Ok b) ->
  exists l', filter_exc p l = Ok l'.
Proof.
  induction l as [|y l IH]; simpl; intros Hall; [eexists; reflexivity|].
  destruct (Hall y (or_introl eq_refl)) as [b ->]. simpl.
  destruct IH as [r ->]; [intros x Hx; apply Hall; auto|].
  simpl. eexists; reflexivity.
Qed.

Lemma HotelStatus_eqb_eq a b : HotelStatus_eqb a b = true <-> a = b.
Proof. destruct a, b; simpl; split; congruence. Qed.





Lemma in_firstn_or_full {A} (n : nat) (l : list A) x :
  In x l -> In x (firstn n l) \/ List.length (firstn n l) = n.
Proof.
  intros Hin. destruct (Nat.le_gt_cases (List.length l) n) as [Hle|Hgt].
  - left. rewrite firstn_all2 by exact Hle. exact Hin.
  - right. apply firstn_length_le. lia.
Qed.

(** A document the query lets through is returned unless the list is
    full. *)
Lemma findAlternatives_admits_or_full docs originalHotel criteria h :
  In h docs ->
  alternatives_query originalHotel criteria h = true ->
  In h (findAlternatives docs originalHotel criteria)
  \/ List.length (findAlternatives docs originalHotel criteria)
     = js_or_default (Criteria.limit criteria) 5%nat.
Proof.
  intros Hin Hq. unfold findAlternatives. apply in_firstn_or_full.
  apply (Permutation_in _ (Permutation_sym (sort_by_permutation _ _))).
  apply filter_In. auto.
Qed.


Lemma other_name_true originalHotelName hotel :
  other_name originalHotelName hotel = Ok true <->
  exists n, hotel_name hotel = Some n
            /\ toLowerCase n <> toLowerCase originalHotelName.
Proof.
  unfold other_name, lower_name.
  destruct (hotel_name hotel) as [n|]; simpl.
  - split.
    + intros Heq. injection Heq as Heq.
      apply negb_true_iff, String.eqb_neq in Heq. exists n. auto.
    + intros [n' [Hn Hneq]]. injection Hn as <-.
      apply String.eqb_neq in Hneq. rewrite Hneq. reflexivity.
  - split; [discriminate|]. intros [n [Hn _]]. discriminate.
Qed.

Lemma within_rating_spec ratingRange starRating hotel :
  within_rating ratingRange starRating hotel = true <->
  exists r, hotel_starRating hotel = Some r /\ Qabs (r - starRating) <= ratingRange.
Proof.
  unfold within_rating. destruct (hotel_starRating hotel) as [x|].
  - rewrite Qle_bool_iff. split.
    + intros Hle. exists x. auto.
    + intros [r [Hr Hle]]. injection Hr as ->. exact Hle.
  - split; [discriminate|]. intros [r [Hr _]]. discriminate.
Qed.


Lemma alternatives_among_candidates hotels req found :
  alternatives_among hotels req = Ok found ->
  exists named,
    filter_exc (other_name (AltReq.originalHotelName req)) hotels = Ok named
    /\ found
       = firstn (default_to (AltReq.limit req) 5%nat)
           (sort_by score_order
              (match AltReq.priceRange req with
               | Some priceRange =>
                   filter (fun hotel =>
                             Qle_bool (Range.min priceRange) (price_or_zero hotel)
                             && Qle_bool (price_or_zero hotel) (Range.max priceRange))
               | None => fun l => l
               end
                 (match AltReq.starRating req with
                  | Some starRating =>
                      if truthy starRating
                      then filter (within_rating (5 # 10) starRating) named
                      else named
                  | None => named
                  end))).
Proof.
  unfold alternatives_among.
  destruct (filter_exc _ hotels) as [named|m]; simpl; [|discriminate].
  intros Heq. injection Heq as <-. exists named. split; [reflexivity|].
  destruct (AltReq.priceRange req); reflexivity.
Qed.

(** A hotel that passes the filters of [getAlternativeHotels] is returned
    unless the list is full. *)
Lemma alternatives_among_admits hotels req found h n :
  alternatives_among hotels req = Ok found ->
  In h hotels ->
  hotel_name h = Some n ->
  ~ equal_ignoring_case n (AltReq.originalHotelName req) ->
  (forall s, AltReq.starRating req = Some s -> truthy s = true ->
     exists r, hotel_starRating h = Some r /\ Qabs (r - s) <= 1 # 2) ->
  (forall range, AltReq.priceRange req = Some range ->
     Range.min range <= price_or_zero h <= Range.max range) ->
  In h found \/ List.length found = default_to (AltReq.limit req) 5%nat.
Proof.
  intros Hfound Hin Hn Hneq Hrating Hprice.
  destruct (alternatives_among_candidates _ _ Hfound) as [named [Hnamed ->]].
  apply in_firstn_or_full.
  apply (Permutation_in _ (Permutation_sym (sort_by_permutation _ _))).
  assert (Hh : In h named).
  { apply (proj1 (filter_exc_spec _ _ Hnamed)). split; [exact Hin|].
    apply other_name_true. exists n. split; [exact Hn|].
    intros Heq. apply Hneq. apply equal_ignoring_case_spec. exact Heq. }
  assert (Hrated :
    In h (match AltReq.starRating req with
          | Some starRating =>
              if truthy starRating
              then filter (within_rating (5 # 10) starRating) named
              else named
          | None => named
          end)).
  { destruct (AltReq.starRating req) as [s|]; [|exact Hh].
    destruct (truthy s) eqn:Ht; [|exact Hh].
    apply filter_In. split; [exact Hh|].
    destruct (Hrating s eq_refl Ht) as [r [Hr Hle]].
    apply within_rating_spec. exists r. split; [exact Hr|].
    assert (Hhalf : (5 # 10) == (1 # 2)) by reflexivity.
    rewrite Hhalf. exact Hle. }
  destruct (AltReq.priceRange req) as [range|]; [|exact Hrated].
  apply filter_In. split; [exact Hrated|].
  destruct (Hprice range eq_refl) as [Hlo Hhi].
  apply andb_true_iff. rewrite !Qle_bool_iff. auto.
Qed.

Lemma getAlternativeHotels_ok {E} `{Backend E} (req : AltReq.t) (w w' : World E) found :
  getAlternativeHotels req w = (Ok found, w') ->
  exists searchResults,
    searchHotels (Search.mk (AltReq.location req) (AltReq.checkIn req)
                    (AltReq.checkOut req) None None) w
    = (Ok searchResults, w')
    /\ alternatives_among (Result.hotels searchResults) req = Ok found.
Proof.
  unfold getAlternativeHotels, try_catch, bind, lift_exc, throw.
  destruct (searchHotels _ w) as [[searchResults|m] w1]; [|discriminate].
  destruct (alternatives_among _ req) as [l|m] eqn:Ha; [|discriminate].
  intros Heq. injection Heq as <- <-. exists searchResults. auto.
Qed.

Lemma getAlternativeHotels_inv {E} `{Backend E} (req : AltReq.t) (w w' : World E) found :
  getAlternativeHotels req w = (Ok found, w') ->
  exists searchResults w1,
    searchHotels (Search.mk (AltReq.location req) (AltReq.checkIn req)
                    (AltReq.checkOut req) None None) w
    = (Ok searchResults, w1)
    /\ alternatives_among (Result.hotels searchResults) req = Ok found.
Proof.
  unfold getAlternativeHotels, try_catch, bind, lift_exc, throw.
  destruct (searchHotels _ w) as [[searchResults|m] w1]; [|discriminate].
  destruct (alternatives_among _ req) as [l|m] eqn:Ha; [|discriminate].
  intros Heq. injection Heq as <- _. exists searchResults, w1. auto.
Qed.




(** ** Normalization of inbound records *)

Lemma js_or_coalesced {A} `{Truthy A} (a b : option A) : coalesced a b (js_or a b).
Proof.
  unfold coalesced, js_or, first_present.
  destruct a as [x|]; simpl.
  - destruct (truthy x); repeat split; try congruence.
    intros [Hn|Hf]; congruence.
  - repeat split; congruence.
Qed.

Lemma collection_default {A} (a b : option (list A)) :
  js_or_default (js_or a b) [] = default_to (first_present a b) [].
Proof.
  destruct a as [x|], b as [y|]; reflexivity.
Qed.

(** C9, as stated, fails: a review count of 0 is present and not null,
    and the normal form takes the 120 of [numberOfReviews] instead. *)
Lemma formatHotelResults_zero_count_counterexample :
  map Fmt.reviewCount (formatHotelResults [hotel_without_reviews]) = [Some 120%Z]
  /\ first_present (Raw.reviewCount hotel_without_reviews)
       (Raw.numberOfReviews hotel_without_reviews) = Some 0%Z
  /\ map Fmt.reviewCount (formatHotelResults [hotel_without_reviews])
     <> [first_present (Raw.reviewCount hotel_without_reviews)
           (Raw.numberOfReviews hotel_without_reviews)].
Proof.
  vm_compute. repeat split; discriminate.
Qed.

(** C9, amended.  [formatHotelResults] gives one normal form per inbound
    record, in order; each pair of fields ([id]/[hotelId],
    [name]/[hotelName], [starRating]/[category], [reviewScore]/[rating],
    [reviewCount]/[numberOfReviews], [price.total]/[totalPrice],
    [price.perNight]/[pricePerNight], [description]/[hotelDescription])
    is coalesced by taking the first value when it is truthy and the
    second value otherwise, which is the first present value unless the
    first is 0 or the empty string; [amenities] and [images] are the first
    present list of their pair, the empty list when both are absent. *)
Theorem formatHotelResults_coalesces :
  forall rawHotels : list Raw.t,
    Forall2 normalized rawHotels (formatHotelResults rawHotels).
Proof.
  induction rawHotels as [|hotel rest IH]; simpl; constructor; [|exact IH].
  unfold normalized, formatHotelResult; simpl.
  repeat (split; [apply js_or_coalesced|]).
  split; apply collection_default.
Qed.

Lemma formatHotelResults_coalesces_witness :
  map Fmt.name (formatHotelResults [raw_named "h" "Hotel" None]) = [Some "Hotel"]
  /\ map Fmt.amenities (formatHotelResults [raw_named "h" "Hotel" None]) = [[]].
Proof.
  pose proof (formatHotelResults_coalesces [raw_named "h" "Hotel" None]) as Hall.
  inversion Hall as [|hotel f rest fs Hn Hrest Hh Hf]; subst.
  inversion Hrest; subst.
  destruct Hn as [_ [[Hname _] [_ [_ [_ [_ [_ [_ [Ham _]]]]]]]]].
  unfold formatHotelResults. cbn [map].
  rewrite (Hname eq_refl), Ham. split; reflexivity.
Defined.

(** ** The fallback chain *)

Section Chain.

Context {E : Type} `{Backend E}.

Lemma searchHotelsFromDatabase_run location checkIn checkOut (w : World E) :
  searchHotelsFromDatabase location checkIn checkOut w
  = match hotel_find location (ext w) with
    | (Ok found, x) =>
        (Ok (DbResult.mk
               (map (fun hotel => Detailed (formatHotelDetails (toObject hotel)))
                  (firstn 20 found))
               (Z.of_nat (List.length (firstn 20 found)))),
         {| cache := cache w; ext := x |})
    | (Throw _, x) =>
        (Ok (DbResult.mk [] 0), {| cache := cache w; ext := x |})
    end.
Proof.
  unfold searchHotelsFromDatabase, try_catch, bind, call, ret.
  destruct (hotel_find location (ext w)) as [[found|m] x]; reflexivity.
Qed.

Lemma searchHotelsFromDatabase_never_throws location checkIn checkOut (w : World E) :
  exists r w', searchHotelsFromDatabase location checkIn checkOut w = (Ok r, w').
Proof.
  rewrite searchHotelsFromDatabase_run.
  destruct (hotel_find location (ext w)) as [[found|m] x]; eexists; eexists; reflexivity.
Qed.

Lemma search_fallback_throws criteria (w w' : World E) m :
  search_fallback criteria w = (Throw m, w') -> m = inventory_unavailable.
Proof.
  unfold search_fallback, bind.
  destruct (searchHotelsFromDatabase_never_throws (Search.location criteria)
              (Search.checkIn criteria) (Search.checkOut criteria) w)
    as [r [w1 ->]].
  destruct (0 <? _)%nat; unfold ret, throw; intros Heq.
  - discriminate.
  - injection Heq as <- _. reflexivity.
Qed.

Lemma searchHotels_throws_only_generic criteria (w w' : World E) m :
  searchHotels criteria w = (Throw m, w') -> m = inventory_unavailable.
Proof.
  unfold searchHotels, try_catch.
  destruct (search_attempt criteria w) as [[r|m0] w1]; [discriminate|].
  apply search_fallback_throws.
Qed.

(** The fallback on a state in which the directory query answers [r]. *)
Lemma search_fallback_run criteria (w : World E) r x :
  hotel_find (Search.location criteria) (ext w) = (r, x) ->
  search_fallback criteria w
  = match r with
    | Ok (d :: docs) =>
        (Ok (Result.mk
               (map (fun hotel => Detailed (formatHotelDetails (toObject hotel)))
                  (firstn 20 (d :: docs)))
               (Z.of_nat (List.length (firstn 20 (d :: docs))))
               SourceFallback None),
         {| cache := cache w; ext := x |})
    | _ => (Throw inventory_unavailable, {| cache := cache w; ext := x |})
    end.
Proof.
  intros Hfind. unfold search_fallback, bind.
  rewrite searchHotelsFromDatabase_run, Hfind.
  destruct r as [[|d docs]|m]; reflexivity.
Qed.

(** The attempt on a cache miss when the inventory call fails. *)
Lemma search_attempt_api_failure criteria (w w1 : World E) m x :
  HotelSearchCache_findValidCache (search_params criteria) w = (Ok None, w1) ->
  tss_post (search_payload criteria) (ext w1) = (Throw m, x) ->
  search_attempt criteria w = (Throw m, {| cache := cache w1; ext := x |}).
Proof.
  intros Hmiss Hpost. unfold search_attempt, bind at 1. rewrite Hmiss.
  unfold bind, now, call. simpl. rewrite Hpost. reflexivity.
Qed.

Lemma recordHit_keeps_results tz now docs e :
  results (fst (recordHit tz now docs e)) = results e.
Proof.
  unfold recordHit, save, pre_save; simpl.
  destruct (Params.checkOut (searchParams e)) as [checkOut|]; simpl;
    [destruct (checkOut <? _)%Z|]; reflexivity.
Qed.

Lemma updateOrCreateHotel_never_throws formattedHotel (w : World E) :
  exists w', updateOrCreateHotel formattedHotel w = (Ok tt, w').
Proof.
  unfold updateOrCreateHotel, try_catch, bind, now, call, ret. simpl.
  destruct (hotel_findOneAndUpdate _ (ext w)) as [[[]|m] x];
    eexists; reflexivity.
Qed.

Lemma for_each_never_throws {A} (f : A -> M E unit) (xs : list A) :
  (forall x w, exists w', f x w = (Ok tt, w')) ->
  forall w, exists w', for_each f xs w = (Ok tt, w').
Proof.
  intros Hf. induction xs as [|x xs IH]; intros w; simpl.
  - eexists; reflexivity.
  - unfold bind. destruct (Hf x w) as [w1 ->]. apply IH.
Qed.

Lemma updateOrCreateHotels_never_throws formattedHotels (w : World E) :
  exists w', updateOrCreateHotels formattedHotels w = (Ok tt, w').
Proof.
  unfold updateOrCreateHotels, try_catch.
  destruct (for_each_never_throws updateOrCreateHotel formattedHotels
              updateOrCreateHotel_never_throws w) as [w' ->].
  eexists; reflexivity.
Qed.

(** C1. [searchHotels] goes through the cache, the inventory service and
    the directory in this order.  A valid cache entry whose hit is
    recorded gives its results tagged [cache].  On a cache miss, a
    successful inventory call with hotels whose results are cached gives
    the formatted hotels tagged [api].  On a cache miss, when the
    inventory call fails, the directory is queried by location: a
    non-empty answer is returned, formatted, tagged [fallback]; an empty
    answer (or a failed query) makes the call fail with the
    inventory-unavailable error and never gives an empty success. *)
Theorem searchHotels_fallback_chain :
  forall (criteria : Search.t) (w : World E),
    (forall cached w1 cached' w2,
        HotelSearchCache_findValidCache (search_params criteria) w
        = (Ok (Some cached), w1) ->
        CacheEntry_recordHit cached w1 = (Ok cached', w2) ->
        searchHotels criteria w
        = (Ok (Result.mk (map Listed (hotels (results cached)))
                 (totalResults (results cached)) SourceCache None), w2))
    /\ (forall w1 response x2 rawHotels stored w3,
          HotelSearchCache_findValidCache (search_params criteria) w
          = (Ok None, w1) ->
          tss_post (search_payload criteria) (ext w1) = (Ok response, x2) ->
          opt_chain (data response) ApiData.hotels = Some rawHotels ->
          HotelSearchCache_createOrUpdateCache (search_params criteria)
            {| hotels := formatHotelResults rawHotels;
               totalResults :=
                 js_or_default (opt_chain (data response) ApiData.totalResults)
                   (Z.of_nat (List.length (formatHotelResults rawHotels)));
               searchTimestamp := clock x2 |}
            2 {| cache := cache w1; ext := x2 |} = (Ok stored, w3) ->
          exists w4,
            searchHotels criteria w
            = (Ok (Result.mk (map Listed (formatHotelResults rawHotels))
                     (js_or_default (opt_chain (data response) ApiData.totalResults)
                        (Z.of_nat (List.length (formatHotelResults rawHotels))))
                     SourceApi (Some (clock x2 - clock (ext w1))%Z)), w4))
    /\ (forall w1 m x2 r x3,
          HotelSearchCache_findValidCache (search_params criteria) w
          = (Ok None, w1) ->
          tss_post (search_payload criteria) (ext w1) = (Throw m, x2) ->
          hotel_find (Search.location criteria) x2 = (r, x3) ->
          searchHotels criteria w
          = match r with
            | Ok (d :: docs) =>
                (Ok (Result.mk
                       (map (fun hotel => Detailed (formatHotelDetails (toObject hotel)))
                          (firstn 20 (d :: docs)))
                       (Z.of_nat (List.length (firstn 20 (d :: docs))))
                       SourceFallback None),
                 {| cache := cache w1; ext := x3 |})
            | _ =>
                (Throw inventory_unavailable, {| cache := cache w1; ext := x3 |})
            end).
Proof.
  intros criteria w. split; [|split].
  - intros cached w1 cached' w2 Hhit Hrec.
    unfold searchHotels, try_catch, search_attempt, bind at 1. rewrite Hhit.
    unfold bind. rewrite Hrec. unfold ret.
    assert (Hres : results cached' = results cached).
    { revert Hrec. unfold CacheEntry_recordHit, bind, now, local_timezone,
        get_cache, put_cache, cache_roundtrip, call, ret. simpl.
      destruct (cache_fault Save (ext w1)) as [[m|] x]; [discriminate|].
      simpl. intros Heq. injection Heq as <- _.
      exact (recordHit_keeps_results (timezone (ext w1)) (clock (ext w1))
               (cache w1) cached). }
    rewrite Hres. reflexivity.
  - intros w1 response x2 rawHotels stored w3 Hmiss Hpost Hhotels Hstore.
    destruct (updateOrCreateHotels_never_throws (formatHotelResults rawHotels) w3)
      as [w4 Hupsert].
    exists w4.
    unfold searchHotels, try_catch, search_attempt, bind at 1. rewrite Hmiss.
    unfold bind at 1, now at 1. unfold bind at 1, call at 1. rewrite Hpost.
    unfold bind at 1, now at 1. cbn [ext cache]. rewrite Hhotels.
    unfold bind at 1, now at 1. cbn [ext cache].
    unfold bind at 1. rewrite Hstore.
    unfold bind at 1. rewrite Hupsert. reflexivity.
  - intros w1 m x2 r x3 Hmiss Hpost Hfind.
    unfold searchHotels, try_catch.
    rewrite (search_attempt_api_failure criteria w Hmiss Hpost).
    exact (search_fallback_run criteria {| cache := cache w1; ext := x2 |} Hfind).
Qed.

End Chain.

(** C10. [searchHotelsFromDatabase] never throws: it always returns a
    result, and when the directory query fails the result is
    [{ hotels: [], total: 0 }].  So the only error [searchHotels] ever
    throws is the inventory-unavailable one; in particular, when the
    inventory call and the directory query both fail, the message of the
    database error is not what the caller sees. *)
Theorem searchHotelsFromDatabase_never_fails :
  forall (E : Type) (B : Backend E) (w : World E),
    (forall location checkIn checkOut,
        exists r w', searchHotelsFromDatabase location checkIn checkOut w = (Ok r, w'))
    /\ (forall location checkIn checkOut m x,
          hotel_find location (ext w) = (Throw m, x) ->
          searchHotelsFromDatabase location checkIn checkOut w
          = (Ok (DbResult.mk [] 0), {| cache := cache w; ext := x |}))
    /\ (forall criteria m w',
          searchHotels criteria w = (Throw m, w') -> m = inventory_unavailable)
    /\ (forall criteria w1 m1 x2 m2 x3,
          HotelSearchCache_findValidCache (search_params criteria) w
          = (Ok None, w1) ->
          tss_post (search_payload criteria) (ext w1) = (Throw m1, x2) ->
          hotel_find (Search.location criteria) x2 = (Throw m2, x3) ->
          searchHotels criteria w
          = (Throw inventory_unavailable, {| cache := cache w1; ext := x3 |})).
Proof.
  intros E B w. split; [|split; [|split]].
  - intros location checkIn checkOut.
    apply searchHotelsFromDatabase_never_throws.
  - intros location checkIn checkOut m x Hfind.
    rewrite searchHotelsFromDatabase_run, Hfind. reflexivity.
  - intros criteria m w'. apply searchHotels_throws_only_generic.
  - intros criteria w1 m1 x2 m2 x3 Hmiss Hpost Hfind.
    unfold searchHotels, try_catch.
    rewrite (search_attempt_api_failure criteria w Hmiss Hpost).
    exact (search_fallback_run criteria {| cache := cache w1; ext := x2 |} Hfind).
Qed.

Lemma searchHotels_fallback_chain_witness :
  searchHotels paris_search
    (scripted_world api_timeout (Ok [hotel_p]) (Ok tt) no_fault)
  = (Ok (Result.mk [Detailed (formatHotelDetails (toObject hotel_p))] 1
           SourceFallback None),
     scripted_world api_timeout (Ok [hotel_p]) (Ok tt) no_fault)
  /\ searchHotels paris_search
       (scripted_world api_timeout (Ok []) (Ok tt) no_fault)
     = (Throw inventory_unavailable,
        scripted_world api_timeout (Ok []) (Ok tt) no_fault).
Proof.
  split.
  - set (w := scripted_world api_timeout (Ok [hotel_p]) (Ok tt) no_fault).
    exact (proj2 (proj2 (searchHotels_fallback_chain paris_search w))
             w "timeout of 30000ms exceeded" (ext w) (Ok [hotel_p]) (ext w)
             eq_refl eq_refl eq_refl).
  - set (w := scripted_world api_timeout (Ok []) (Ok tt) no_fault).
    exact (proj2 (proj2 (searchHotels_fallback_chain paris_search w))
             w "timeout of 30000ms exceeded" (ext w) (Ok []) (ext w)
             eq_refl eq_refl eq_refl).
Defined.

Lemma searchHotelsFromDatabase_never_fails_witness :
  searchHotels paris_search
    (scripted_world api_timeout (Throw "pool destroyed") (Ok tt) no_fault)
  = (Throw inventory_unavailable,
     scripted_world api_timeout (Throw "pool destroyed") (Ok tt) no_fault).
Proof.
  set (w := scripted_world api_timeout (Throw "pool destroyed") (Ok tt) no_fault).
  exact (proj2 (proj2 (proj2 (@searchHotelsFromDatabase_never_fails Script Scripted w)))
           paris_search w "timeout of 30000ms exceeded" (ext w)
           "pool destroyed" (ext w) eq_refl eq_refl eq_refl).
Defined.

(** ** Failures while the results are persisted *)

(** C3 on the code.  The inventory service answers with one hotel.
    When nothing fails, and when every directory upsert fails, the call
    returns that hotel tagged [api].  When the cache write fails, the call
    does not: with an empty directory it fails with the
    inventory-unavailable error, and with a hotel in the directory it
    returns the directory's hotel tagged [fallback]. *)
Theorem searchHotels_cache_write_failure_changes_response :
  let rawHotels := [raw_named "b" "Hotel B" (Some 5)] in
  let from_api :=
    Ok (Result.mk (map Listed (formatHotelResults rawHotels)) 1 SourceApi (Some 0%Z)) in
  fst (searchHotels paris_search
         (scripted_world (api_answer rawHotels) (Ok []) (Ok tt) no_fault))
  = from_api
  /\ fst (searchHotels paris_search
            (scripted_world (api_answer rawHotels) (Ok [])
               (Throw "validation failed") no_fault))
     = from_api
  /\ fst (searchHotels paris_search
            (scripted_world (api_answer rawHotels) (Ok []) (Ok tt) write_fault))
     = Throw inventory_unavailable
  /\ fst (searchHotels paris_search
            (scripted_world (api_answer rawHotels) (Ok [hotel_p]) (Ok tt) write_fault))
     = Ok (Result.mk [Detailed (formatHotelDetails (toObject hotel_p))] 1
             SourceFallback None).
Proof.
  vm_compute. repeat split; reflexivity.
Qed.

(** ** Matching a hotel by name *)

Lemma startsWith_spec s t :
  startsWith s t = true <-> exists r, s = (t ++ r)%string.
Proof.
  revert s. induction t as [|b t IH]; intros s; simpl.
  - split; [intros _; exists s; reflexivity | reflexivity].
  - destruct s as [|a s].
    + split; [discriminate | intros [r Hr]; discriminate].
    + rewrite andb_true_iff, Ascii.eqb_eq, IH. split.
      * intros [-> [r ->]]. exists r. reflexivity.
      * intros [r Hr]. injection Hr as -> ->. split; [reflexivity|].
        exists r. reflexivity.
Qed.

Lemma includes_spec s t : includes s t = true <-> contains s t.
Proof.
  unfold contains. induction s as [|a s IH].
  - simpl. rewrite orb_false_r, startsWith_spec. split.
    + intros [r Hr]. exists ""%string, r. exact Hr.
    + intros [l [r Hr]]. destruct l; [exists r; exact Hr|discriminate].
  - change (includes (String a s) t)
      with (startsWith (String a s) t || includes s t).
    rewrite orb_true_iff, startsWith_spec, IH. split.
    + intros [[r Hr]|[l [r Hr]]].
      * exists ""%string, r. exact Hr.
      * exists (String a l), r. simpl. rewrite Hr. reflexivity.
    + intros [l [r Hr]]. destruct l as [|c l]; simpl in Hr.
      * left. exists r. exact Hr.
      * right. injection Hr as -> ->. exists l, r. reflexivity.
Qed.

Lemma find_exc_on_names (p : ResultHotel -> Exc bool) (f : string -> bool) hotels :
  (forall h, In h hotels -> hotel_name h <> None) ->
  (forall h n, hotel_name h = Some n -> p h = Ok (f (toLowerCase n))) ->
  find_exc p hotels = Ok (find (on_name f) hotels).
Proof.
  intros Hnames Hp. induction hotels as [|h rest IH]; simpl; [reflexivity|].
  destruct (hotel_name h) as [n|] eqn:Hn.
  - rewrite (Hp h n Hn). simpl. unfold on_name at 1. rewrite Hn.
    destruct (f (toLowerCase n)); [reflexivity|].
    apply IH. intros x Hx. apply Hnames. simpl; auto.
  - exfalso. exact (Hnames h (or_introl eq_refl) Hn).
Qed.

Lemma same_name_on_name hotelName h n :
  hotel_name h = Some n ->
  same_name hotelName h
  = Ok ((fun l => String.eqb l (toLowerCase hotelName)) (toLowerCase n)).
Proof. intros Hn. unfold same_name, lower_name. rewrite Hn. reflexivity. Qed.

Lemma similar_name_on_name hotelName h n :
  hotel_name h = Some n ->
  similar_name hotelName h
  = Ok ((fun l => includes l (toLowerCase hotelName)
                  || includes (toLowerCase hotelName) l) (toLowerCase n)).
Proof. intros Hn. unfold similar_name, lower_name. rewrite Hn. reflexivity. Qed.

Lemma exact_match_spec hotelName h :
  exact_match hotelName h
  <-> exists n, hotel_name h = Some n /\ toLowerCase n = toLowerCase hotelName.
Proof.
  unfold exact_match. split; intros [n [Hn Heq]]; exists n; split;
    try exact Hn; apply equal_ignoring_case_spec; exact Heq.
Qed.

Lemma partial_match_spec hotelName h :
  partial_match hotelName h
  <-> exists n, hotel_name h = Some n
                /\ (contains (toLowerCase n) (toLowerCase hotelName)
                    \/ contains (toLowerCase hotelName) (toLowerCase n)).
Proof.
  unfold partial_match. split.
  - intros [n [ln [lw [Hn [Hln [Hlw Hc]]]]]].
    apply lower_case_of_spec in Hln, Hlw. subst ln lw. exists n. auto.
  - intros [n [Hn Hc]]. exists n, (toLowerCase n), (toLowerCase hotelName).
    split; [exact Hn|]. split; [apply lower_case_of_spec; reflexivity|].
    split; [apply lower_case_of_spec; reflexivity|exact Hc].
Qed.

Lemma on_name_exact hotelName h :
  on_name (fun l => String.eqb l (toLowerCase hotelName)) h = true
  <-> exact_match hotelName h.
Proof.
  rewrite exact_match_spec. unfold on_name. destruct (hotel_name h) as [n|].
  - rewrite String.eqb_eq. split.
    + intros Heq. exists n. auto.
    + intros [n' [Hn Heq]]. injection Hn as <-. exact Heq.
  - split; [discriminate|]. intros [n [Hn _]]. discriminate.
Qed.

Lemma on_name_partial hotelName h :
  on_name (fun l => includes l (toLowerCase hotelName)
                    || includes (toLowerCase hotelName) l) h = true
  <-> partial_match hotelName h.
Proof.
  rewrite partial_match_spec. unfold on_name. destruct (hotel_name h) as [n|].
  - rewrite orb_true_iff, !includes_spec. split.
    + intros Hc. exists n. auto.
    + intros [n' [Hn Hc]]. injection Hn as <-. exact Hc.
  - split; [discriminate|]. intros [n [Hn _]]. discriminate.
Qed.

Lemma find_none_iff {A} (p : A -> bool) (P : A -> Prop) l :
  (forall x, p x = true <-> P x) ->
  find p l = None -> ~ exists x, In x l /\ P x.
Proof.
  intros HpP Hnone [x [Hin HP]].
  pose proof (find_none _ _ Hnone x Hin) as Hf.
  apply HpP in HP. congruence.
Qed.

(** Closes the conjuncts of a classification once the two searches are
    decided. *)
Ltac classify_case :=
  repeat split; intros; try discriminate;
  repeat match goal with
         | H : Some _ = Some _ |- _ => injection H as <-
         | H : _ /\ _ |- _ => destruct H
         end;
  try contradiction; try congruence; try tauto; auto.

Lemma match_by_name_classifies hotels hotelName :
  (forall h, In h hotels -> hotel_name h <> None) ->
  exists r,
    match_by_name hotels hotelName = Ok r
    /\ (NameMatch.confidence r = 1%Q <->
        exists h, In h hotels /\ exact_match hotelName h)
    /\ (NameMatch.confidence r = (8 # 10)%Q <->
        (~ exists h, In h hotels /\ exact_match hotelName h)
        /\ exists h, In h hotels /\ partial_match hotelName h)
    /\ (NameMatch.confidence r = 0%Q <->
        (~ exists h, In h hotels /\ exact_match hotelName h)
        /\ ~ exists h, In h hotels /\ partial_match hotelName h)
    /\ (NameMatch.found r = true <-> NameMatch.confidence r <> 0%Q)
    /\ (forall h, NameMatch.hotel r = Some h ->
          In h hotels
          /\ (NameMatch.confidence r = 1%Q -> exact_match hotelName h)
          /\ (NameMatch.confidence r = (8 # 10)%Q -> partial_match hotelName h)).
Proof.
  intros Hnames. unfold match_by_name.
  rewrite (find_exc_on_names (same_name hotelName) _ hotels Hnames
             (same_name_on_name hotelName)).
  simpl.
  destruct (find _ hotels) as [h|] eqn:Hexact.
  - apply find_some in Hexact. destruct Hexact as [Hin Hp].
    apply on_name_exact in Hp.
    eexists. split; [reflexivity|]. simpl.
    assert (Hex : exists x, In x hotels /\ exact_match hotelName x)
      by (exists h; auto).
    classify_case.
  - pose proof (find_none_iff _ _ hotels (on_name_exact hotelName) Hexact) as Hno.
    rewrite (find_exc_on_names (similar_name hotelName) _ hotels Hnames
               (similar_name_on_name hotelName)).
    simpl.
    destruct (find (on_name (fun l => includes l (toLowerCase hotelName)
                                      || includes (toLowerCase hotelName) l))
                hotels) as [h|] eqn:Hpartial.
    + apply find_some in Hpartial. destruct Hpartial as [Hin Hp].
      apply on_name_partial in Hp.
      eexists. split; [reflexivity|]. simpl.
      assert (Hex : exists x, In x hotels /\ partial_match hotelName x)
        by (exists h; auto).
      classify_case.
    + pose proof (find_none_iff _ _ hotels (on_name_partial hotelName) Hpartial)
        as Hnop.
      eexists. split; [reflexivity|]. simpl.
      classify_case.
Qed.

Lemma searchHotelByName_run {E} `{Backend E}
    hotelName location checkIn checkOut (w w1 : World E) searchResults r :
  searchHotels (Search.mk location checkIn checkOut None None) w
  = (Ok searchResults, w1) ->
  match_by_name (Result.hotels searchResults) hotelName = Ok r ->
  searchHotelByName hotelName location checkIn checkOut w = (Ok r, w1).
Proof.
  intros Hsearch Hmatch.
  unfold searchHotelByName, try_catch, bind, lift_exc.
  rewrite Hsearch, Hmatch. reflexivity.
Qed.

Lemma searchHotelByName_throw {E} `{Backend E}
    hotelName location checkIn checkOut (w w1 : World E) searchResults m :
  searchHotels (Search.mk location checkIn checkOut None None) w
  = (Ok searchResults, w1) ->
  match_by_name (Result.hotels searchResults) hotelName = Throw m ->
  searchHotelByName hotelName location checkIn checkOut w
  = (Throw ("Failed to search hotel by name: " ++ m), w1).
Proof.
  intros Hsearch Hmatch.
  unfold searchHotelByName, try_catch, bind, lift_exc, throw.
  rewrite Hsearch, Hmatch. reflexivity.
Qed.

Lemma same_name_true hotelName h :
  same_name hotelName h = Ok true -> exact_match hotelName h.
Proof.
  unfold same_name, lower_name. intros Hs. apply exact_match_spec.
  destruct (hotel_name h) as [n|]; [|discriminate].
  simpl in Hs. injection Hs as Hs. apply String.eqb_eq in Hs.
  exists n. auto.
Qed.

Lemma same_name_of_exact hotelName h :
  exact_match hotelName h -> same_name hotelName h = Ok true.
Proof.
  intros Hm. apply exact_match_spec in Hm. destruct Hm as [n [Hn Heq]].
  unfold same_name, lower_name. rewrite Hn. simpl.
  rewrite (proj2 (String.eqb_eq _ _) Heq). reflexivity.
Qed.

Lemma same_name_of_other hotelName h :
  hotel_name h <> None -> ~ exact_match hotelName h ->
  same_name hotelName h = Ok false.
Proof.
  intros Hn Hno. unfold same_name, lower_name.
  destruct (hotel_name h) as [n|] eqn:Hname; [|congruence]. simpl.
  destruct (String.eqb (toLowerCase n) (toLowerCase hotelName)) eqn:Heq;
    [|reflexivity].
  exfalso. apply Hno. apply exact_match_spec. exists n.
  apply String.eqb_eq in Heq. auto.
Qed.

(** The first hotel that has no name or matches exactly decides the first
    search: a hotel without a name makes it throw. *)
Lemma match_by_name_nameless_first hotelName before h after :
  hotel_name h = None ->
  (forall x, In x before -> ~ exact_match hotelName x) ->
  match_by_name (before ++ h :: after) hotelName = Throw no_toLowerCase.
Proof.
  intros Hnone Hbefore. unfold match_by_name.
  assert (Hfind : find_exc (same_name hotelName) (before ++ h :: after)
                  = Throw no_toLowerCase).
  { induction before as [|x before IH]; simpl.
    - unfold same_name, lower_name. rewrite Hnone. reflexivity.
    - destruct (same_name hotelName x) as [[|]|m] eqn:Hx; simpl.
      + exfalso. apply (Hbefore x); [simpl; auto|].
        apply same_name_true. exact Hx.
      + apply IH. intros y Hy. apply Hbefore. simpl; auto.
      + unfold same_name, lower_name in Hx.
        destruct (hotel_name x); simpl in Hx; [discriminate|].
        injection Hx as <-. reflexivity. }
  rewrite Hfind. reflexivity.
Qed.

Lemma match_by_name_exact_first hotelName before h after :
  exact_match hotelName h ->
  (forall x, In x before -> hotel_name x <> None /\ ~ exact_match hotelName x) ->
  match_by_name (before ++ h :: after) hotelName
  = Ok (NameMatch.mk true (Some h) 1).
Proof.
  intros Hexact Hbefore. unfold match_by_name.
  assert (Hfind : find_exc (same_name hotelName) (before ++ h :: after)
                  = Ok (Some h)).
  { induction before as [|x before IH]; simpl.
    - rewrite (same_name_of_exact Hexact). reflexivity.
    - destruct (Hbefore x (or_introl eq_refl)) as [Hn Hno].
      rewrite (same_name_of_other Hn Hno). simpl.
      apply IH. intros y Hy. apply Hbefore. simpl; auto. }
  rewrite Hfind. reflexivity.
Qed.

(** C8, as stated, fails on a result list with a hotel that has no name:
    with a nameless hotel before one named "Ritz", the name "Ritz" equals
    a result's name, yet [searchHotelByName] throws (the TypeError of
    [hotel.name.toLowerCase()], wrapped) where the claim has it found with
    confidence 1.0. *)
Lemma searchHotelByName_nameless_counterexample :
  let ritz := raw_named "r" "Ritz" (Some 5%Q) in
  let hotels := [Listed (formatHotelResult (raw_nameless "n"));
                 Listed (formatHotelResult ritz)] in
  fst (searchHotels paris_search (healthy_world [raw_nameless "n"; ritz] []))
  = Ok (Result.mk hotels 2 SourceApi (Some 0%Z))
  /\ (exists h, In h hotels /\ exact_match "Ritz" h)
  /\ fst (searchHotelByName "Ritz" "Paris" (Some june_1) (Some june_3)
            (healthy_world [raw_nameless "n"; ritz] []))
     = Throw "Failed to search hotel by name: Cannot read properties of undefined (reading 'toLowerCase')".
Proof.
  intros ritz hotels. split; [vm_compute; reflexivity|].
  split; [|vm_compute; reflexivity].
  exists (Listed (formatHotelResult ritz)). split; [simpl; auto|].
  apply exact_match_spec. exists "Ritz"%string. split; reflexivity.
Qed.

(** C8, amended.  [searchHotelByName] matches a hotel name against the
    result of [searchHotels], hotel by hotel.  Lower case is that of the
    table of letters, and two names are equal case apart when their lower
    cases are equal.  When every hotel of the result has a name: found
    with confidence 1.0 exactly when some result's name equals the name
    case apart; otherwise found with confidence 0.8 exactly when some
    result's lower-cased name contains the lower-cased name or is
    contained in it; otherwise not found, with confidence 0; the hotel
    returned is a result that matches in the way the confidence says.
    When some hotels have no name, the first hotel that has no name or
    matches exactly decides: an exact match is returned with confidence
    1.0, a hotel without a name makes the call throw 'Failed to search
    hotel by name: Cannot read properties of undefined (reading
    'toLowerCase')'.  "Grand Hotel Paris" against a result named "The
    Grand Hotel Paris" is found with confidence 0.8, and
    [verifyRecommendedHotels] reports it verified with that confidence. *)
Theorem searchHotelByName_classifies :
  (forall (E : Type) (B : Backend E)
      (hotelName location : string) (checkIn checkOut : JsDate)
      (w w1 : World E) (searchResults : Result.t),
      searchHotels (Search.mk location checkIn checkOut None None) w
      = (Ok searchResults, w1) ->
      (forall h, In h (Result.hotels searchResults) -> hotel_name h <> None) ->
      exists r,
        searchHotelByName hotelName location checkIn checkOut w = (Ok r, w1)
        /\ (NameMatch.confidence r = 1%Q <->
            exists h, In h (Result.hotels searchResults) /\ exact_match hotelName h)
        /\ (NameMatch.confidence r = (8 # 10)%Q <->
            (~ exists h, In h (Result.hotels searchResults) /\ exact_match hotelName h)
            /\ exists h, In h (Result.hotels searchResults)
                         /\ partial_match hotelName h)
        /\ (NameMatch.confidence r = 0%Q <->
            (~ exists h, In h (Result.hotels searchResults) /\ exact_match hotelName h)
            /\ ~ exists h, In h (Result.hotels searchResults)
                           /\ partial_match hotelName h)
        /\ (NameMatch.found r = true <-> NameMatch.confidence r <> 0%Q)
        /\ (forall h, NameMatch.hotel r = Some h ->
              In h (Result.hotels searchResults)
              /\ (NameMatch.confidence r = 1%Q -> exact_match hotelName h)
              /\ (NameMatch.confidence r = (8 # 10)%Q -> partial_match hotelName h)))
  /\ (forall (E : Type) (B : Backend E)
        (hotelName location : string) (checkIn checkOut : JsDate)
        (w w1 : World E) (searchResults : Result.t)
        (before after : list ResultHotel) (h : ResultHotel),
        searchHotels (Search.mk location checkIn checkOut None None) w
        = (Ok searchResults, w1) ->
        Result.hotels searchResults = (before ++ h :: after)%list ->
        (forall x, In x before ->
           hotel_name x <> None /\ ~ exact_match hotelName x) ->
        (exact_match hotelName h ->
         searchHotelByName hotelName location checkIn checkOut w
         = (Ok (NameMatch.mk true (Some h) 1%Q), w1))
        /\ (hotel_name h = None ->
            searchHotelByName hotelName location checkIn checkOut w
            = (Throw ("Failed to search hotel by name: " ++ no_toLowerCase), w1)))
  /\ (forall s : string,
        lower_case_of s (toLowerCase s)
        /\ forall c, In c (list_ascii_of_string (toLowerCase s)) ->
                     ~ In c upper_case_letters)
  /\ fst (searchHotelByName "Grand Hotel Paris" "Paris" (Some june_1) (Some june_3)
            (healthy_world [the_grand_hotel] []))
     = Ok (NameMatch.mk true (Some (Listed (formatHotelResult the_grand_hotel)))
             (8 # 10)%Q)
  /\ fst (verifyRecommendedHotels [Recommended.mk "Grand Hotel Paris" None]
            "Paris" (Some june_1) (Some june_3)
            (healthy_world [the_grand_hotel] []))
     = Ok (Verification.mk
             [ {| v_original := Recommended.mk "Grand Hotel Paris" None;
                  v_verified := Some (Listed (formatHotelResult the_grand_hotel));
                  v_status := "verified";
                  v_confidence := (8 # 10)%Q |} ]
             [] []).
Proof.
  split; [|split; [|split; [|split; vm_compute; reflexivity]]].
  - intros E B hotelName location checkIn checkOut w w1 searchResults Hsearch Hnames.
    destruct (match_by_name_classifies _ hotelName Hnames) as [r [Hr Hclass]].
    exists r. split; [|exact Hclass].
    exact (searchHotelByName_run hotelName _ _ _ _ Hsearch Hr).
  - intros E B hotelName location checkIn checkOut w w1 searchResults
      before after h Hsearch Hhotels Hbefore.
    split.
    + intros Hexact.
      apply (searchHotelByName_run hotelName _ _ _ _ Hsearch).
      rewrite Hhotels. apply match_by_name_exact_first; assumption.
    + intros Hnone.
      apply (searchHotelByName_throw hotelName _ _ _ _ Hsearch).
      rewrite Hhotels. apply match_by_name_nameless_first; [exact Hnone|].
      intros x Hx. exact (proj2 (Hbefore x Hx)).
  - intros s. split; [apply lower_case_of_spec; reflexivity|].
    induction s as [|a s IH]; simpl; [intros c []|].
    intros c [<-|Hin]; [|exact (IH c Hin)].
    intros Hup.
    assert (Ht : existsb (Ascii.eqb (lower_char a)) upper_case_letters = true).
    { apply existsb_exists. exists (lower_char a).
      split; [exact Hup|apply Ascii.eqb_refl]. }
    pose proof (proj1 (forallb_forall _ _) lower_char_not_upper a (in_all_chars _))
      as Ha.
    cbv beta in Ha. rewrite Ht in Ha. discriminate.
Qed.

Lemma searchHotelByName_classifies_witness :
  exists r,
    searchHotelByName "Grand Hotel Paris" "Paris" (Some june_1) (Some june_3)
      (healthy_world [the_grand_hotel] [])
    = (Ok r,
       snd (searchHotels paris_search (healthy_world [the_grand_hotel] [])))
    /\ NameMatch.confidence r = (8 # 10)%Q
    /\ NameMatch.found r = true.
Proof.
  destruct (proj1 searchHotelByName_classifies Script Scripted
              "Grand Hotel Paris" "Paris" (Some june_1) (Some june_3)
              (healthy_world [the_grand_hotel] [])
              (snd (searchHotels paris_search (healthy_world [the_grand_hotel] [])))
              (Result.mk [Listed (formatHotelResult the_grand_hotel)] 1
                 SourceApi (Some 0%Z)))
    as [r [Hrun [_ [Hpartial [_ [Hfound _]]]]]].
  - vm_compute. reflexivity.
  - intros h [<-|[]]. vm_compute. discriminate.
  - exists r. split; [exact Hrun|].
    assert (Hconf : NameMatch.confidence r = (8 # 10)%Q).
    { apply Hpartial. split.
      - intros [h [[<-|[]] Hm]]. apply exact_match_spec in Hm.
        destruct Hm as [n [Hn Heq]].
        vm_compute in Hn. injection Hn as <-. vm_compute in Heq. discriminate.
      - exists (Listed (formatHotelResult the_grand_hotel)).
        split; [simpl; auto|]. apply partial_match_spec.
        exists "The Grand Hotel Paris"%string. split; [reflexivity|].
        left. exists "the "%string, ""%string. reflexivity. }
    split; [exact Hconf|].
    apply Hfound. rewrite Hconf. discriminate.
Defined.

(** * Further properties of the cache *)

Local Close Scope Q_scope.

Lemma find_app_none {A} (p : A -> bool) l1 l2 :
  find p l1 = None -> find p (l1 ++ l2) = find p l2.
Proof.
  induction l1 as [|x l1 IH]; simpl; [reflexivity|].
  destruct (p x); [discriminate|exact IH].
Qed.

Lemma find_implied {A} (p q : A -> bool) l :
  (forall x, p x = true -> q x = true) ->
  find q l = None -> find p l = None.
Proof.
  intros Hpq. induction l as [|x l IH]; simpl; [reflexivity|].
  destruct (q x) eqn:Hq; [discriminate|].
  destruct (p x) eqn:Hp; [|exact IH].
  apply Hpq in Hp. congruence.
Qed.

Lemma find_filter {A} (p q : A -> bool) l :
  (forall x, p x = true -> q x = true) ->
  find p (filter q l) = find p l.
Proof.
  intros Hpq. induction l as [|x l IH]; simpl; [reflexivity|].
  destruct (q x) eqn:Hq; simpl.
  - destruct (p x); [reflexivity|exact IH].
  - destruct (p x) eqn:Hp; [|exact IH].
    apply Hpq in Hp. congruence.
Qed.

Lemma valid_for_same_key key now e :
  valid_for key now e = true -> String.eqb (searchKey e) key = true.
Proof.
  unfold valid_for. rewrite !andb_true_iff. tauto.
Qed.

Lemma find_update_first key now f docs e0 :
  find (fun e => String.eqb (searchKey e) key) docs = Some e0 ->
  valid_for key now (f e0) = true ->
  find (valid_for key now)
    (update_first (fun e => String.eqb (searchKey e) key) f docs)
  = Some (f e0).
Proof.
  intros Hfind Hvalid. induction docs as [|d docs IH]; simpl in *; [discriminate|].
  destruct (String.eqb (searchKey d) key) eqn:Hd.
  - injection Hfind as ->. simpl. rewrite Hvalid. reflexivity.
  - simpl. destruct (valid_for key now d) eqn:Hv.
    + apply valid_for_same_key in Hv. congruence.
    + apply IH. exact Hfind.
Qed.

Lemma skip_spaces_split s :
  exists l, s = (l ++ skip_spaces s)%string
            /\ all_spaces l
            /\ forall c rest, skip_spaces s = String c rest -> is_space c = false.
Proof.
  induction s as [|a s [l [Hs [Hl Hfirst]]]]; simpl.
  - exists ""%string. split; [reflexivity|]. split; [constructor|discriminate].
  - destruct (is_space a) eqn:Ha.
    + exists (String a l). split; [simpl; congruence|].
      split; [constructor; assumption|exact Hfirst].
    + exists ""%string. split; [reflexivity|]. split; [constructor|].
      intros c rest Heq. injection Heq as <- _. exact Ha.
Qed.

Lemma trim_end_split s :
  exists r, s = (trim_end s ++ r)%string
            /\ all_spaces r
            /\ forall init c, trim_end s = (init ++ String c "")%string ->
                              is_space c = false.
Proof.
  induction s as [|a s [r [Hs [Hr Hlast]]]]; simpl.
  - exists ""%string. split; [reflexivity|]. split; [constructor|].
    intros [|x init] c Heq; discriminate.
  - destruct (trim_end s) as [|b t] eqn:Ht.
    + destruct (is_space a) eqn:Ha.
      * exists (String a r). split; [simpl in *; congruence|].
        split; [constructor; assumption|].
        intros [|x init] c Heq; discriminate.
      * exists r. split; [simpl in *; congruence|]. split; [exact Hr|].
        intros [|x init] c Heq; simpl in Heq.
        -- injection Heq as <-. exact Ha.
        -- injection Heq as _ Heq. destruct init; discriminate.
    + exists r. split; [simpl in *; congruence|]. split; [exact Hr|].
      intros [|x init] c Heq; simpl in Heq; [discriminate|].
      injection Heq as _ Heq. exact (Hlast init c Heq).
Qed.

Lemma trim_end_first s c rest :
  trim_end s = String c rest -> exists rest', s = String c rest'.
Proof.
  destruct s as [|a s]; simpl; [discriminate|].
  destruct (trim_end s); [destruct (is_space a)|]; intros Heq;
    try discriminate; injection Heq as <- _; eauto.
Qed.

Lemma trim_spec s : trimmed_of s (trim s).
Proof.
  unfold trimmed_of, trim.
  destruct (skip_spaces_split s) as [l [Hs [Hl Hfirst]]].
  destruct (trim_end_split (skip_spaces s)) as [r [Ht [Hr Hlast]]].
  split; [|split].
  - exists l, r. split; [|auto]. rewrite <- Ht. exact Hs.
  - intros c rest Heq. destruct (trim_end_first _ Heq) as [rest' Hrest].
    exact (Hfirst c rest' Hrest).
  - exact Hlast.
Qed.

Lemma cast_hotels_stored now counter hotels :
  Forall2 stored_form hotels (cast_hotels now counter hotels).
Proof.
  revert counter. induction hotels as [|h rest IH]; intros counter; simpl.
  - constructor.
  - constructor; [|apply IH].
    unfold stored_form, cast_hotel; simpl. repeat split. discriminate.
Qed.

(** The document [createOrUpdateCache] returns. *)
Lemma createOrUpdateCache_stored docs docs' params res ttlHours now e :
  createOrUpdateCache docs params res ttlHours now = Ok (e, docs') ->
  results e = cast_results now res
  /\ searchParams e = cast_params params.
Proof.
  unfold createOrUpdateCache.
  destruct (generateSearchKey params) as [key|m]; simpl; [|discriminate].
  destruct (find _ docs); intros Heq; injection Heq as <- _; auto.
Qed.

Lemma store_then_lookup :
  forall (docs docs' : list CacheEntry) (params : Params.t)
         (res : CacheResults) (ttlHours now now' : Z) (e : CacheEntry),
    createOrUpdateCache docs params res ttlHours now = Ok (e, docs') ->
    now' < now + ttlHours * msPerHour ->
    findValidCache docs' params now' = Ok (Some e).
Proof.
  intros docs docs' p res ttl now now' e Hstore Hlt.
  unfold createOrUpdateCache in Hstore. unfold findValidCache.
  destruct (generateSearchKey p) as [key|m]; simpl in *; [|discriminate].
  destruct (find (fun e0 => String.eqb (searchKey e0) key) docs) as [e0|] eqn:Hfind;
    injection Hstore as <- <-.
  - f_equal.
    apply find_update_first; [exact Hfind|].
    apply valid_for_spec. simpl. repeat split; auto.
  - f_equal.
    rewrite find_app_none.
    + simpl.
      assert (Hv : valid_for key now'
                     (inserted_cache_entry (fresh_id docs) key (cast_params p)
                        (cast_results now res) (now + ttl * msPerHour) now) = true)
        by (apply valid_for_spec; simpl; repeat split; auto).
      rewrite Hv. reflexivity.
    + apply (find_implied _ _ docs (valid_for_same_key key now')). exact Hfind.
Qed.

(** X1. A lookup after a store finds what was stored, in the form the
    schema gives it: [findValidCache] with the parameters of a
    [createOrUpdateCache], at any time before the expiry the store has
    set, returns the stored entry.  Its hotels are those of the store one
    by one, each with the paths of the cache schema, without a
    description and with an [id] of its own; the total and the search
    timestamp are those of the store; its parameters are those of the
    store with the location trimmed. *)
Theorem createOrUpdateCache_then_findValidCache :
  forall (docs docs' : list CacheEntry) (params : Params.t)
         (res : CacheResults) (ttlHours now now' : Z) (e : CacheEntry),
    createOrUpdateCache docs params res ttlHours now = Ok (e, docs') ->
    now' < now + ttlHours * msPerHour ->
    findValidCache docs' params now' = Ok (Some e)
    /\ Forall2 stored_form (hotels res) (hotels (results e))
    /\ totalResults (results e) = totalResults res
    /\ searchTimestamp (results e) = searchTimestamp res
    /\ trimmed_of (Params.location params) (Params.location (searchParams e))
    /\ Params.checkIn (searchParams e) = Params.checkIn params
    /\ Params.checkOut (searchParams e) = Params.checkOut params
    /\ Params.rooms (searchParams e) = Params.rooms params
    /\ Params.guests (searchParams e) = Params.guests params
    /\ Params.additionalFilters (searchParams e) = Params.additionalFilters params.
Proof.
  intros docs docs' params res ttlHours now now' e Hstore Hlt.
  split; [exact (@store_then_lookup _ _ _ _ _ _ _ _ Hstore Hlt)|].
  destruct (@createOrUpdateCache_stored _ _ _ _ _ _ _ Hstore) as [-> ->].
  simpl. split; [apply cast_hotels_stored|].
  split; [reflexivity|]. split; [reflexivity|].
  split; [apply trim_spec|]. repeat split.
Qed.

Lemma createOrUpdateCache_then_findValidCache_witness :
  match createOrUpdateCache [paris_entry (may_20 - 1)] paris_params
          (no_results may_20) 2 may_20 with
  | Ok (e, docs') =>
      findValidCache docs' paris_params (may_20 + msPerHour) = Ok (Some e)
  | Throw _ => False
  end.
Proof.
  destruct (createOrUpdateCache [paris_entry (may_20 - 1)] paris_params
              (no_results may_20) 2 may_20) as [[e docs']|m] eqn:Hstore.
  - apply (proj1 (@createOrUpdateCache_then_findValidCache
                    _ _ _ _ _ _ (may_20 + msPerHour) _ Hstore eq_refl)).
  - vm_compute in Hstore. discriminate.
Defined.

Lemma signatures_update_first key f docs :
  (forall e, searchKey (f e) = key) ->
  signatures (update_first (fun e => String.eqb (searchKey e) key) f docs)
  = signatures docs.
Proof.
  intros Hf. unfold signatures.
  induction docs as [|d docs IH]; simpl; [reflexivity|].
  destruct (String.eqb (searchKey d) key) eqn:Hd; simpl.
  - apply String.eqb_eq in Hd. rewrite Hf, Hd. reflexivity.
  - rewrite IH. reflexivity.
Qed.

Lemma find_key_in_signatures key docs :
  find (fun e => String.eqb (searchKey e) key) docs = None
  <-> ~ In key (signatures docs).
Proof.
  unfold signatures.
  induction docs as [|d docs IH]; simpl; [tauto|].
  destruct (String.eqb (searchKey d) key) eqn:Hd.
  - apply String.eqb_eq in Hd. split; [discriminate|]. intros Hn. exfalso. auto.
  - apply String.eqb_neq in Hd. rewrite IH. tauto.
Qed.

(** X2. A store never duplicates a signature: when the signature is
    already in the collection the list of signatures is unchanged (the
    entry is overwritten in place), otherwise the signature is appended
    once; so a collection with one entry per signature keeps one entry
    per signature, and the stored signature is in it. *)
Theorem createOrUpdateCache_keeps_signatures_unique :
  forall (docs docs' : list CacheEntry) (searchParams : Params.t)
         (res : CacheResults) (ttlHours now : Z) (e : CacheEntry) (key : string),
    createOrUpdateCache docs searchParams res ttlHours now = Ok (e, docs') ->
    generateSearchKey searchParams = Ok key ->
    (In key (signatures docs) -> signatures docs' = signatures docs)
    /\ (~ In key (signatures docs) -> signatures docs' = signatures docs ++ [key])%list
    /\ In key (signatures docs')
    /\ (NoDup (signatures docs) -> NoDup (signatures docs')).
Proof.
  intros docs docs' p res ttl now e key Hstore Hkey.
  unfold createOrUpdateCache in Hstore. rewrite Hkey in Hstore. simpl in Hstore.
  destruct (find (fun e0 => String.eqb (searchKey e0) key) docs) as [e0|] eqn:Hfind;
    injection Hstore as <- <-.
  - assert (Hin : In key (signatures docs)).
    { apply find_some in Hfind. destruct Hfind as [Hin Heq].
      apply String.eqb_eq in Heq. rewrite <- Heq.
      unfold signatures. apply in_map. exact Hin. }
    rewrite signatures_update_first by reflexivity.
    repeat split; auto. intros Hn. contradiction.
  - apply find_key_in_signatures in Hfind.
    unfold signatures in *. rewrite map_app. simpl.
    repeat split; auto.
    + intros Hin. contradiction.
    + apply in_or_app. right. simpl. auto.
    + intros Hnd. apply NoDup_app; auto.
      * constructor; [simpl; tauto|constructor].
      * intros k Hk [<-|[]]. contradiction.
Qed.

Lemma createOrUpdateCache_keeps_signatures_unique_witness :
  match createOrUpdateCache [paris_entry (may_20 - 1)] paris_params
          (no_results may_20) 2 may_20 with
  | Ok (e, docs') => signatures docs' = ["paris_2025-06-01_2025-06-03_r1_g1"]
  | Throw _ => False
  end.
Proof.
  destruct (createOrUpdateCache [paris_entry (may_20 - 1)] paris_params
              (no_results may_20) 2 may_20) as [[e docs']|m] eqn:Hstore.
  - apply (proj1 (@createOrUpdateCache_keeps_signatures_unique
                    _ _ _ _ _ _ _ "paris_2025-06-01_2025-06-03_r1_g1"
                    Hstore eq_refl)).
    simpl. auto.
  - vm_compute in Hstore. discriminate.
Defined.

Lemma recordHit_effect :
  forall (tz now : Z) (docs : list CacheEntry) (e : CacheEntry),
    let e' := fst (recordHit tz now docs e) in
    let docs' := snd (recordHit tz now docs e) in
    hitCount (cacheMetadata e') = hitCount (cacheMetadata e) + 1
    /\ lastAccessed (cacheMetadata e') = now
    /\ docId e' = docId e
    /\ searchKey e' = searchKey e
    /\ results e' = results e
    /\ expiresAt e' = expiresAt e
    /\ List.length docs' = List.length docs
    /\ (forall d, In d docs -> docId d <> docId e -> In d docs')
    /\ (forall d, In d docs' -> d = e' \/ (In d docs /\ docId d <> docId e))
    /\ (forall c, Params.checkOut (searchParams e) = Some c ->
                  start_of_local_day tz now <= c ->
                  status e' = status e /\ isExpired e' = isExpired e).
Proof.
  intros tz now docs e. unfold recordHit, save. cbn [fst snd].
  set (hit := {| docId := docId e; searchKey := searchKey e;
                 searchParams := searchParams e; results := results e;
                 cacheMetadata :=
                   {| source := source (cacheMetadata e);
                      responseTime := responseTime (cacheMetadata e);
                      apiVersion := apiVersion (cacheMetadata e);
                      hitCount := hitCount (cacheMetadata e) + 1;
                      lastAccessed := now |};
                 expiresAt := expiresAt e; isExpired := isExpired e;
                 status := status e;
                 createdAt := createdAt e; updatedAt := updatedAt e |}).
  assert (Hpre : docId (pre_save tz now hit) = docId e
                 /\ searchKey (pre_save tz now hit) = searchKey e
                 /\ results (pre_save tz now hit) = results e
                 /\ expiresAt (pre_save tz now hit) = expiresAt e
                 /\ cacheMetadata (pre_save tz now hit) = cacheMetadata hit).
  { unfold pre_save. destruct (Params.checkOut (searchParams hit)) as [c|];
      [destruct (c <? _)|]; simpl; auto. }
  destruct Hpre as [Hid [Hkey [Hres [Hexp Hmeta]]]].
  cbn [docId searchKey results expiresAt cacheMetadata].
  rewrite Hid, Hkey, Hres, Hexp, Hmeta. cbn [cacheMetadata hit hitCount lastAccessed].
  repeat split; try reflexivity.
  - apply length_map.
  - intros d Hin Hne. apply in_map_iff. exists d.
    split; [|exact Hin].
    destruct (Nat.eqb (docId d) (docId e)) eqn:Heq; [|reflexivity].
    apply Nat.eqb_eq in Heq. contradiction.
  - intros d Hin. apply in_map_iff in Hin. destruct Hin as [d0 [Hd Hin]].
    destruct (Nat.eqb (docId d0) (docId e)) eqn:Heq.
    + left. symmetry. exact Hd.
    + right. subst d0. apply Nat.eqb_neq in Heq. auto.
  - unfold pre_save. cbn [searchParams hit]. rewrite H.
    destruct (c <? start_of_local_day tz now) eqn:Hlt; [|reflexivity].
    apply Z.ltb_lt in Hlt. lia.
  - unfold pre_save. cbn [searchParams hit]. rewrite H.
    destruct (c <? start_of_local_day tz now) eqn:Hlt; [|reflexivity].
    apply Z.ltb_lt in Hlt. lia.
Qed.

(** X3. Recording a hit adds one to the hit count of the entry, stamps
    the access time, and keeps its identifier, signature, results and
    expiry; in the collection it replaces the documents with that
    identifier and leaves every other document as it is, so the
    collection keeps its size; an entry whose check-out is not before the
    current local day keeps its status and its [isExpired] flag. *)
Theorem recordHit_counts_and_keeps_others :
  forall (tz now : Z) (docs : list CacheEntry) (e : CacheEntry),
    let e' := fst (recordHit tz now docs e) in
    let docs' := snd (recordHit tz now docs e) in
    hitCount (cacheMetadata e') = hitCount (cacheMetadata e) + 1
    /\ lastAccessed (cacheMetadata e') = now
    /\ docId e' = docId e
    /\ searchKey e' = searchKey e
    /\ results e' = results e
    /\ expiresAt e' = expiresAt e
    /\ List.length docs' = List.length docs
    /\ (forall d, In d docs -> docId d <> docId e -> In d docs')
    /\ (forall d, In d docs' -> d = e' \/ (In d docs /\ docId d <> docId e))
    /\ (forall c, Params.checkOut (searchParams e) = Some c ->
                  start_of_local_day tz now <= c ->
                  status e' = status e /\ isExpired e' = isExpired e).
Proof. exact @recordHit_effect. Qed.

Lemma recordHit_counts_and_keeps_others_witness :
  status (fst (recordHit 0 may_20 [paris_entry june_1] (paris_entry june_1)))
  = CacheActive
  /\ hitCount (cacheMetadata
                 (fst (recordHit 0 may_20 [paris_entry june_1] (paris_entry june_1))))
     = 2.
Proof.
  destruct (recordHit_counts_and_keeps_others 0 may_20
              [paris_entry june_1] (paris_entry june_1))
    as [Hcount [_ [_ [_ [_ [_ [_ [_ [_ Hkeep]]]]]]]]].
  split.
  - apply (proj1 (Hkeep june_3 eq_refl ltac:(vm_compute; discriminate))).
  - rewrite Hcount. reflexivity.
Defined.

(** X4. Recording a hit on an entry whose check-out date is before the
    start of the current local day expires it in the store: the saved
    entry has status expired and [isExpired] true, and from then on no
    lookup, for any parameters at any time, returns a document with its
    identifier. *)
Theorem recordHit_expires_past_checkout :
  forall (tz now : Z) (docs : list CacheEntry) (e : CacheEntry) (checkOut : Z),
    Params.checkOut (searchParams e) = Some checkOut ->
    checkOut < start_of_local_day tz now ->
    status (fst (recordHit tz now docs e)) = CacheExpired
    /\ isExpired (fst (recordHit tz now docs e)) = true
    /\ (forall params now' found,
          findValidCache (snd (recordHit tz now docs e)) params now'
          = Ok (Some found) ->
          docId found <> docId e).
Proof.
  intros tz now docs e c Hc Hlt.
  assert (Hexp : status (fst (recordHit tz now docs e)) = CacheExpired
                 /\ isExpired (fst (recordHit tz now docs e)) = true).
  { unfold recordHit, save, pre_save. cbn [fst searchParams]. rewrite Hc.
    apply Z.ltb_lt in Hlt. rewrite Hlt. simpl. auto. }
  destruct Hexp as [Hst Hex]. split; [exact Hst|]. split; [exact Hex|].
  intros params now' found Hfound Hid.
  unfold findValidCache in Hfound.
  destruct (generateSearchKey params) as [key|m]; simpl in Hfound; [|discriminate].
  injection Hfound as Hfound. apply find_some in Hfound.
  destruct Hfound as [Hin Hvalid]. apply valid_for_spec in Hvalid.
  destruct (recordHit_effect tz now docs e)
    as [_ [_ [_ [_ [_ [_ [_ [_ [Hothers _]]]]]]]]].
  destruct (Hothers found Hin) as [->|[_ Hne]]; [|contradiction].
  destruct Hvalid as [_ [Hactive _]]. congruence.
Qed.

Lemma recordHit_expires_past_checkout_witness :
  status (fst (recordHit 0 (june_3 + msPerDay) [paris_entry (june_3 + 2 * msPerDay)]
                 (paris_entry (june_3 + 2 * msPerDay))))
  = CacheExpired.
Proof.
  apply (proj1 (@recordHit_expires_past_checkout 0 (june_3 + msPerDay)
                  [paris_entry (june_3 + 2 * msPerDay)]
                  (paris_entry (june_3 + 2 * msPerDay)) june_3 eq_refl eq_refl)).
Defined.

(** X5. [cleanupExpired] keeps exactly the documents whose expiry has
    not passed, whose status is not expired and whose [isExpired] flag is
    false; in particular a document with status invalid is kept until
    its expiry.  It never changes what a lookup finds: at the time of the
    purge or later, [findValidCache] returns the same on the purged
    collection as on the original one. *)
Theorem cleanupExpired_keeps_lookups :
  forall (docs : list CacheEntry) (now : Z),
    (forall e, In e (cleanupExpired docs now) <->
               In e docs /\ now <= expiresAt e
               /\ status e <> CacheExpired /\ isExpired e = false)
    /\ (forall params now',
          now <= now' ->
          findValidCache (cleanupExpired docs now) params now'
          = findValidCache docs params now').
Proof.
  intros docs now. split.
  - intros e. unfold cleanupExpired. rewrite filter_In.
    rewrite negb_true_iff, !orb_false_iff, Z.ltb_ge.
    assert (Hs : CacheStatus_eqb (status e) CacheExpired = false
                 <-> status e <> CacheExpired).
    { rewrite <- CacheStatus_eqb_eq.
      destruct (CacheStatus_eqb (status e) CacheExpired); split;
        congruence. }
    rewrite Hs. tauto.
  - intros params now' Hle. unfold findValidCache.
    destruct (generateSearchKey params) as [key|m]; simpl; [|reflexivity].
    f_equal. unfold cleanupExpired. apply find_filter.
    intros x Hv. apply valid_for_spec in Hv.
    destruct Hv as [_ [Hact [Hexp Hlt]]].
    assert (Hkeep : (expiresAt x <? now) = false) by (apply Z.ltb_ge; lia).
    rewrite Hact, Hexp, Hkeep. reflexivity.
Qed.

Lemma cleanupExpired_keeps_lookups_witness :
  findValidCache (cleanupExpired [paris_entry june_1] may_20) paris_params june_1
  = findValidCache [paris_entry june_1] paris_params june_1.
Proof.
  apply (proj2 (cleanupExpired_keeps_lookups [paris_entry june_1] may_20)).
  vm_compute. discriminate.
Defined.

(** X6. An entry that was just stored or just hit does not need a
    refresh: [needsRefresh] is false on the entry returned by
    [createOrUpdateCache] or saved by [recordHit] until the threshold
    (one hour when not given) has passed since then; and once an entry
    needs a refresh it needs it at every later time. *)
Theorem needsRefresh_after_write :
  forall (now now' : Z) (threshold : option Z),
    now' <= now + default_to threshold 1 * msPerHour ->
    (forall docs docs' params res ttlHours e,
        createOrUpdateCache docs params res ttlHours now = Ok (e, docs') ->
        needsRefresh now' threshold e = false)
    /\ (forall tz docs e,
          needsRefresh now' threshold (fst (recordHit tz now docs e)) = false)
    /\ (forall e later,
          needsRefresh now' threshold e = true -> now' <= later ->
          needsRefresh later threshold e = true).
Proof.
  intros now now' threshold Hle. split; [|split].
  - intros docs docs' params res ttl e Hstore.
    unfold createOrUpdateCache in Hstore.
    destruct (generateSearchKey params) as [key|m]; simpl in Hstore; [|discriminate].
    destruct (find _ docs); injection Hstore as <- _;
      unfold needsRefresh; simpl;
      apply orb_false_iff; split; apply Z.ltb_ge; lia.
  - intros tz docs e. unfold needsRefresh, recordHit, save. cbn [fst].
    cbn [updatedAt cacheMetadata].
    assert (Hmeta : lastAccessed
                      (cacheMetadata
                         (pre_save tz now
                            {| docId := docId e; searchKey := searchKey e;
                               searchParams := searchParams e; results := results e;
                               cacheMetadata :=
                                 {| source := source (cacheMetadata e);
                                    responseTime := responseTime (cacheMetadata e);
                                    apiVersion := apiVersion (cacheMetadata e);
                                    hitCount := hitCount (cacheMetadata e) + 1;
                                    lastAccessed := now |};
                               expiresAt := expiresAt e; isExpired := isExpired e;
                               status := status e;
                               createdAt := createdAt e; updatedAt := updatedAt e |}))
                    = now).
    { unfold pre_save. cbn [searchParams].
      destruct (Params.checkOut (searchParams e)) as [c|];
        [destruct (c <? _)|]; reflexivity. }
    rewrite Hmeta. apply orb_false_iff; split; apply Z.ltb_ge; lia.
  - intros e later Hneeds Hlater. unfold needsRefresh in *.
    apply orb_true_iff in Hneeds. apply orb_true_iff.
    destruct Hneeds as [H1|H1]; [left|right];
      apply Z.ltb_lt in H1; apply Z.ltb_lt; lia.
Qed.

Lemma needsRefresh_after_write_witness :
  needsRefresh (may_20 + msPerHour) None
    (fst (recordHit 0 may_20 [] (paris_entry june_1))) = false.
Proof.
  apply (proj1 (proj2 (@needsRefresh_after_write may_20 (may_20 + msPerHour) None
                         ltac:(vm_compute; discriminate)))).
Defined.

Lemma sum_Z_app l1 l2 : sum_Z (l1 ++ l2) = sum_Z l1 + sum_Z l2.
Proof.
  unfold sum_Z. induction l1 as [|x l1 IH]; simpl; [reflexivity|].
  rewrite IH. lia.
Qed.

Lemma status_group_totals docs s :
  sum_Z (map StatusStats.count (status_group docs s))
  = Z.of_nat (List.length (with_status s docs))
  /\ sum_Z (map StatusStats.totalHits (status_group docs s))
     = sum_Z (hit_counts (with_status s docs)).
Proof.
  unfold status_group, with_status.
  destruct (filter _ docs) as [|d g]; [split; reflexivity|].
  unfold sum_Z. cbn [map fold_right StatusStats.count StatusStats.totalHits].
  split; lia.
Qed.

Lemma statuses_partition docs :
  Z.of_nat (List.length (with_status CacheActive docs))
  + Z.of_nat (List.length (with_status CacheExpired docs))
  + Z.of_nat (List.length (with_status CacheInvalid docs))
  = Z.of_nat (List.length docs)
  /\ sum_Z (hit_counts (with_status CacheActive docs))
     + sum_Z (hit_counts (with_status CacheExpired docs))
     + sum_Z (hit_counts (with_status CacheInvalid docs))
     = sum_Z (hit_counts docs).
Proof.
  unfold with_status, sum_Z, hit_counts.
  induction docs as [|d docs [IHn IHs]]; [split; reflexivity|].
  cbn [filter]. destruct (status d); cbn [CacheStatus_eqb];
    cbn [List.length map fold_right]; split; lia.
Qed.

Lemma group_by_status_empty docs : group_by_status docs = [] -> docs = [].
Proof.
  intros Hempty. destruct docs as [|d docs]; [reflexivity|].
  exfalso. unfold group_by_status in Hempty. cbn [flat_map] in Hempty.
  unfold status_group in Hempty. cbn [filter] in Hempty.
  destruct (status d); cbn [CacheStatus_eqb] in Hempty;
    repeat match type of Hempty with
           | context [match ?l with [] => _ | _ :: _ => _ end] =>
               destruct l; cbn [app] in Hempty; try discriminate
           end.
Qed.

Lemma status_group_ids docs s :
  map StatusStats._id (status_group docs s)
  = match with_status s docs with [] => [] | _ :: _ => [s] end.
Proof.
  unfold status_group, with_status.
  destruct (filter _ docs); reflexivity.
Qed.

Lemma with_status_nonempty docs s :
  with_status s docs <> [] <-> exists e, In e docs /\ status e = s.
Proof.
  unfold with_status. split.
  - destruct (filter _ docs) as [|e g] eqn:Hf; [congruence|]. intros _.
    assert (Hin : In e (filter (fun e => CacheStatus_eqb (status e) s) docs))
      by (rewrite Hf; simpl; auto).
    apply filter_In in Hin. destruct Hin as [Hin Hs].
    exists e. split; [exact Hin|]. apply CacheStatus_eqb_eq. exact Hs.
  - intros [e [Hin Hs]] Hempty.
    assert (Hf : In e (filter (fun e => CacheStatus_eqb (status e) s) docs)).
    { apply filter_In. split; [exact Hin|]. apply CacheStatus_eqb_eq. exact Hs. }
    rewrite Hempty in Hf. exact Hf.
Qed.

Lemma group_by_status_ids docs :
  NoDup (map StatusStats._id (group_by_status docs))
  /\ forall s, In s (map StatusStats._id (group_by_status docs))
               <-> exists e, In e docs /\ status e = s.
Proof.
  unfold group_by_status. cbn [flat_map]. rewrite app_nil_r, !map_app.
  rewrite !status_group_ids.
  pose proof (with_status_nonempty docs CacheActive) as Ha.
  pose proof (with_status_nonempty docs CacheExpired) as He.
  pose proof (with_status_nonempty docs CacheInvalid) as Hi.
  assert (Hne : forall (A : Type) (l : list A), l <> [] <-> exists x r, l = x :: r).
  { intros A [|x r]; split; try congruence.
    - intros [x [r H]]. discriminate.
    - intros _. eauto. }
  destruct (with_status CacheActive docs) as [|a la];
    destruct (with_status CacheExpired docs) as [|e le];
    destruct (with_status CacheInvalid docs) as [|i li];
    cbn [app];
    (split;
     [ repeat constructor; simpl; intuition discriminate
     | intros s; split;
       [ simpl; intros Hin;
         repeat (destruct Hin as [<-|Hin]);
         try contradiction;
         first [ apply Ha; discriminate
               | apply He; discriminate
               | apply Hi; discriminate ]
       | intros Hex; destruct s; simpl;
         first [ tauto
               | exfalso; apply Ha in Hex; congruence
               | exfalso; apply He in Hex; congruence
               | exfalso; apply Hi in Hex; congruence ] ] ]).
Qed.

(** X7. The cache statistics count every document once: an empty
    collection gives no statistics document, and otherwise
    [getCacheStats] gives one document whose [totalEntries] is the number
    of documents and whose [overallHits] is the sum of their hit counts,
    with exactly one row for every status that some document has and no
    other row, each row with the number of documents of its status and
    the sum of their hit counts. *)
Theorem getCacheStats_totals :
  getCacheStats [] = []
  /\ forall docs : list CacheEntry,
       docs <> [] ->
       exists stats,
         getCacheStats docs = [stats]
         /\ CacheStats.totalEntries stats = Z.of_nat (List.length docs)
         /\ CacheStats.overallHits stats = sum_Z (hit_counts docs)
         /\ NoDup (map StatusStats._id (CacheStats.statusBreakdown stats))
         /\ (forall s,
               In s (map StatusStats._id (CacheStats.statusBreakdown stats))
               <-> exists e, In e docs /\ status e = s)
         /\ (forall row, In row (CacheStats.statusBreakdown stats) ->
               0 < StatusStats.count row
               /\ StatusStats.count row
                  = Z.of_nat (List.length (with_status (StatusStats._id row) docs))
               /\ StatusStats.totalHits row
                  = sum_Z (hit_counts (with_status (StatusStats._id row) docs))).
Proof.
  split; [reflexivity|].
  intros docs Hne. unfold getCacheStats.
  destruct (group_by_status docs) as [|g groups] eqn:Hgroups.
  - apply group_by_status_empty in Hgroups. contradiction.
  - eexists. split; [reflexivity|]. cbn [CacheStats.totalEntries
      CacheStats.overallHits CacheStats.statusBreakdown].
    rewrite <- Hgroups.
    destruct (group_by_status_ids docs) as [Hnodup Hids].
    unfold group_by_status. cbn [flat_map].
    rewrite app_nil_r, !map_app, !sum_Z_app.
    destruct (status_group_totals docs CacheActive) as [Ha1 Ha2].
    destruct (status_group_totals docs CacheExpired) as [He1 He2].
    destruct (status_group_totals docs CacheInvalid) as [Hi1 Hi2].
    destruct (statuses_partition docs) as [Hn Hs].
    split; [lia|]. split; [lia|].
    split.
    { unfold group_by_status in Hnodup. cbn [flat_map] in Hnodup.
      rewrite app_nil_r, !map_app in Hnodup. exact Hnodup. }
    split.
    { intros s. rewrite <- Hids. unfold group_by_status. cbn [flat_map].
      rewrite app_nil_r, !map_app. reflexivity. }
    intros row Hrow.
    assert (Hone : exists s, In row (status_group docs s)).
    { apply in_app_or in Hrow. destruct Hrow as [Hrow|Hrow]; [eauto|].
      apply in_app_or in Hrow. destruct Hrow as [Hrow|Hrow]; eauto. }
    destruct Hone as [s Hin]. unfold status_group in Hin.
    fold (with_status s docs) in Hin.
    destruct (with_status s docs) as [|d g0] eqn:Hw; [contradiction|].
    destruct Hin as [<-|[]]. cbn [StatusStats.count StatusStats._id
      StatusStats.totalHits]. rewrite Hw.
    repeat split; try (cbn [List.length]; lia).
Qed.

Lemma getCacheStats_totals_witness :
  exists stats,
    getCacheStats [paris_entry june_1; paris_entry june_3] = [stats]
    /\ CacheStats.totalEntries stats = 2
    /\ CacheStats.overallHits stats = 2
    /\ map StatusStats._id (CacheStats.statusBreakdown stats) = [CacheActive].
Proof.
  assert (Hne : [paris_entry june_1; paris_entry june_3] <> []) by discriminate.
  destruct (proj2 getCacheStats_totals _ Hne) as [stats [Hstats [Hn [Hh _]]]].
  exists stats. split; [exact Hstats|]. split; [exact Hn|]. split; [exact Hh|].
  vm_compute in Hstats. injection Hstats as <-. reflexivity.
Defined.

(** * Further properties of the directory *)

Lemma last_n_length {A} (n : nat) (xs : list A) :
  List.length (last_n n xs) = Nat.min n (List.length xs).
Proof. unfold last_n. rewrite length_skipn. lia. Qed.

Lemma last_n_suffix {A} (n : nat) (xs : list A) :
  (firstn (List.length xs - n) xs ++ last_n n xs)%list = xs.
Proof. unfold last_n. apply firstn_skipn. Qed.

Lemma last_n_keeps_last {A} (n : nat) (xs : list A) (x : A) :
  (0 < n)%nat ->
  exists front, last_n n (xs ++ [x]) = (front ++ [x])%list.
Proof.
  intros Hn. unfold last_n. rewrite length_app. cbn [List.length].
  rewrite skipn_app.
  replace (List.length xs + 1 - n - List.length xs)%nat with 0%nat by lia.
  exists (skipn (List.length xs + 1 - n) xs). reflexivity.
Qed.

(** X8. The verification history never grows beyond 50 records:
    after [addVerificationRecord] it has one record more than before,
    capped at 50; the new record is its last one; what is dropped is
    dropped from the front (the oldest records); and nothing else of the
    hotel changes. *)
Theorem addVerificationRecord_keeps_last_50 :
  forall (this : Doc.t) (query : string) (score : Q) (ok : bool)
         (method : option VerificationMethod),
    let record := {| originalQuery := query; confidence := score;
                     verified := ok;
                     verificationMethod := default_to method FuzzyMatch |} in
    let after := addVerificationRecord this query score ok method in
    List.length (Doc.verificationHistory after)
    = Nat.min (List.length (Doc.verificationHistory this) + 1) 50
    /\ (exists front, Doc.verificationHistory after = front ++ [record])%list
    /\ (exists dropped,
          Doc.verificationHistory this ++ [record]
          = dropped ++ Doc.verificationHistory after)%list
    /\ with_history after (Doc.verificationHistory this) = with_history this (Doc.verificationHistory this).
Proof.
  intros this query score ok method record after.
  unfold after, addVerificationRecord. fold record.
  cbn [Doc.verificationHistory with_history].
  set (history := (Doc.verificationHistory this ++ [record])%list).
  assert (Hlen : List.length history = (List.length (Doc.verificationHistory this) + 1)%nat).
  { unfold history. rewrite length_app. reflexivity. }
  destruct (50 <? List.length history)%nat eqn:Hover.
  - apply Nat.ltb_lt in Hover. repeat split.
    + rewrite last_n_length. lia.
    + apply last_n_keeps_last. lia.
    + exists (firstn (List.length history - 50) history).
      symmetry. apply last_n_suffix.
  - apply Nat.ltb_ge in Hover. repeat split.
    + lia.
    + exists (Doc.verificationHistory this). reflexivity.
    + exists []. reflexivity.
Qed.

Local Open Scope Q_scope.

Lemma rate_as_fraction (history : list VerificationRecord) :
  history <> [] ->
  success_rate history
  == Z.of_nat (verified_count history) # Pos.of_nat (List.length history).
Proof.
  intros Hne. unfold success_rate, verified_count.
  assert (Hpos : (0 < List.length history)%nat)
    by (destruct history; [congruence|simpl; lia]).
  rewrite (Qmake_Qdiv _ (Pos.of_nat (List.length history))).
  assert (Hz : Z.pos (Pos.of_nat (List.length history))
               = Z.of_nat (List.length history)).
  { destruct (List.length history) as [|n] eqn:Hl; [lia|].
    rewrite <- Hl. rewrite <- (Nat2Pos.id (List.length history)) at 2 by lia.
    rewrite positive_nat_Z. reflexivity. }
  rewrite Hz. reflexivity.
Qed.

Lemma rate_of_doc_as_fraction (this : Doc.t) :
  verificationSuccessRate this
  == Z.of_nat (verified_count (Doc.verificationHistory this))
     # Pos.of_nat (List.length (Doc.verificationHistory this)).
Proof.
  unfold verificationSuccessRate.
  destruct (Doc.verificationHistory this) as [|v vs] eqn:Hh.
  - reflexivity.
  - apply rate_as_fraction. discriminate.
Qed.

Lemma verified_count_le history :
  (verified_count history <= List.length history)%nat.
Proof. apply filter_length_le. Qed.

Lemma verified_count_app h1 h2 :
  verified_count (h1 ++ h2) = (verified_count h1 + verified_count h2)%nat.
Proof.
  unfold verified_count. rewrite filter_app, length_app. reflexivity.
Qed.

(** The history after a push on a history of at most 50 records: the
    length and the number of verified records. *)
Lemma pushed_history_counts (history : list VerificationRecord) (record : VerificationRecord) :
  (List.length history <= 50)%nat ->
  let pushed := (history ++ [record])%list in
  let kept := if (50 <? List.length pushed)%nat then last_n 50 pushed else pushed in
  let one := if verified record then 1%nat else 0%nat in
  (List.length history < 50 /\ List.length kept = List.length history + 1
   /\ verified_count kept = verified_count history + one)%nat
  \/ (List.length history = 50 /\ List.length kept = 50
      /\ exists oldest,
           (oldest <= 1 /\ oldest <= verified_count history
            /\ verified_count kept + oldest = verified_count history + one))%nat.
Proof.
  intros Hle pushed kept one.
  assert (Hone : verified_count [record] = one).
  { unfold verified_count, one. simpl. destruct (verified record); reflexivity. }
  unfold kept, pushed. rewrite length_app. cbn [List.length].
  destruct (50 <? List.length history + 1)%nat eqn:Hover.
  - right. apply Nat.ltb_lt in Hover.
    assert (Hlen : List.length history = 50%nat) by lia.
    split; [exact Hlen|].
    split; [rewrite last_n_length, length_app; cbn [List.length]; lia|].
    destruct history as [|old rest]; [simpl in Hlen; lia|].
    exists (verified_count [old]).
    unfold last_n. rewrite length_app. cbn [List.length].
    replace (S (List.length rest) + 1 - 50)%nat with 1%nat by (simpl in Hlen; lia).
    cbn [app skipn].
    change (old :: rest) with ([old] ++ rest)%list.
    rewrite !verified_count_app, Hone.
    pose proof (verified_count_le [old]) as Hold. simpl in Hold.
    split; [|split]; lia.
  - left. apply Nat.ltb_ge in Hover.
    rewrite verified_count_app, Hone, length_app. cbn [List.length].
    split; [|split]; lia.
Qed.

(** X9. On a hotel whose history has at most 50 records (which
    [addVerificationRecord] maintains), recording a successful
    verification never lowers the popularity score and recording a failed
    one never raises it. *)
Theorem addVerificationRecord_moves_score :
  forall (this : Doc.t) (query : string) (score : Q)
         (method : option VerificationMethod),
    (List.length (Doc.verificationHistory this) <= 50)%nat ->
    (calculatePopularityScore this
     <= calculatePopularityScore (addVerificationRecord this query score true method))%Z
    /\ (calculatePopularityScore (addVerificationRecord this query score false method)
        <= calculatePopularityScore this)%Z.
Proof.
  intros this query score method Hle.
  split; apply calculatePopularityScore_monotone;
    try (unfold addVerificationRecord; cbn [with_history Doc.starRating
           Doc.reviewScore Doc.reviewCount Doc.isFeatured];
         first [apply Qle_refl | reflexivity]).
  - rewrite !rate_of_doc_as_fraction.
    unfold addVerificationRecord. cbn [with_history Doc.verificationHistory].
    match goal with
    | |- context [(?h ++ [?r])%list] =>
        destruct (pushed_history_counts h r Hle)
          as [[Hlt [Hlen Hcnt]]|[Heq [Hlen [oldest [H1 [H2 Hcnt]]]]]]
    end; cbn [verified] in Hcnt; rewrite Hlen.
    + pose proof (verified_count_le (Doc.verificationHistory this)) as Hv.
      unfold Qle; cbn [Qnum Qden]. rewrite Hcnt.
      destruct (List.length (Doc.verificationHistory this)) as [|n] eqn:Hn.
      * assert (verified_count (Doc.verificationHistory this) = 0%nat) by lia.
        rewrite H. simpl. lia.
      * rewrite !Pos2Z.inj_mul || idtac.
        replace (Z.pos (Pos.of_nat (S n + 1))) with (Z.of_nat (S n + 1))
          by (rewrite <- positive_nat_Z, Nat2Pos.id by lia; reflexivity).
        replace (Z.pos (Pos.of_nat (S n))) with (Z.of_nat (S n))
          by (rewrite <- positive_nat_Z, Nat2Pos.id by lia; reflexivity).
        nia.
    + rewrite Heq. unfold Qle; cbn [Qnum Qden].
      apply Z.mul_le_mono_nonneg_r; lia.
  - rewrite !rate_of_doc_as_fraction.
    unfold addVerificationRecord. cbn [with_history Doc.verificationHistory].
    match goal with
    | |- context [(?h ++ [?r])%list] =>
        destruct (pushed_history_counts h r Hle)
          as [[Hlt [Hlen Hcnt]]|[Heq [Hlen [oldest [H1 [H2 Hcnt]]]]]]
    end; cbn [verified] in Hcnt; rewrite Hlen.
    + pose proof (verified_count_le (Doc.verificationHistory this)) as Hv.
      unfold Qle; cbn [Qnum Qden]. rewrite Hcnt.
      destruct (List.length (Doc.verificationHistory this)) as [|n] eqn:Hn.
      * assert (verified_count (Doc.verificationHistory this) = 0%nat) by lia.
        rewrite H. simpl. lia.
      * replace (Z.pos (Pos.of_nat (S n + 1))) with (Z.of_nat (S n + 1))
          by (rewrite <- positive_nat_Z, Nat2Pos.id by lia; reflexivity).
        replace (Z.pos (Pos.of_nat (S n))) with (Z.of_nat (S n))
          by (rewrite <- positive_nat_Z, Nat2Pos.id by lia; reflexivity).
        nia.
    + rewrite Heq. unfold Qle; cbn [Qnum Qden].
      apply Z.mul_le_mono_nonneg_r; lia.
Qed.

Lemma addVerificationRecord_moves_score_witness :
  (calculatePopularityScore (scored_doc 3 7 500 [true; false] false)
   <= calculatePopularityScore
        (addVerificationRecord (scored_doc 3 7 500 [true; false] false)
           "Hotel" 1 true None))%Z.
Proof.
  apply (proj1 (addVerificationRecord_moves_score
                  (scored_doc 3 7 500 [true; false] false) "Hotel" 1 None
                  ltac:(vm_compute; lia))).
Defined.

Local Close Scope Q_scope.

Local Open Scope Q_scope.

(** X10. The average price is defined exactly when both ends of the
    price range are present and not 0 (a range that starts at 0 has no
    average), and for an ordered range it lies between its ends. *)
Theorem averagePrice_between :
  forall this : Doc.t,
    (averagePrice this <> None <->
     exists lo hi,
       PriceRange.min (Doc.priceRange this) = Some lo
       /\ PriceRange.max (Doc.priceRange this) = Some hi
       /\ ~ lo == 0 /\ ~ hi == 0)
    /\ (forall lo hi avg,
          PriceRange.min (Doc.priceRange this) = Some lo ->
          PriceRange.max (Doc.priceRange this) = Some hi ->
          averagePrice this = Some avg ->
          lo <= hi -> lo <= avg <= hi).
Proof.
  intros this. unfold averagePrice.
  assert (Htruthy : forall q : Q, truthy q = true <-> ~ q == 0).
  { intros [n d]. unfold truthy, Truthy_Q, Qeq. simpl.
    rewrite negb_true_iff, Z.eqb_neq. lia. }
  destruct (PriceRange.min (Doc.priceRange this)) as [lo|],
           (PriceRange.max (Doc.priceRange this)) as [hi|].
  - split.
    + destruct (truthy lo) eqn:Hlo, (truthy hi) eqn:Hhi; simpl; split;
        try congruence;
        try (intros _; exists lo, hi; repeat split; apply Htruthy; assumption);
        intros [a [b [Ha [Hb [Hna Hnb]]]]];
        injection Ha as <-; injection Hb as <-;
        apply Htruthy in Hna; apply Htruthy in Hnb; congruence.
    + intros a b avg Ha Hb Havg Hle.
      injection Ha as <-. injection Hb as <-.
      destruct (truthy lo && truthy hi); [|discriminate].
      injection Havg as <-.
      unfold Qdiv. change (/ 2) with (1 # 2). split; lra.
  - split; [|intros a b avg Ha Hb; discriminate].
    split; [congruence|]. intros [a [b [_ [Hb _]]]]. discriminate.
  - split; [|intros a b avg Ha Hb; discriminate].
    split; [congruence|]. intros [a [b [Ha _]]]. discriminate.
  - split; [|intros a b avg Ha Hb; discriminate].
    split; [congruence|]. intros [a [b [Ha _]]]. discriminate.
Qed.

Lemma compare_opt_antisym a b : compare_opt a b = CompOpp (compare_opt b a).
Proof.
  destruct a as [x|], b as [y|]; simpl; try reflexivity.
  symmetry. apply Qcompare_antisym.
Qed.

Lemma directory_order_total a b :
  directory_order a b = false -> directory_order b a = true.
Proof.
  unfold directory_order.
  rewrite (compare_opt_antisym (Doc.starRating a) (Doc.starRating b)).
  rewrite (compare_opt_antisym (Doc.reviewScore a) (Doc.reviewScore b)).
  destruct (compare_opt (Doc.starRating b) (Doc.starRating a)); simpl;
    try congruence.
  destruct (compare_opt (Doc.reviewScore b) (Doc.reviewScore a)); simpl;
    try congruence.
  rewrite Z.leb_gt, Z.leb_le. lia.
Qed.

Lemma insert_by_sorted {A} (le : A -> A -> bool) x l :
  (forall a b, le a b = false -> le b a = true) ->
  Sorted (fun a b => le a b = true) l ->
  Sorted (fun a b => le a b = true) (insert_by le x l).
Proof.
  intros Htotal Hsorted. induction l as [|y l IH]; simpl.
  - constructor; constructor.
  - destruct (le x y) eqn:Hxy.
    + constructor; [exact Hsorted|]. constructor. exact Hxy.
    + inversion Hsorted as [|? ? Hl Hhd]; subst.
      constructor; [apply IH; exact Hl|].
      destruct l as [|z l]; simpl.
      * constructor. apply Htotal. exact Hxy.
      * destruct (le x z); constructor.
        -- apply Htotal. exact Hxy.
        -- inversion Hhd; assumption.
Qed.

Lemma sort_by_sorted {A} (le : A -> A -> bool) l :
  (forall a b, le a b = false -> le b a = true) ->
  Sorted (fun a b => le a b = true) (sort_by le l).
Proof.
  intros Htotal. induction l as [|x l IH]; simpl; [constructor|].
  apply insert_by_sorted; assumption.
Qed.

Lemma firstn_sorted {A} (R : A -> A -> Prop) n l :
  Sorted R l -> Sorted R (firstn n l).
Proof.
  revert l. induction n as [|n IH]; intros l Hs; simpl; [constructor|].
  destruct l as [|x l]; [constructor|].
  inversion Hs as [|? ? Hl Hhd]; subst.
  constructor; [apply IH; exact Hl|].
  destruct l as [|y l]; destruct n; simpl; constructor.
  inversion Hhd; assumption.
Qed.

Lemma sorted_weaken {A} (R R' : A -> A -> Prop) l :
  (forall a b, R a b -> R' a b) -> Sorted R l -> Sorted R' l.
Proof.
  intros Hw. induction 1 as [|x l Hl IH Hhd]; constructor; [exact IH|].
  destruct Hhd; constructor. apply Hw. assumption.
Qed.

Lemma compare_opt_trans a b c :
  compare_opt b a <> Gt -> compare_opt c b <> Gt -> compare_opt c a <> Gt.
Proof.
  destruct a as [x|], b as [y|], c as [z|]; simpl; try congruence.
  rewrite <- !Qle_alt. intros H1 H2. lra.
Qed.

(** X11. The alternatives of the directory are ranked: in the list
    [findAlternatives] returns, each hotel may precede the next in the
    order (star rating, review score, popularity score, each descending),
    and no hotel is rated higher than a hotel before it; a hotel without
    a rating comes after the rated ones. *)
Theorem findAlternatives_ranked :
  forall (docs : list Doc.t) (originalHotel : Doc.t) (criteria : Criteria.t),
    Sorted (fun a b => directory_order a b = true)
      (findAlternatives docs originalHotel criteria)
    /\ StronglySorted rated_at_least
         (findAlternatives docs originalHotel criteria).
Proof.
  intros docs originalHotel criteria.
  assert (Hs : Sorted (fun a b => directory_order a b = true)
                 (findAlternatives docs originalHotel criteria)).
  { unfold findAlternatives. apply firstn_sorted, sort_by_sorted.
    exact directory_order_total. }
  split; [exact Hs|].
  apply Sorted_StronglySorted.
  - intros a b c Hab Hbc. unfold rated_at_least in *.
    exact (compare_opt_trans _ _ _ Hab Hbc).
  - apply (sorted_weaken (R := fun a b => directory_order a b = true));
      [|exact Hs].
    intros a b Hab. unfold rated_at_least, directory_order in *.
    destruct (compare_opt (Doc.starRating b) (Doc.starRating a));
      congruence.
Qed.

Lemma alternatives_query_basic originalHotel criteria h :
  alternatives_query originalHotel criteria h = true ->
  Doc._id h <> Doc._id originalHotel
  /\ Doc.city h = Doc.city originalHotel
  /\ Doc.country h = Doc.country originalHotel
  /\ Doc.status h = HotelActive
  /\ match Criteria.priceRange criteria with
     | Some range =>
         exists lo hi,
           PriceRange.min (Doc.priceRange h) = Some lo
           /\ PriceRange.max (Doc.priceRange h) = Some hi
           /\ Range.min range <= lo /\ hi <= Range.max range
     | None => True
     end.
Proof.
  unfold alternatives_query.
  rewrite !andb_true_iff, negb_true_iff, !String.eqb_eq, String.eqb_neq,
    HotelStatus_eqb_eq.
  intros [[[[[Hid Hcity] Hcountry] Hstatus] _] Hprice].
  repeat split; auto.
  destruct (Criteria.priceRange criteria) as [range|]; [|exact I].
  destruct (PriceRange.min (Doc.priceRange h)) as [lo|],
           (PriceRange.max (Doc.priceRange h)) as [hi|]; try discriminate.
  apply andb_true_iff in Hprice. rewrite !Qle_bool_iff in Hprice.
  exists lo, hi. tauto.
Qed.

(** X12. Whatever the original hotel, every alternative of the directory
    is an active hotel of the original's city and country with another
    identifier; with a price range in the criteria, its own price range
    has both ends and lies within the requested one.  When the original
    has no star rating (missing or 0) the rating is not constrained: every
    other active hotel of the city and country (whose price range lies
    within the requested one, if one is requested), also one without a
    rating, is returned unless the list is full, that is, has exactly
    [criteria.limit] hotels (five when the limit is missing or 0). *)
Theorem findAlternatives_filters :
  forall (docs : list Doc.t) (originalHotel : Doc.t) (criteria : Criteria.t),
    (forall h, In h (findAlternatives docs originalHotel criteria) ->
       In h docs
       /\ Doc._id h <> Doc._id originalHotel
       /\ Doc.city h = Doc.city originalHotel
       /\ Doc.country h = Doc.country originalHotel
       /\ Doc.status h = HotelActive
       /\ match Criteria.priceRange criteria with
          | Some range =>
              exists lo hi,
                PriceRange.min (Doc.priceRange h) = Some lo
                /\ PriceRange.max (Doc.priceRange h) = Some hi
                /\ Range.min range <= lo /\ hi <= Range.max range
          | None => True
          end)
    /\ (is_truthy (Doc.starRating originalHotel) = false ->
        forall h, In h docs ->
          Doc._id h <> Doc._id originalHotel ->
          Doc.city h = Doc.city originalHotel ->
          Doc.country h = Doc.country originalHotel ->
          Doc.status h = HotelActive ->
          (forall range,
              Criteria.priceRange criteria = Some range ->
              exists lo hi,
                PriceRange.min (Doc.priceRange h) = Some lo
                /\ PriceRange.max (Doc.priceRange h) = Some hi
                /\ Range.min range <= lo /\ hi <= Range.max range) ->
          In h (findAlternatives docs originalHotel criteria)
          \/ List.length (findAlternatives docs originalHotel criteria)
             = js_or_default (Criteria.limit criteria) 5%nat).
Proof.
  intros docs originalHotel criteria. split.
  - intros h Hin. unfold findAlternatives in Hin.
    apply in_firstn in Hin.
    apply (Permutation_in _ (sort_by_permutation _ _)) in Hin.
    apply filter_In in Hin. destruct Hin as [Hdocs Hq].
    split; [exact Hdocs|]. apply alternatives_query_basic. exact Hq.
  - intros Hfalsy h Hin Hid Hcity Hcountry Hstatus Hprice.
    apply findAlternatives_admits_or_full; [exact Hin|].
    unfold alternatives_query.
    apply String.eqb_neq in Hid. rewrite Hid.
    apply String.eqb_eq in Hcity, Hcountry. rewrite Hcity, Hcountry.
    rewrite Hstatus. simpl.
    assert (Hrating : match Doc.starRating originalHotel with
                      | Some starRating =>
                          if truthy starRating
                          then in_range (Qmax 1 (starRating - 1))
                                 (Qmin 5 (starRating + 1)) (Doc.starRating h)
                          else true
                      | None => true
                      end = true).
    { unfold is_truthy in Hfalsy.
      destruct (Doc.starRating originalHotel) as [s|]; [|reflexivity].
      rewrite Hfalsy. reflexivity. }
    rewrite Hrating. simpl.
    destruct (Criteria.priceRange criteria) as [range|]; [|reflexivity].
    destruct (Hprice range eq_refl) as [lo [hi [-> [-> [Hlo Hhi]]]]].
    apply andb_true_iff. rewrite !Qle_bool_iff. auto.
Qed.

Lemma findAlternatives_filters_witness :
  let a := doc_named "a" "Hotel A" "Paris" None in
  let b := doc_named "b" "Hotel B" "Paris" None in
  In b (findAlternatives [a; b] a (Criteria.mk None None)).
Proof.
  intros a b.
  destruct (proj2 (findAlternatives_filters [a; b] a (Criteria.mk None None))
              eq_refl b) as [Hin|Hfull]; try reflexivity.
  - simpl. auto.
  - vm_compute. discriminate.
  - intros range Hrange. discriminate.
  - exact Hin.
  - vm_compute in Hfull. discriminate.
Defined.

Local Close Scope Q_scope.

(** * Further properties of the service *)

Section ServiceRuns.

Context {E : Type} `{Backend E}.

Lemma findValidCache_run (params : Params.t) (w : World E) :
  HotelSearchCache_findValidCache params w
  = match findValidCache (cache w) params (clock (ext w)) with
    | Throw m => (Throw m, w)
    | Ok r =>
        match cache_fault FindOne (ext w) with
        | (Some m, x) => (Throw m, {| cache := cache w; ext := x |})
        | (None, x) => (Ok r, {| cache := cache w; ext := x |})
        end
    end.
Proof.
  unfold HotelSearchCache_findValidCache, bind, now, get_cache, lift_exc,
    cache_roundtrip, call, ret. simpl.
  destruct (findValidCache (cache w) params (clock (ext w))); [|reflexivity].
  simpl. destruct (cache_fault FindOne (ext w)) as [[m|] x]; reflexivity.
Qed.

Lemma createOrUpdateCache_run (params : Params.t) res ttlHours (w : World E) :
  HotelSearchCache_createOrUpdateCache params res ttlHours w
  = match createOrUpdateCache (cache w) params res ttlHours (clock (ext w)) with
    | Throw m => (Throw m, w)
    | Ok (e, docs') =>
        match cache_fault FindOneAndUpdate (ext w) with
        | (Some m, x) => (Throw m, {| cache := cache w; ext := x |})
        | (None, x) => (Ok e, {| cache := docs'; ext := x |})
        end
    end.
Proof.
  unfold HotelSearchCache_createOrUpdateCache, bind, now, get_cache, lift_exc,
    cache_roundtrip, put_cache, call, ret. simpl.
  destruct (createOrUpdateCache (cache w) params res ttlHours (clock (ext w)))
    as [[e docs']|m]; [|reflexivity].
  simpl. destruct (cache_fault FindOneAndUpdate (ext w)) as [[m|] x]; reflexivity.
Qed.

Lemma recordHit_run (e : CacheEntry) (w : World E) :
  CacheEntry_recordHit e w
  = match cache_fault Save (ext w) with
    | (Some m, x) => (Throw m, {| cache := cache w; ext := x |})
    | (None, x) =>
        (Ok (fst (recordHit (timezone (ext w)) (clock (ext w)) (cache w) e)),
         {| cache := snd (recordHit (timezone (ext w)) (clock (ext w)) (cache w) e);
            ext := x |})
    end.
Proof.
  unfold CacheEntry_recordHit, bind, now, local_timezone, get_cache,
    cache_roundtrip, put_cache, call, ret. simpl.
  destruct (cache_fault Save (ext w)) as [[m|] x]; reflexivity.
Qed.

Lemma updateOrCreateHotel_run formattedHotel (w : World E) :
  updateOrCreateHotel formattedHotel w
  = (Ok tt, {| cache := cache w; ext := upserts [formattedHotel] (ext w) |}).
Proof.
  unfold updateOrCreateHotel, try_catch, bind, now, call, ret, upserts. simpl.
  destruct (hotel_findOneAndUpdate _ (ext w)) as [[[]|m] x]; reflexivity.
Qed.

Lemma for_each_upserts formattedHotels (w : World E) :
  for_each updateOrCreateHotel formattedHotels w
  = (Ok tt, {| cache := cache w; ext := upserts formattedHotels (ext w) |}).
Proof.
  revert w. induction formattedHotels as [|h rest IH]; intros w; simpl.
  - destruct w; reflexivity.
  - unfold bind. rewrite updateOrCreateHotel_run. rewrite IH. reflexivity.
Qed.

Lemma updateOrCreateHotels_run :
  forall (formattedHotels : list Fmt.t) (w : World E),
    updateOrCreateHotels formattedHotels w
    = (Ok tt, {| cache := cache w; ext := upserts formattedHotels (ext w) |}).
Proof.
  intros formattedHotels w. unfold updateOrCreateHotels, try_catch.
  rewrite for_each_upserts. reflexivity.
Qed.


(** What a run of the [try] block of [searchHotels] does, case by case. *)
Lemma search_attempt_run (criteria : Search.t) (w : World E) :
  search_attempt criteria w
  = match findValidCache (cache w) (search_params criteria) (clock (ext w)) with
    | Throw m => (Throw m, w)
    | Ok found =>
        match cache_fault FindOne (ext w) with
        | (Some m, x1) => (Throw m, {| cache := cache w; ext := x1 |})
        | (None, x1) =>
            match found with
            | Some cached =>
                match cache_fault Save x1 with
                | (Some m, x2) => (Throw m, {| cache := cache w; ext := x2 |})
                | (None, x2) =>
                    (Ok (Result.mk (map Listed (hotels (results cached)))
                           (totalResults (results cached)) SourceCache None),
                     {| cache := snd (recordHit (timezone x1) (clock x1) (cache w) cached);
                        ext := x2 |})
                end
            | None =>
                match tss_post (search_payload criteria) x1 with
                | (Throw m, x2) => (Throw m, {| cache := cache w; ext := x2 |})
                | (Ok response, x2) =>
                    match opt_chain (data response) ApiData.hotels with
                    | None =>
                        (Ok (Result.mk [] 0 SourceApi None),
                         {| cache := cache w; ext := x2 |})
                    | Some rawHotels =>
                        let total :=
                          js_or_default (opt_chain (data response) ApiData.totalResults)
                            (Z.of_nat (List.length (formatHotelResults rawHotels))) in
                        match createOrUpdateCache (cache w) (search_params criteria)
                                {| hotels := formatHotelResults rawHotels;
                                   totalResults := total;
                                   searchTimestamp := clock x2 |}
                                2 (clock x2) with
                        | Throw m => (Throw m, {| cache := cache w; ext := x2 |})
                        | Ok (e, docs') =>
                            match cache_fault FindOneAndUpdate x2 with
                            | (Some m, x3) =>
                                (Throw m, {| cache := cache w; ext := x3 |})
                            | (None, x3) =>
                                (Ok (Result.mk (map Listed (formatHotelResults rawHotels))
                                       total SourceApi (Some (clock x2 - clock x1))),
                                 {| cache := docs';
                                    ext := upserts (formatHotelResults rawHotels) x3 |})
                            end
                        end
                    end
                end
            end
        end
    end.
Proof.
  unfold search_attempt, bind at 1. rewrite findValidCache_run.
  destruct (findValidCache (cache w) (search_params criteria) (clock (ext w)))
    as [found|m]; [|reflexivity].
  destruct (cache_fault FindOne (ext w)) as [[m|] x1]; [reflexivity|].
  destruct found as [cached|].
  - unfold bind. rewrite recordHit_run. cbn [ext cache].
    destruct (cache_fault Save x1) as [[m|] x2]; [reflexivity|].
    unfold ret. rewrite recordHit_keeps_results. reflexivity.
  - unfold bind at 1, now at 1. unfold bind at 1, call at 1. cbn [ext cache].
    destruct (tss_post (search_payload criteria) x1) as [[response|m] x2];
      [|reflexivity].
    unfold bind at 1, now at 1. cbn [ext cache].
    destruct (opt_chain (data response) ApiData.hotels) as [rawHotels|];
      [|reflexivity].
    unfold bind at 1, now at 1. cbn [ext cache].
    unfold bind at 1. rewrite createOrUpdateCache_run. cbn [ext cache].
    destruct (createOrUpdateCache _ _ _ _ _) as [[e docs']|m]; [|reflexivity].
    destruct (cache_fault FindOneAndUpdate x2) as [[m|] x3]; [reflexivity|].
    unfold bind at 1. rewrite updateOrCreateHotels_run.
    reflexivity.
Qed.

End ServiceRuns.

Section ServiceFacts.

Context {E : Type} `{Backend E}.

Lemma search_fallback_cases (criteria : Search.t) (w w' : World E) res :
  search_fallback criteria w = (res, w') ->
  cache w' = cache w
  /\ match res with
     | Ok r =>
         Result.source r = SourceFallback
         /\ Result.hotels r <> []
         /\ (List.length (Result.hotels r) <= 20)%nat
         /\ Result.total r = Z.of_nat (List.length (Result.hotels r))
         /\ Result.responseTime r = None
         /\ Forall is_detailed (Result.hotels r)
     | Throw m => m = inventory_unavailable
     end.
Proof.
  destruct (hotel_find (Search.location criteria) (ext w)) as [found x] eqn:Hfind.
  rewrite (search_fallback_run criteria w Hfind).
  destruct found as [[|d docs]|m].
  1, 3: intros Heq; injection Heq as <- <-; split; reflexivity.
  remember (firstn 20 (d :: docs)) as kept eqn:Hkept.
  intros Heq. injection Heq as <- <-. split; [reflexivity|].
  cbn [Result.source Result.hotels Result.total Result.responseTime].
  rewrite length_map.
  assert (Hlen : (List.length kept <= 20)%nat)
    by (rewrite Hkept; apply firstn_le_length).
  assert (Hne : kept <> []) by (rewrite Hkept; discriminate).
  split; [reflexivity|]. split; [destruct kept; [congruence|discriminate]|].
  split; [exact Hlen|]. split; [reflexivity|]. split; [reflexivity|].
  apply Forall_forall. intros h Hin. apply in_map_iff in Hin.
  destruct Hin as [doc [<- _]]. exact I.
Qed.

Lemma search_attempt_cases (criteria : Search.t) (w w' : World E) res :
  search_attempt criteria w = (res, w') ->
  match res with
  | Throw _ => cache w' = cache w
  | Ok r =>
      Forall is_listed (Result.hotels r)
      /\ match Result.source r with
         | SourceFallback => False
         | SourceCache =>
             Result.responseTime r = None
             /\ exists cached,
                  findValidCache (cache w) (search_params criteria) (clock (ext w))
                  = Ok (Some cached)
                  /\ Result.hotels r = map Listed (hotels (results cached))
                  /\ exists tz t,
                       cache w' = snd (recordHit tz t (cache w) cached)
         | SourceApi =>
             match Result.responseTime r with
             | None => Result.hotels r = [] /\ Result.total r = 0 /\ cache w' = cache w
             | Some _ =>
                 exists stored formattedHotels t,
                   createOrUpdateCache (cache w) (search_params criteria)
                     {| hotels := formattedHotels;
                        totalResults := Result.total r;
                        searchTimestamp := t |} 2 t
                   = Ok (stored, cache w')
                   /\ Result.hotels r = map Listed formattedHotels
             end
         end
  end.
Proof.
  rewrite search_attempt_run.
  assert (Hlisted : forall l : list Fmt.t, Forall is_listed (map Listed l)).
  { intros l. apply Forall_forall. intros h Hin. apply in_map_iff in Hin.
    destruct Hin as [f [<- _]]. exact I. }
  destruct (findValidCache (cache w) (search_params criteria) (clock (ext w)))
    as [found|m] eqn:Hfound.
  2: { intros Heq. injection Heq as <- <-. reflexivity. }
  destruct (cache_fault FindOne (ext w)) as [[m|] x1].
  { intros Heq. injection Heq as <- <-. reflexivity. }
  destruct found as [cached|].
  - destruct (cache_fault Save x1) as [[m|] x2];
      intros Heq; injection Heq as <- <-; [reflexivity|].
    cbn [Result.hotels Result.source Result.responseTime cache].
    split; [apply Hlisted|]. split; [reflexivity|].
    exists cached. split; [reflexivity|]. split; [reflexivity|].
    eexists. eexists. reflexivity.
  - destruct (tss_post (search_payload criteria) x1) as [[response|m] x2].
    2: { intros Heq. injection Heq as <- <-. reflexivity. }
    destruct (opt_chain (data response) ApiData.hotels) as [rawHotels|].
    2: { intros Heq. injection Heq as <- <-. simpl. auto. }
    cbv zeta.
    destruct (createOrUpdateCache _ _ _ _ _) as [[e docs']|m] eqn:Hstore.
    2: { intros Heq. injection Heq as <- <-. reflexivity. }
    destruct (cache_fault FindOneAndUpdate x2) as [[m|] x3];
      intros Heq; injection Heq as <- <-; [reflexivity|].
    cbn [Result.hotels Result.source Result.responseTime Result.total cache].
    split; [apply Hlisted|].
    exists e, (formatHotelResults rawHotels), (clock x2).
    split; [exact Hstore|reflexivity].
Qed.

(** X14. The provenance tag tells what a search result holds.  A result
    tagged [fallback] has between 1 and 20 hotels, all formatted from
    directory documents, and a [total] that is their number.  A result
    tagged [cache] or [api] holds formatted inventory results only; a
    result tagged [api] without a response time is the empty result of
    an answer that carried no hotel list. *)
Theorem searchHotels_provenance :
  forall (criteria : Search.t) (w w' : World E) (r : Result.t),
    searchHotels criteria w = (Ok r, w') ->
    match Result.source r with
    | SourceFallback =>
        Result.hotels r <> []
        /\ (List.length (Result.hotels r) <= 20)%nat
        /\ Result.total r = Z.of_nat (List.length (Result.hotels r))
        /\ Result.responseTime r = None
        /\ Forall is_detailed (Result.hotels r)
    | SourceCache =>
        Forall is_listed (Result.hotels r) /\ Result.responseTime r = None
    | SourceApi =>
        Forall is_listed (Result.hotels r)
        /\ (Result.responseTime r = None ->
            Result.hotels r = [] /\ Result.total r = 0)
    end.
Proof.
  intros criteria w w' r. unfold searchHotels, try_catch.
  destruct (search_attempt criteria w) as [[r0|m] w1] eqn:Hattempt.
  - intros Heq. injection Heq as <- <-.
    apply search_attempt_cases in Hattempt. destruct Hattempt as [Hl Hs].
    destruct (Result.source r0); [tauto| |contradiction].
    split; [exact Hl|]. intros Hnone. rewrite Hnone in Hs. tauto.
  - intros Hfb. apply search_fallback_cases in Hfb.
    destruct Hfb as [_ [-> Hrest]]. tauto.
Qed.

(** X15. A search that fails, or that is answered from the directory,
    leaves the cache collection exactly as it was. *)
Theorem searchHotels_failure_keeps_cache :
  forall (criteria : Search.t) (w w' : World E) res,
    searchHotels criteria w = (res, w') ->
    match res with
    | Throw _ => True
    | Ok r => Result.source r = SourceFallback
    end ->
    cache w' = cache w.
Proof.
  intros criteria w w' res. unfold searchHotels, try_catch.
  destruct (search_attempt criteria w) as [[r0|m] w1] eqn:Hattempt.
  - intros Heq. injection Heq as <- <-. intros Hsrc.
    apply search_attempt_cases in Hattempt. destruct Hattempt as [_ Hs].
    rewrite Hsrc in Hs. contradiction.
  - intros Hfb _. apply search_attempt_cases in Hattempt.
    apply search_fallback_cases in Hfb. destruct Hfb as [Hc _]. congruence.
Qed.

End ServiceFacts.

Lemma searchHotels_provenance_witness :
  match fst (searchHotels paris_search
               (scripted_world api_timeout (Ok [hotel_p]) (Ok tt) no_fault)) with
  | Ok r => Result.total r = Z.of_nat (List.length (Result.hotels r))
  | Throw _ => False
  end.
Proof.
  destruct (searchHotels paris_search
              (scripted_world api_timeout (Ok [hotel_p]) (Ok tt) no_fault))
    as [[r|m] w'] eqn:Hrun; cbn [fst].
  - pose proof (searchHotels_provenance _ _ Hrun) as Hp.
    assert (Hsrc : Result.source r = SourceFallback)
      by (vm_compute in Hrun; injection Hrun as <- _; reflexivity).
    rewrite Hsrc in Hp. tauto.
  - vm_compute in Hrun. discriminate.
Defined.

Lemma searchHotels_failure_keeps_cache_witness :
  cache (snd (searchHotels paris_search
                (scripted_world (api_answer []) (Ok []) (Ok tt) write_fault)))
  = [].
Proof.
  apply (searchHotels_failure_keeps_cache paris_search
           (scripted_world (api_answer []) (Ok []) (Ok tt) write_fault)
           (surjective_pairing _)).
  vm_compute. exact I.
Defined.

Lemma fresh_id_is_fresh (docs : list CacheEntry) :
  ~ In (fresh_id docs) (map docId docs).
Proof.
  assert (Hmax : forall n, In n (map docId docs) ->
                   (n <= fold_right Nat.max O (map docId docs))%nat).
  { induction docs as [|d docs IH]; simpl; [tauto|].
    intros n [<-|Hin]; [lia|]. specialize (IH n Hin). lia. }
  intros Hin. apply Hmax in Hin. unfold fresh_id in Hin. lia.
Qed.

Lemma docIds_update_first p f docs :
  (forall e, docId (f e) = docId e) ->
  map docId (update_first p f docs) = map docId docs.
Proof.
  intros Hf. induction docs as [|d docs IH]; simpl; [reflexivity|].
  destruct (p d); simpl; [rewrite Hf|rewrite IH]; reflexivity.
Qed.

Lemma createOrUpdateCache_signatures docs docs' params res ttlHours now e key :
  createOrUpdateCache docs params res ttlHours now = Ok (e, docs') ->
  generateSearchKey params = Ok key ->
  (In key (signatures docs) -> signatures docs' = signatures docs)
  /\ (~ In key (signatures docs) -> signatures docs' = signatures docs ++ [key])%list.
Proof.
  intros Hstore Hkey.
  unfold createOrUpdateCache in Hstore. rewrite Hkey in Hstore. simpl in Hstore.
  destruct (find (fun e0 => String.eqb (searchKey e0) key) docs) as [e0|] eqn:Hfind;
    injection Hstore as <- <-.
  - rewrite signatures_update_first by reflexivity.
    split; [reflexivity|]. intros Hn. exfalso. apply Hn.
    apply find_some in Hfind. destruct Hfind as [Hin Heq].
    apply String.eqb_eq in Heq. rewrite <- Heq.
    unfold signatures. apply in_map. exact Hin.
  - apply find_key_in_signatures in Hfind.
    unfold signatures in *. rewrite map_app. simpl.
    split; [intros Hin; contradiction|reflexivity].
Qed.

Lemma NoDup_snoc {A} (l : list A) (x : A) :
  NoDup l -> ~ In x l -> NoDup (l ++ [x]).
Proof.
  intros Hnd Hx. apply NoDup_app; auto.
  - constructor; [simpl; tauto|constructor].
  - intros y Hy [<-|[]]. contradiction.
Qed.

Lemma createOrUpdateCache_keeps_invariant docs docs' params res ttlHours now e :
  createOrUpdateCache docs params res ttlHours now = Ok (e, docs') ->
  one_entry_per_signature docs -> one_entry_per_signature docs'.
Proof.
  intros Hstore [Hids Hkeys].
  destruct (generateSearchKey params) as [key|m] eqn:Hkey.
  2: { unfold createOrUpdateCache in Hstore. rewrite Hkey in Hstore. discriminate. }
  destruct (@createOrUpdateCache_signatures _ _ _ _ _ _ _ _ Hstore Hkey)
    as [Hin Hout].
  split.
  - unfold createOrUpdateCache in Hstore. rewrite Hkey in Hstore. simpl in Hstore.
    destruct (find _ docs); injection Hstore as <- <-.
    + rewrite docIds_update_first by reflexivity. exact Hids.
    + rewrite map_app. simpl. apply NoDup_snoc; [exact Hids|].
      apply fresh_id_is_fresh.
  - destruct (in_dec string_dec key (signatures docs)) as [Hk|Hk].
    + rewrite (Hin Hk). exact Hkeys.
    + rewrite (Hout Hk). apply NoDup_snoc; assumption.
Qed.

Lemma NoDup_map_injective {A B} (f : A -> B) l x y :
  NoDup (map f l) -> In x l -> In y l -> f x = f y -> x = y.
Proof.
  induction l as [|a l IH]; simpl; [tauto|].
  intros Hnd Hx Hy Hf. inversion Hnd as [|? ? Ha Hl]; subst.
  destruct Hx as [<-|Hx], Hy as [<-|Hy]; auto.
  - exfalso. apply Ha. rewrite Hf. apply in_map. exact Hy.
  - exfalso. apply Ha. rewrite <- Hf. apply in_map. exact Hx.
Qed.

Lemma recordHit_keeps_invariant tz now docs e :
  In e docs ->
  one_entry_per_signature docs ->
  one_entry_per_signature (snd (recordHit tz now docs e)).
Proof.
  intros Hin [Hids Hkeys].
  destruct (recordHit_effect tz now docs e)
    as [_ [_ [Hid [Hkey _]]]].
  cbv zeta in Hid, Hkey.
  assert (Hsame : map docId (snd (recordHit tz now docs e)) = map docId docs
                  /\ signatures (snd (recordHit tz now docs e)) = signatures docs).
  { unfold signatures.
    change (snd (recordHit tz now docs e))
      with (map (fun d => if Nat.eqb (docId d) (docId (fst (recordHit tz now docs e)))
                          then fst (recordHit tz now docs e) else d) docs).
    rewrite !map_map. split; apply map_ext_in; intros d Hd;
      destruct (Nat.eqb _ _) eqn:Heq; try reflexivity;
      apply Nat.eqb_eq in Heq; rewrite Hid in Heq;
      assert (d = e) by (apply (NoDup_map_injective docId docs); auto);
      subst d; auto. }
  destruct Hsame as [H1 H2]. split; [rewrite H1|rewrite H2]; assumption.
Qed.

Section ServiceCache.

Context {E : Type} `{Backend E}.

(** X16. [searchHotels] keeps the invariant of the cache: in a
    collection where no two entries share an identifier or a signature,
    no two do after the call, whatever the call returns. *)
Theorem searchHotels_keeps_one_entry_per_signature :
  forall (criteria : Search.t) (w w' : World E) res,
    searchHotels criteria w = (res, w') ->
    one_entry_per_signature (cache w) ->
    one_entry_per_signature (cache w').
Proof.
  intros criteria w w' res Hrun Hinv. revert Hrun.
  unfold searchHotels, try_catch.
  destruct (search_attempt criteria w) as [[r|m] w1] eqn:Hattempt.
  - intros Heq. injection Heq as <- <-.
    apply search_attempt_cases in Hattempt. destruct Hattempt as [_ Hs].
    destruct (Result.source r); [| |contradiction].
    + destruct Hs as [_ [cached [Hfound [_ [tz [t ->]]]]]].
      apply recordHit_keeps_invariant; [|exact Hinv].
      unfold findValidCache in Hfound.
      destruct (generateSearchKey _); simpl in Hfound; [|discriminate].
      injection Hfound as Hfound. apply find_some in Hfound. tauto.
    + destruct (Result.responseTime r).
      * destruct Hs as [stored [formatted [t [Hstore _]]]].
        eapply createOrUpdateCache_keeps_invariant; [exact Hstore|exact Hinv].
      * destruct Hs as [_ [_ ->]]. exact Hinv.
  - intros Hfb. apply search_attempt_cases in Hattempt.
    apply search_fallback_cases in Hfb. destruct Hfb as [Hc _].
    rewrite Hc, Hattempt. exact Hinv.
Qed.

(** X17. A second identical search is served from the cache.  After a
    search that returned inventory results (tagged [api], with a response
    time), the cache holds an entry whose hotels are these results in the
    form the cache schema gives them (the paths of the schema, no
    description, an [id] of their own) and whose total is the result's;
    and a search with the same criteria, made before the entry expires
    while the cache collection answers, returns the stored hotels and the
    same total tagged [cache], changing the outside world only through
    the two cache operations: the inventory service is not called. *)
Theorem searchHotels_second_call_from_cache :
  forall (criteria : Search.t) (w w' : World E) (r : Result.t),
    searchHotels criteria w = (Ok r, w') ->
    Result.source r = SourceApi ->
    Result.responseTime r <> None ->
    exists stored,
      In stored (cache w')
      /\ Forall2 cached_form (Result.hotels r)
           (map Listed (hotels (results stored)))
      /\ totalResults (results stored) = Result.total r
      /\ forall x1 x2,
           cache_fault FindOne (ext w') = (None, x1) ->
           cache_fault Save x1 = (None, x2) ->
           clock (ext w') < expiresAt stored ->
           searchHotels criteria w'
           = (Ok (Result.mk (map Listed (hotels (results stored)))
                    (Result.total r) SourceCache None),
              {| cache := snd (recordHit (timezone x1) (clock x1) (cache w') stored);
                 ext := x2 |}).
Proof.
  intros criteria w w' r Hrun Hsrc Htime. revert Hrun.
  unfold searchHotels at 1, try_catch.
  destruct (search_attempt criteria w) as [[r0|m] w1] eqn:Hattempt.
  2: { intros Hfb. apply search_fallback_cases in Hfb.
       destruct Hfb as [_ [Hfb _]]. congruence. }
  intros Heq. injection Heq as <- <-.
  apply search_attempt_cases in Hattempt. destruct Hattempt as [_ Hs].
  rewrite Hsrc in Hs.
  destruct (Result.responseTime r0) as [t0|]; [|congruence].
  destruct Hs as [stored [formatted [t [Hstore Hhotels]]]].
  destruct (@createOrUpdateCache_stores_active _ _ _ _ _ _ _ Hstore)
    as [_ [_ Hexp]].
  destruct (@createOrUpdateCache_stored _ _ _ _ _ _ _ Hstore) as [Hres _].
  exists stored. split; [|split; [|split]].
  - assert (Hlt : t < t + 2 * msPerHour) by (unfold msPerHour; lia).
    pose proof (@store_then_lookup _ _ _ _ _ _ _ _ Hstore Hlt) as Hfound.
    unfold findValidCache in Hfound.
    destruct (generateSearchKey _); simpl in Hfound; [|discriminate].
    injection Hfound as Hfound. apply find_some in Hfound. tauto.
  - rewrite Hhotels, Hres. cbn [hotels cast_results].
    generalize 0%nat. clear.
    induction formatted as [|f rest IH]; intros counter; simpl; constructor.
    + unfold stored_form, cast_hotel; simpl. repeat split. discriminate.
    + apply IH.
  - rewrite Hres. reflexivity.
  - intros x1 x2 Hfind Hsave Hfresh.
    rewrite Hexp in Hfresh.
    pose proof (@store_then_lookup _ _ _ _ _ _ _ _ Hstore Hfresh) as Hfound.
    unfold searchHotels, try_catch. rewrite search_attempt_run.
    rewrite Hfound, Hfind, Hsave.
    f_equal. f_equal. rewrite Hres. reflexivity.
Qed.

(** X18. A search with an invalid check-in or check-out date never
    reaches the inventory service: the signature cannot be computed, so
    the call goes straight to the directory and returns its formatted
    hotels tagged [fallback], or fails with the inventory-unavailable
    error when the directory has none; the cache is not touched. *)
Theorem searchHotels_invalid_date_goes_to_directory :
  forall (criteria : Search.t) (w : World E) found x,
    Search.checkIn criteria = None \/ Search.checkOut criteria = None ->
    hotel_find (Search.location criteria) (ext w) = (found, x) ->
    searchHotels criteria w
    = match found with
      | Ok (d :: docs) =>
          (Ok (Result.mk
                 (map (fun hotel => Detailed (formatHotelDetails (toObject hotel)))
                    (firstn 20 (d :: docs)))
                 (Z.of_nat (List.length (firstn 20 (d :: docs))))
                 SourceFallback None),
           {| cache := cache w; ext := x |})
      | _ => (Throw inventory_unavailable, {| cache := cache w; ext := x |})
      end.
Proof.
  intros criteria w found x Hdate Hfind.
  assert (Hkey : findValidCache (cache w) (search_params criteria) (clock (ext w))
                 = Throw "Invalid time value").
  { unfold findValidCache, generateSearchKey, search_params. simpl.
    destruct Hdate as [-> | ->]; simpl; [reflexivity|].
    destruct (Search.checkIn criteria) as [t|]; [|reflexivity].
    unfold iso_date. destruct (civil_from_days _) as [[y m] d]. reflexivity. }
  unfold searchHotels, try_catch. rewrite search_attempt_run, Hkey.
  apply search_fallback_run. exact Hfind.
Qed.

End ServiceCache.

Lemma searchHotels_keeps_one_entry_per_signature_witness :
  one_entry_per_signature
    (cache (snd (searchHotels paris_search
                   (scripted_world (api_answer [the_grand_hotel]) (Ok [])
                      (Ok tt) no_fault)))).
Proof.
  apply (searchHotels_keeps_one_entry_per_signature paris_search
           (scripted_world (api_answer [the_grand_hotel]) (Ok []) (Ok tt) no_fault)
           (surjective_pairing _)).
  split; constructor.
Defined.

Lemma searchHotels_second_call_from_cache_witness :
  let w := scripted_world (api_answer [the_grand_hotel]) (Ok []) (Ok tt) no_fault in
  exists cachedHotels,
    fst (searchHotels paris_search (snd (searchHotels paris_search w)))
    = Ok (Result.mk cachedHotels 1 SourceCache None)
    /\ Forall2 cached_form [Listed (formatHotelResult the_grand_hotel)] cachedHotels.
Proof.
  intros w.
  destruct (searchHotels paris_search w) as [[r|m] w'] eqn:Hrun.
  2: { vm_compute in Hrun. discriminate. }
  assert (Hr : r = Result.mk [Listed (formatHotelResult the_grand_hotel)] 1
                     SourceApi (Some 0))
    by (vm_compute in Hrun; injection Hrun as <- _; reflexivity).
  assert (Hw : ext w' = ext w)
    by (vm_compute in Hrun; injection Hrun as _ <-; reflexivity).
  destruct (searchHotels_second_call_from_cache paris_search w Hrun)
    as [stored [Hin [Hform [_ Hsecond]]]].
  - rewrite Hr. reflexivity.
  - rewrite Hr. discriminate.
  - exists (map Listed (hotels (results stored))). split.
    + cbn [snd]. rewrite (Hsecond (ext w) (ext w)).
      * rewrite Hr. reflexivity.
      * rewrite Hw. reflexivity.
      * reflexivity.
      * assert (Hstored : expiresAt stored = may_20 + 2 * msPerHour).
        { vm_compute in Hrun. injection Hrun as _ <-.
          destruct Hin as [<-|[]]. reflexivity. }
        rewrite Hw, Hstored. vm_compute. reflexivity.
    + rewrite Hr in Hform. exact Hform.
Defined.

Lemma searchHotels_invalid_date_goes_to_directory_witness :
  searchHotels (Search.mk "Paris" None (Some june_3) None None)
    (scripted_world (api_answer [the_grand_hotel]) (Ok [hotel_p]) (Ok tt) no_fault)
  = (Ok (Result.mk [Detailed (formatHotelDetails (toObject hotel_p))] 1
           SourceFallback None),
     scripted_world (api_answer [the_grand_hotel]) (Ok [hotel_p]) (Ok tt) no_fault).
Proof.
  exact (searchHotels_invalid_date_goes_to_directory
           (Search.mk "Paris" None (Some june_3) None None)
           (scripted_world (api_answer [the_grand_hotel]) (Ok [hotel_p]) (Ok tt)
              no_fault)
           (or_introl eq_refl) eq_refl).
Defined.

Local Open Scope Q_scope.

Lemma score_order_spec a b : score_order a b = true <-> scores_at_least a b.
Proof.
  unfold score_order, scores_at_least. rewrite Qle_bool_iff. split; intros; lra.
Qed.

Lemma score_order_total a b : score_order a b = false -> score_order b a = true.
Proof.
  intros Hab. apply score_order_spec.
  destruct (Qlt_le_dec (alternative_score b) (alternative_score a)) as [Hlt|Hle].
  - assert (Habs : score_order a b = true)
      by (apply score_order_spec; unfold scores_at_least; lra).
    congruence.
  - exact Hle.
Qed.

Lemma alternatives_among_ranked hotels req found :
  alternatives_among hotels req = Ok found ->
  StronglySorted scores_at_least found
  /\ (forall h, In h found -> In h hotels)
  /\ (List.length found <= default_to (AltReq.limit req) 5)%nat.
Proof.
  intros Hfound.
  destruct (alternatives_among_candidates _ _ Hfound) as [named [Hnamed ->]].
  split; [|split].
  - apply Sorted_StronglySorted.
    + intros a b c Hab Hbc. unfold scores_at_least in *. lra.
    + apply firstn_sorted.
      apply (sorted_weaken (R := fun a b => score_order a b = true)).
      * intros a b. apply score_order_spec.
      * apply sort_by_sorted. exact score_order_total.
  - intros h Hin. apply in_firstn in Hin.
    apply (Permutation_in _ (sort_by_permutation _ _)) in Hin.
    assert (Hn : In h named).
    { destruct (AltReq.priceRange req); [apply filter_In in Hin; destruct Hin as [Hin _]|];
        (destruct (AltReq.starRating req) as [s|]; [destruct (truthy s)|]);
        try (apply filter_In in Hin; destruct Hin as [Hin _]); exact Hin. }
    apply (proj1 (filter_exc_spec _ _ Hnamed)) in Hn. tauto.
  - apply firstn_le_length.
Qed.



(** X20. The optional filters of [getAlternativeHotels].  With a price
    range, every alternative has a price within it, where a hotel without
    a price (such as a hotel formatted from the directory) counts as
    priced 0.  Without a star rating in the request (missing or 0) the
    rating is not looked at: every hotel of the search result of another
    name (priced within the requested range, if one is requested), rated
    or not, is returned unless the list is full, that is, has exactly
    [limit] hotels (five when no limit is given). *)
Theorem getAlternativeHotels_optional_filters :
  forall (E : Type) (B : Backend E) (req : AltReq.t) (w w' : World E)
         (found : list ResultHotel),
    getAlternativeHotels req w = (Ok found, w') ->
    exists searchResults,
      searchHotels (Search.mk (AltReq.location req) (AltReq.checkIn req)
                      (AltReq.checkOut req) None None) w
      = (Ok searchResults, w')
      /\ (forall range h,
            AltReq.priceRange req = Some range ->
            In h found ->
            Range.min range <= price_or_zero h <= Range.max range)
      /\ (is_truthy (AltReq.starRating req) = false ->
          forall h n,
            In h (Result.hotels searchResults) ->
            hotel_name h = Some n ->
            ~ equal_ignoring_case n (AltReq.originalHotelName req) ->
            (forall range,
                AltReq.priceRange req = Some range ->
                Range.min range <= price_or_zero h <= Range.max range) ->
            In h found
            \/ List.length found = default_to (AltReq.limit req) 5%nat).
Proof.
  intros E B req w w' found Hget.
  apply getAlternativeHotels_ok in Hget.
  destruct Hget as [searchResults [Hsearch Hamong]].
  exists searchResults. split; [exact Hsearch|]. split.
  - intros range h Hprice Hin.
    destruct (alternatives_among_candidates _ _ Hamong) as [named [_ Hfound]].
    rewrite Hfound, Hprice in Hin. apply in_firstn in Hin.
    apply (Permutation_in _ (sort_by_permutation _ _)) in Hin.
    apply filter_In in Hin. destruct Hin as [_ Hin].
    apply andb_true_iff in Hin. rewrite !Qle_bool_iff in Hin. exact Hin.
  - intros Hfalsy h n Hin Hn Hneq Hprice.
    apply (@alternatives_among_admits _ _ _ _ _ Hamong Hin Hn Hneq);
      [|exact Hprice].
    intros s Hs Ht. unfold is_truthy in Hfalsy. rewrite Hs in Hfalsy. congruence.
Qed.

Lemma getAlternativeHotels_optional_filters_witness :
  let unrated := raw_named "u" "Hotel U" None in
  let req := AltReq.mk "Hotel A" "Paris" (Some june_1) (Some june_3)
               None None None in
  exists found,
    fst (getAlternativeHotels req (healthy_world [unrated] [])) = Ok found
    /\ In (Listed (formatHotelResult unrated)) found.
Proof.
  intros unrated req.
  pose (w := healthy_world [unrated] []).
  pose (found := [Listed (formatHotelResult unrated)]).
  assert (Hrun : getAlternativeHotels req w
                 = (Ok found, snd (getAlternativeHotels req w)))
    by (vm_compute; reflexivity).
  exists found. split; [fold w; rewrite Hrun; reflexivity|].
  destruct (getAlternativeHotels_optional_filters Scripted req _ Hrun)
    as [searchResults [Hsearch [_ Hadm]]].
  assert (Hres : Result.hotels searchResults = found).
  { apply (f_equal fst) in Hsearch. vm_compute in Hsearch.
    injection Hsearch as <-. reflexivity. }
  destruct (Hadm eq_refl (Listed (formatHotelResult unrated)) "Hotel U"%string)
    as [Hfound|Hfull]; try reflexivity.
  - rewrite Hres. left. reflexivity.
  - rewrite equal_ignoring_case_spec. vm_compute. discriminate.
  - intros range Hrange. discriminate.
  - exact Hfound.
  - discriminate Hfull.
Defined.

Local Close Scope Q_scope.

Lemma find_exc_throws {A} (p : A -> Exc bool) xs m :
  find_exc p xs = Throw m -> exists x, In x xs /\ p x = Throw m.
Proof.
  induction xs as [|a xs IH]; simpl; [discriminate|].
  destruct (p a) as [b|m0] eqn:Hp; simpl.
  - destruct b; [discriminate|]. intros Hrest.
    destruct (IH Hrest) as [x [Hin Hx]]. exists x. auto.
  - intros Heq. injection Heq as <-. exists a. auto.
Qed.

Lemma find_exc_some {A} (p : A -> Exc bool) xs x :
  find_exc p xs = Ok (Some x) -> In x xs.
Proof.
  induction xs as [|a xs IH]; simpl; [discriminate|].
  destruct (p a) as [b|m0]; simpl; [|discriminate].
  destruct b; [intros Heq; injection Heq as <-; auto|auto].
Qed.

Lemma filter_exc_throws {A} (p : A -> Exc bool) xs m :
  filter_exc p xs = Throw m -> exists x, In x xs /\ p x = Throw m.
Proof.
  induction xs as [|a xs IH]; simpl; [discriminate|].
  destruct (p a) as [b|m0] eqn:Hp; simpl.
  - destruct (filter_exc p xs) as [rest|m1]; simpl; [discriminate|].
    intros Heq. injection Heq as <-.
    destruct (IH eq_refl) as [x [Hin Hx]]. exists x. auto.
  - intros Heq. injection Heq as <-. exists a. auto.
Qed.

Lemma filter_exc_throws_when {A} (p : A -> Exc bool) xs c :
  (forall x m, p x = Throw m -> m = c) ->
  (exists x, In x xs /\ p x = Throw c) ->
  filter_exc p xs = Throw c.
Proof.
  intros Honly. induction xs as [|a xs IH]; intros [x [Hin Hx]]; [destruct Hin|].
  simpl. destruct (p a) as [b|m0] eqn:Hp; simpl.
  - destruct Hin as [<-|Hin]; [congruence|].
    rewrite IH; [reflexivity|]. exists x. auto.
  - rewrite (Honly _ _ Hp). reflexivity.
Qed.

Lemma lower_name_throws hotel m :
  lower_name hotel = Throw m -> m = no_toLowerCase /\ hotel_name hotel = None.
Proof.
  unfold lower_name. destruct (hotel_name hotel); [discriminate|].
  intros Heq. injection Heq as <-. auto.
Qed.

Lemma same_name_throws n hotel m :
  same_name n hotel = Throw m -> m = no_toLowerCase /\ hotel_name hotel = None.
Proof.
  unfold same_name. destruct (lower_name hotel) eqn:Hl; simpl; [discriminate|].
  intros Heq. injection Heq as <-. exact (lower_name_throws _ Hl).
Qed.

Lemma similar_name_throws n hotel m :
  similar_name n hotel = Throw m -> m = no_toLowerCase /\ hotel_name hotel = None.
Proof.
  unfold similar_name. destruct (lower_name hotel) eqn:Hl; simpl; [discriminate|].
  intros Heq. injection Heq as <-. exact (lower_name_throws _ Hl).
Qed.

Lemma other_name_throws n hotel m :
  other_name n hotel = Throw m -> m = no_toLowerCase /\ hotel_name hotel = None.
Proof.
  unfold other_name. destruct (lower_name hotel) eqn:Hl; simpl; [discriminate|].
  intros Heq. injection Heq as <-. exact (lower_name_throws _ Hl).
Qed.

Lemma other_name_of_nameless n hotel :
  hotel_name hotel = None -> other_name n hotel = Throw no_toLowerCase.
Proof.
  intros Hn. unfold other_name, lower_name. rewrite Hn. reflexivity.
Qed.

Lemma match_by_name_throws hotels n m :
  match_by_name hotels n = Throw m ->
  m = no_toLowerCase /\ exists h, In h hotels /\ hotel_name h = None.
Proof.
  unfold match_by_name.
  destruct (find_exc (same_name n) hotels) as [[h|]|m0] eqn:Hexact; simpl.
  - discriminate.
  - destruct (find_exc (similar_name n) hotels) as [[h|]|m1] eqn:Hpartial; simpl;
      try discriminate.
    intros Heq. injection Heq as <-.
    destruct (find_exc_throws _ _ Hpartial) as [h [Hin Hh]].
    destruct (similar_name_throws _ _ Hh) as [-> Hnone].
    split; [reflexivity|]. exists h. auto.
  - intros Heq. injection Heq as <-.
    destruct (find_exc_throws _ _ Hexact) as [h [Hin Hh]].
    destruct (same_name_throws _ _ Hh) as [-> Hnone].
    split; [reflexivity|]. exists h. auto.
Qed.

Lemma match_by_name_found hotels n r :
  match_by_name hotels n = Ok r ->
  NameMatch.found r = true ->
  (exists h, NameMatch.hotel r = Some h /\ In h hotels)
  /\ (NameMatch.confidence r = 1%Q \/ NameMatch.confidence r = (8 # 10)%Q).
Proof.
  unfold match_by_name.
  destruct (find_exc (same_name n) hotels) as [[h|]|m0] eqn:Hexact; simpl;
    [| |discriminate].
  - intros Heq _. injection Heq as <-. simpl. split; [|auto].
    exists h. split; [reflexivity|]. exact (find_exc_some _ _ Hexact).
  - destruct (find_exc (similar_name n) hotels) as [[h|]|m1] eqn:Hpartial; simpl;
      [| |discriminate].
    + intros Heq _. injection Heq as <-. simpl. split; [|auto].
      exists h. split; [reflexivity|]. exact (find_exc_some _ _ Hpartial).
    + intros Heq Hfound. injection Heq as <-. discriminate.
Qed.

Lemma alternatives_among_throws hotels req m :
  alternatives_among hotels req = Throw m <->
  m = no_toLowerCase /\ exists h, In h hotels /\ hotel_name h = None.
Proof.
  unfold alternatives_among. split.
  - destruct (filter_exc _ hotels) as [named|m0] eqn:Hf; simpl; [discriminate|].
    intros Heq. injection Heq as <-.
    destruct (filter_exc_throws _ _ Hf) as [h [Hin Hh]].
    destruct (other_name_throws _ _ Hh) as [-> Hnone].
    split; [reflexivity|]. exists h. auto.
  - intros [-> [h [Hin Hnone]]].
    rewrite (filter_exc_throws_when (other_name (AltReq.originalHotelName req))
               hotels (c := no_toLowerCase)); [reflexivity| |].
    + intros x m Hx. exact (proj1 (other_name_throws _ _ Hx)).
    + exists h. split; [exact Hin|]. apply other_name_of_nameless. exact Hnone.
Qed.

Lemma perm_reported_first {A} (r : A) V L U :
  Permutation ((V ++ [r]) ++ L ++ U) (r :: V ++ L ++ U).
Proof.
  rewrite <- app_assoc. simpl. symmetry. apply Permutation_middle.
Qed.

Lemma perm_reported_second {A} (r : A) V L U :
  Permutation (V ++ (L ++ [r]) ++ U) (r :: V ++ L ++ U).
Proof.
  rewrite <- (app_assoc L [r] U). simpl.
  rewrite (app_assoc V L (r :: U)), (app_assoc V L U).
  symmetry. apply Permutation_middle.
Qed.

Lemma perm_reported_third {A} (r : A) V L U :
  Permutation (V ++ L ++ U ++ [r]) (r :: V ++ L ++ U).
Proof.
  rewrite !app_assoc. symmetry. apply Permutation_cons_append.
Qed.

Section ServiceVerification.
Context {E : Type} {B : Backend E}.

Lemma searchHotelByName_cases hotelName location checkIn checkOut (w : World E) :
  match searchHotels (plain_search location checkIn checkOut) w with
  | (Ok searchResults, w1) =>
      searchHotelByName hotelName location checkIn checkOut w
      = match match_by_name (Result.hotels searchResults) hotelName with
        | Ok r => (Ok r, w1)
        | Throw m => (Throw ("Failed to search hotel by name: " ++ m), w1)
        end
  | (Throw m, w1) =>
      m = inventory_unavailable
      /\ searchHotelByName hotelName location checkIn checkOut w
         = (Throw ("Failed to search hotel by name: " ++ inventory_unavailable), w1)
  end.
Proof.
  unfold searchHotelByName, plain_search, try_catch, bind, lift_exc, throw.
  destruct (searchHotels _ w) as [[searchResults|m] w1] eqn:Hs.
  - destruct (match_by_name _ hotelName); reflexivity.
  - rewrite (searchHotels_throws_only_generic _ _ Hs). auto.
Qed.

Lemma getAlternativeHotels_cases (req : AltReq.t) (w : World E) :
  match searchHotels (plain_search (AltReq.location req) (AltReq.checkIn req)
                        (AltReq.checkOut req)) w with
  | (Ok searchResults, w1) =>
      getAlternativeHotels req w
      = match alternatives_among (Result.hotels searchResults) req with
        | Ok found => (Ok found, w1)
        | Throw m => (Throw ("Failed to get alternative hotels: " ++ m), w1)
        end
  | (Throw m, w1) =>
      m = inventory_unavailable
      /\ getAlternativeHotels req w
         = (Throw ("Failed to get alternative hotels: " ++ inventory_unavailable), w1)
  end.
Proof.
  unfold getAlternativeHotels, plain_search, try_catch, bind, lift_exc, throw.
  destruct (searchHotels _ w) as [[searchResults|m] w1] eqn:Hs.
  - destruct (alternatives_among _ req); reflexivity.
  - rewrite (searchHotels_throws_only_generic _ _ Hs). auto.
Qed.

(** X21. [searchHotelByName] fails in two ways only.  When the search
    fails, it throws 'Failed to search hotel by name: Failed to search
    hotels via TSS API'.  When the search succeeds, it throws only the
    wrapped TypeError of [hotel.name.toLowerCase()], and only if some
    hotel of the result has no name; a match it returns as found is a
    hotel of the search result. *)
Theorem searchHotelByName_failures :
  forall (hotelName location : string) (checkIn checkOut : JsDate) (w w' : World E),
    (forall m,
        searchHotelByName hotelName location checkIn checkOut w = (Throw m, w') ->
        (m = ("Failed to search hotel by name: " ++ inventory_unavailable)%string
         /\ searchHotels (plain_search location checkIn checkOut) w
            = (Throw inventory_unavailable, w'))
        \/ (m = ("Failed to search hotel by name: " ++ no_toLowerCase)%string
            /\ exists searchResults h,
                 searchHotels (plain_search location checkIn checkOut) w
                 = (Ok searchResults, w')
                 /\ In h (Result.hotels searchResults)
                 /\ hotel_name h = None))
    /\ (forall r,
          searchHotelByName hotelName location checkIn checkOut w = (Ok r, w') ->
          NameMatch.found r = true ->
          exists searchResults h,
            searchHotels (plain_search location checkIn checkOut) w
            = (Ok searchResults, w')
            /\ NameMatch.hotel r = Some h
            /\ In h (Result.hotels searchResults)).
Proof.
  intros hotelName location checkIn checkOut w w'.
  pose proof (searchHotelByName_cases hotelName location checkIn checkOut w) as Hcases.
  destruct (searchHotels (plain_search location checkIn checkOut) w)
    as [[searchResults|m0] w1].
  - rewrite Hcases.
    destruct (match_by_name (Result.hotels searchResults) hotelName) as [r0|m1] eqn:Hm.
    + split; [discriminate|].
      intros r Heq Hfound. injection Heq as <- <-.
      destruct (match_by_name_found _ _ Hm Hfound) as [[h [Hh Hin]] _].
      exists searchResults, h. auto.
    + split; [|discriminate].
      intros m Heq. injection Heq as <- <-. right.
      destruct (match_by_name_throws _ _ Hm) as [-> [h [Hin Hnone]]].
      split; [reflexivity|]. exists searchResults, h. auto.
  - destruct Hcases as [-> ->]. split; [|discriminate].
    intros m Heq. injection Heq as <- <-. left. auto.
Qed.

(** X22. [getAlternativeHotels] throws exactly in two cases: the search
    fails, with the message 'Failed to get alternative hotels: Failed to
    search hotels via TSS API', or the search succeeds and some hotel of
    its result has no name, with the wrapped TypeError of
    [hotel.name.toLowerCase()]: the first filter visits every hotel. *)
Theorem getAlternativeHotels_throws_exactly :
  forall (req : AltReq.t) (w w' : World E) (m : string),
    getAlternativeHotels req w = (Throw m, w') <->
    (m = ("Failed to get alternative hotels: " ++ inventory_unavailable)%string
     /\ searchHotels (plain_search (AltReq.location req) (AltReq.checkIn req)
                        (AltReq.checkOut req)) w
        = (Throw inventory_unavailable, w'))
    \/ (m = ("Failed to get alternative hotels: " ++ no_toLowerCase)%string
        /\ exists searchResults h,
             searchHotels (plain_search (AltReq.location req) (AltReq.checkIn req)
                             (AltReq.checkOut req)) w
             = (Ok searchResults, w')
             /\ In h (Result.hotels searchResults)
             /\ hotel_name h = None).
Proof.
  intros req w w' m.
  pose proof (getAlternativeHotels_cases req w) as Hcases.
  destruct (searchHotels _ w) as [[searchResults|m0] w1].
  - rewrite Hcases. split.
    + destruct (alternatives_among _ req) as [found|m1] eqn:Ha; [discriminate|].
      intros Heq. injection Heq as <- <-. right.
      destruct (proj1 (alternatives_among_throws _ _ _) Ha) as [-> [h [Hin Hnone]]].
      split; [reflexivity|]. exists searchResults, h. auto.
    + intros [[_ Habs]|[-> [sr [h [Heq [Hin Hnone]]]]]]; [discriminate|].
      injection Heq as <- <-.
      rewrite (proj2 (alternatives_among_throws (Result.hotels searchResults) req
                        no_toLowerCase)); [reflexivity|].
      split; [reflexivity|]. exists h. auto.
  - destruct Hcases as [-> ->]. split.
    + intros Heq. injection Heq as <- <-. left. auto.
    + intros [[-> Heq]|[_ [sr [h [Habs _]]]]]; [|discriminate].
      injection Heq as <-. reflexivity.
Qed.

Lemma verify_one_run location checkIn checkOut results recommendedHotel (w : World E) :
  exists results' w',
    verify_one location checkIn checkOut results recommendedHotel w = (Ok results', w')
    /\ Permutation (reported results') (recommendedHotel :: reported results)
    /\ (well_reported results -> well_reported results').
Proof.
  unfold verify_one, try_catch, bind, ret.
  destruct (searchHotelByName (Recommended.name recommendedHotel) location
              checkIn checkOut w) as [[searchResult|m] w1] eqn:Hname.
  - destruct (NameMatch.found searchResult) eqn:Hfound.
    + eexists _, _. split; [reflexivity|]. split.
      * unfold reported. simpl. rewrite map_app. simpl. apply perm_reported_first.
      * intros [Hv [Ha Hu]]. split; [|split]; simpl; try assumption.
        apply Forall_app. split; [exact Hv|]. constructor; [|constructor]. simpl.
        pose proof (searchHotelByName_cases (Recommended.name recommendedHotel)
                      location checkIn checkOut w) as Hcases.
        destruct (searchHotels (plain_search location checkIn checkOut) w)
          as [[searchResults|m0] w0].
        -- rewrite Hname in Hcases.
           destruct (match_by_name _ _) as [r|m1] eqn:Hm; [|discriminate].
           injection Hcases as -> _.
           destruct (match_by_name_found _ _ Hm Hfound) as [[h [Hh _]] Hconf].
           split; [reflexivity|]. split; [congruence|exact Hconf].
        -- destruct Hcases as [_ Habs]. congruence.
    + destruct (getAlternativeHotels _ w1) as [[found|m] w2] eqn:Halt.
      * destruct (0 <? List.length found)%nat eqn:Hlen.
        -- eexists _, _. split; [reflexivity|]. split.
           ++ unfold reported. simpl. rewrite map_app. simpl.
              apply perm_reported_second.
           ++ intros [Hv [Ha Hu]]. split; [|split]; simpl; try assumption.
              apply Forall_app. split; [exact Ha|]. constructor; [|constructor].
              simpl. split; [reflexivity|].
              apply Nat.ltb_lt in Hlen.
              destruct (getAlternativeHotels_inv _ _ Halt) as [sr [w3 [_ Hamong]]].
              destruct (alternatives_among_ranked _ _ Hamong) as [_ [_ Hcap]].
              simpl in Hcap. lia.
        -- eexists _, _. split; [reflexivity|]. split.
           ++ unfold reported. simpl. rewrite map_app. simpl.
              apply perm_reported_third.
           ++ intros [Hv [Ha Hu]]. split; [|split]; simpl; try assumption.
              apply Forall_app. split; [exact Hu|]. constructor; [|constructor].
              simpl. auto.
      * eexists _, _. split; [reflexivity|]. split.
        -- unfold reported. simpl. rewrite map_app. simpl.
           apply perm_reported_third.
        -- intros [Hv [Ha Hu]]. split; [|split]; simpl; try assumption.
           apply Forall_app. split; [exact Hu|]. constructor; [|constructor].
           simpl. auto.
  - eexists _, _. split; [reflexivity|]. split.
    + unfold reported. simpl. rewrite map_app. simpl. apply perm_reported_third.
    + intros [Hv [Ha Hu]]. split; [|split]; simpl; try assumption.
      apply Forall_app. split; [exact Hu|]. constructor; [|constructor].
      simpl. auto.
Qed.

Lemma verify_loop_run location checkIn checkOut hotels :
  forall results (w : World E),
  exists results' w',
    verify_loop location checkIn checkOut results hotels w = (Ok results', w')
    /\ Permutation (reported results') (rev hotels ++ reported results)
    /\ (well_reported results -> well_reported results').
Proof.
  induction hotels as [|h hotels IH]; intros results w; simpl.
  - exists results, w. unfold ret. auto.
  - unfold bind.
    destruct (verify_one_run location checkIn checkOut results h w)
      as [r1 [w1 [-> [Hperm Hwell]]]].
    destruct (IH r1 w1) as [r2 [w2 [Hrun [Hperm2 Hwell2]]]].
    exists r2, w2. split; [exact Hrun|]. split; [|auto].
    rewrite Hperm2. rewrite <- app_assoc. simpl.
    apply Permutation_app_head. exact Hperm.
Qed.

(** X23. [verifyRecommendedHotels] always returns, whatever the
    inventory service, the directory and the cache do, and it reports on
    every recommended hotel exactly once: the originals of the three
    lists together are a rearrangement of the input.  A verified item has
    a hotel and a confidence of 1 or 0.8, an item with alternatives has
    between one and three of them, and every other hotel is listed as
    unavailable or in error. *)
Theorem verifyRecommendedHotels_reports_each_once :
  forall (hotels : list Recommended.t) (location : string)
         (checkIn checkOut : JsDate) (w : World E),
    exists results w',
      verifyRecommendedHotels hotels location checkIn checkOut w = (Ok results, w')
      /\ Permutation (reported results) hotels
      /\ well_reported results.
Proof.
  intros hotels location checkIn checkOut w. unfold verifyRecommendedHotels.
  destruct (verify_loop_run location checkIn checkOut hotels
              (Verification.mk [] [] []) w) as [results [w' [Hrun [Hperm Hwell]]]].
  exists results, w'. split; [exact Hrun|]. split.
  - rewrite Hperm. unfold reported. simpl. rewrite app_nil_r.
    symmetry. apply Permutation_rev.
  - apply Hwell. unfold well_reported. simpl. auto.
Qed.

(** X24. A failed search does not stop the verification: when the
    search for a recommended hotel throws, the turn of the loop returns
    the results it was given with one more unavailable item, of status
    'error' and with the doubly wrapped message as its reason. *)
Theorem verify_one_isolates_search_failure :
  forall (location : string) (checkIn checkOut : JsDate)
         (results : Verification.t) (recommendedHotel : Recommended.t)
         (w w1 : World E) (m : string),
    searchHotels (plain_search location checkIn checkOut) w = (Throw m, w1) ->
    verify_one location checkIn checkOut results recommendedHotel w
    = (Ok (Verification.mk
             (Verification.verified results)
             (Verification.alternatives results)
             (Verification.unavailable results
              ++ [ {| u_original := recommendedHotel;
                      u_status := "error";
                      u_reason :=
                        "Failed to search hotel by name: Failed to search hotels via TSS API" |} ])%list),
       w1).
Proof.
  intros location checkIn checkOut results recommendedHotel w w1 m Hs.
  pose proof (searchHotelByName_cases (Recommended.name recommendedHotel)
                location checkIn checkOut w) as Hcases.
  rewrite Hs in Hcases. destruct Hcases as [_ Hname].
  unfold verify_one, try_catch. unfold bind at 1. rewrite Hname. reflexivity.
Qed.

End ServiceVerification.

Lemma searchHotelByName_failures_witness :
  let nameless :=
    {| Raw.id := Some "n"; Raw.hotelId := None;
       Raw.name := None; Raw.hotelName := None;
       Raw.address := None; Raw.city := None; Raw.country := None;
       Raw.latitude := None; Raw.longitude := None;
       Raw.starRating := None; Raw.category := None;
       Raw.reviewScore := None; Raw.rating := None;
       Raw.reviewCount := None; Raw.numberOfReviews := None;
       Raw.price := None; Raw.totalPrice := None; Raw.pricePerNight := None;
       Raw.amenities := None; Raw.facilities := None;
       Raw.images := None; Raw.photos := None;
       Raw.description := None; Raw.hotelDescription := None;
       Raw.distance := None; Raw.availability := None;
       Raw.rooms := None; Raw.checkInTime := None; Raw.checkOutTime := None;
       Raw.cancellationPolicy := None; Raw.childPolicy := None;
       Raw.petPolicy := None; Raw.phone := None; Raw.email := None;
       Raw.website := None |} in
  fst (searchHotelByName "Hotel A" "Paris" (Some june_1) (Some june_3)
         (healthy_world [nameless] []))
  = Throw ("Failed to search hotel by name: " ++ no_toLowerCase)%string
  /\ exists searchResults h,
       fst (searchHotels (plain_search "Paris" (Some june_1) (Some june_3))
              (healthy_world [nameless] []))
       = Ok searchResults
       /\ In h (Result.hotels searchResults)
       /\ hotel_name h = None.
Proof.
  intros nameless.
  assert (Hrun : searchHotelByName "Hotel A" "Paris" (Some june_1) (Some june_3)
                   (healthy_world [nameless] [])
                 = (Throw ("Failed to search hotel by name: " ++ no_toLowerCase)%string,
                    snd (searchHotelByName "Hotel A" "Paris" (Some june_1) (Some june_3)
                           (healthy_world [nameless] []))))
    by (vm_compute; reflexivity).
  split; [rewrite Hrun; reflexivity|].
  destruct (proj1 (searchHotelByName_failures (B := Scripted) "Hotel A" "Paris"
                     (Some june_1) (Some june_3) _ _) _ Hrun)
    as [[Habs _]|[_ [searchResults [h [Hs [Hin Hnone]]]]]].
  - vm_compute in Habs. discriminate.
  - exists searchResults, h. rewrite Hs. auto.
Defined.

Lemma getAlternativeHotels_throws_exactly_witness :
  fst (getAlternativeHotels
         (AltReq.mk "Hotel A" "Paris" (Some june_1) (Some june_3) None None None)
         (scripted_world (Throw "ECONNREFUSED") (Ok []) (Ok tt) no_fault))
  = Throw "Failed to get alternative hotels: Failed to search hotels via TSS API".
Proof.
  assert (H : getAlternativeHotels
                (AltReq.mk "Hotel A" "Paris" (Some june_1) (Some june_3) None None None)
                (scripted_world (Throw "ECONNREFUSED") (Ok []) (Ok tt) no_fault)
              = (Throw "Failed to get alternative hotels: Failed to search hotels via TSS API",
                 snd (searchHotels (plain_search "Paris" (Some june_1) (Some june_3))
                        (scripted_world (Throw "ECONNREFUSED") (Ok []) (Ok tt) no_fault)))).
  { apply (proj2 (getAlternativeHotels_throws_exactly (B := Scripted) _ _ _ _)).
    left. split; [reflexivity|]. vm_compute. reflexivity. }
  rewrite H. reflexivity.
Defined.

Lemma verify_one_isolates_search_failure_witness :
  let recommended := Recommended.mk "Hotel A" (Some 4%Q) in
  let w := scripted_world (Throw "ECONNREFUSED") (Ok []) (Ok tt) no_fault in
  fst (verifyRecommendedHotels [recommended] "Paris" (Some june_1) (Some june_3) w)
  = Ok (Verification.mk [] []
          [ {| u_original := recommended;
               u_status := "error";
               u_reason :=
                 "Failed to search hotel by name: Failed to search hotels via TSS API" |} ]).
Proof.
  intros recommended w.
  unfold verifyRecommendedHotels, verify_loop, bind.
  rewrite (verify_one_isolates_search_failure (B := Scripted) "Paris" (Some june_1) (Some june_3)
             (Verification.mk [] [] []) recommended w
             (w1 := snd (searchHotels (plain_search "Paris" (Some june_1) (Some june_3)) w))
             (m := inventory_unavailable)).
  - reflexivity.
  - vm_compute. reflexivity.
Defined.

Local Open Scope Q_scope.

Lemma averagePrice_between_witness :
  averagePrice (priced_doc 80 120) = Some ((80 + 120) / 2)
  /\ 80 <= (80 + 120) / 2 <= 120.
Proof.
  split; [reflexivity|].
  apply (proj2 (averagePrice_between (priced_doc 80 120)) 80 120);
    [reflexivity|reflexivity|reflexivity|].
  unfold Qle. simpl. lia.
Defined.

Local Close Scope Q_scope.

(** X25. Falsy values take the defaults of the signature: a room or
    guest count that is missing or 0 gives the signature of the count 1,
    a filter object whose [minRating], [maxPrice] and [hotelChain] are all
    missing, 0 or empty gives the signature of no filter object, and the
    hotel chain counts without its letter case. *)
Theorem generateSearchKey_falsy_defaults :
  forall (location : string) (checkIn checkOut : JsDate)
         (rooms guests : option Z) (filters : option Filters.t),
    (is_truthy rooms = false ->
     generateSearchKey (Params.mk location checkIn checkOut rooms guests filters)
     = generateSearchKey (Params.mk location checkIn checkOut (Some 1) guests filters))
    /\ (is_truthy guests = false ->
        generateSearchKey (Params.mk location checkIn checkOut rooms guests filters)
        = generateSearchKey (Params.mk location checkIn checkOut rooms (Some 1) filters))
    /\ (forall f,
          filters = Some f ->
          is_truthy (Filters.minRating f) = false ->
          is_truthy (Filters.maxPrice f) = false ->
          is_truthy (Filters.hotelChain f) = false ->
          generateSearchKey (Params.mk location checkIn checkOut rooms guests filters)
          = generateSearchKey (Params.mk location checkIn checkOut rooms guests None))
    /\ (forall f chain chain',
          filters = Some f ->
          Filters.hotelChain f = Some chain ->
          toLowerCase chain = toLowerCase chain' ->
          generateSearchKey (Params.mk location checkIn checkOut rooms guests filters)
          = generateSearchKey
              (Params.mk location checkIn checkOut rooms guests
                 (Some (Filters.mk (Filters.minRating f) (Filters.maxPrice f)
                          (Filters.amenities f) (Some chain'))))).
Proof.
  intros location checkIn checkOut rooms guests filters.
  assert (Hdefault : forall v : option Z,
             is_truthy v = false -> js_or_default v 1 = 1).
  { intros [z|]; simpl; [|reflexivity]. intros ->. reflexivity. }
  assert (Hpart : forall (A : Type) (T : Truthy A) prefix (v : option A) show,
             is_truthy v = false -> filter_part prefix v show = []).
  { intros A T prefix [a|] show; simpl; [|reflexivity]. intros ->. reflexivity. }
  split; [|split; [|split]].
  - intros Hrooms. unfold generateSearchKey. simpl.
    rewrite (Hdefault _ Hrooms). reflexivity.
  - intros Hguests. unfold generateSearchKey. simpl.
    rewrite (Hdefault _ Hguests). reflexivity.
  - intros f -> Hmin Hmax Hchain. unfold generateSearchKey. simpl.
    rewrite (Hpart _ _ _ _ _ Hmin), (Hpart _ _ _ _ _ Hmax), (Hpart _ _ _ _ _ Hchain).
    rewrite ?app_nil_r. reflexivity.
  - intros f chain chain' -> Hf Hlower. unfold generateSearchKey. simpl.
    rewrite Hf. unfold filter_part at 3 6. rewrite Hlower.
    assert (Htruthy : truthy chain = truthy chain').
    { destruct chain, chain'; simpl in Hlower; try discriminate; reflexivity. }
    rewrite Htruthy. reflexivity.
Qed.

Lemma generateSearchKey_falsy_defaults_witness :
  generateSearchKey
    (Params.mk "Paris" (Some june_1) (Some june_3) (Some 0) None
       (Some (Filters.mk (Some 0) None ["pool"] (Some ""))))
  = generateSearchKey
      (Params.mk "Paris" (Some june_1) (Some june_3) (Some 1) None None).
Proof.
  rewrite (proj1 (generateSearchKey_falsy_defaults "Paris" (Some june_1) (Some june_3)
                    (Some 0) None
                    (Some (Filters.mk (Some 0) None ["pool"] (Some ""))))
             eq_refl).
  apply (proj1 (proj2 (proj2 (generateSearchKey_falsy_defaults "Paris" (Some june_1)
                                (Some june_3) (Some 1) None
                                (Some (Filters.mk (Some 0) None ["pool"] (Some ""))))))
           (Filters.mk (Some 0) None ["pool"] (Some "")));
    reflexivity.
Defined.

Section ServiceSignature.
Context {E : Type} {B : Backend E}.

(** X26. A cache hit depends on the search through its signature only:
    when a search is answered from the cache, every search with the same
    signature, made in the same state, gets the same answer and leaves
    the same state, whatever its own location spelling or counts are. *)
Theorem searchHotels_cache_hit_by_signature :
  forall (criteria criteria' : Search.t) (w w' : World E) (r : Result.t),
    generateSearchKey (search_params criteria)
    = generateSearchKey (search_params criteria') ->
    searchHotels criteria w = (Ok r, w') ->
    Result.source r = SourceCache ->
    searchHotels criteria' w = (Ok r, w').
Proof.
  intros criteria criteria' w w' r Hkey Hrun Hsrc. revert Hrun.
  assert (Hfallback : forall w0,
             search_fallback criteria w0 = (Ok r, w') -> False).
  { intros w0 Hfb. apply search_fallback_cases in Hfb.
    destruct Hfb as [_ [Hfb _]]. congruence. }
  unfold searchHotels, try_catch. rewrite !search_attempt_run.
  assert (Hfind : findValidCache (cache w) (search_params criteria') (clock (ext w))
                  = findValidCache (cache w) (search_params criteria) (clock (ext w))).
  { unfold findValidCache. rewrite Hkey. reflexivity. }
  rewrite Hfind.
  destruct (findValidCache (cache w) (search_params criteria) (clock (ext w)))
    as [found|m]; [|intros Hfb; destruct (Hfallback _ Hfb)].
  destruct (cache_fault FindOne (ext w)) as [[m|] x1];
    [intros Hfb; destruct (Hfallback _ Hfb)|].
  destruct found as [cached|].
  - destruct (cache_fault Save x1) as [[m|] x2];
      [intros Hfb; destruct (Hfallback _ Hfb)|].
    intros Heq. exact Heq.
  - destruct (tss_post (search_payload criteria) x1) as [[response|m] x2];
      [|intros Hfb; destruct (Hfallback _ Hfb)].
    destruct (opt_chain (data response) ApiData.hotels) as [rawHotels|].
    + cbv zeta.
      destruct (createOrUpdateCache (cache w) (search_params criteria) _ 2 (clock x2))
        as [[e docs']|m]; [|intros Hfb; destruct (Hfallback _ Hfb)].
      destruct (cache_fault FindOneAndUpdate x2) as [[m|] x3];
        [intros Hfb; destruct (Hfallback _ Hfb)|].
      intros Heq. injection Heq as <- _. discriminate.
    + intros Heq. injection Heq as <- _. discriminate.
Qed.

Lemma fallback_hotels_bare :
  forall (criteria : Search.t) (w w' : World E) (r : Result.t),
    searchHotels criteria w = (Ok r, w') ->
    Result.source r = SourceFallback ->
    Forall (fun h => bare_details h /\ hotel_priceAmount h = None) (Result.hotels r).
Proof.
  intros criteria w w' r Hrun Hsrc. revert Hrun.
  unfold searchHotels, try_catch.
  destruct (search_attempt criteria w) as [[r0|m] w1] eqn:Hattempt.
  - intros Heq. injection Heq as <- <-.
    apply search_attempt_cases in Hattempt. destruct Hattempt as [_ Hs].
    rewrite Hsrc in Hs. destruct Hs.
  - destruct (hotel_find (Search.location criteria) (ext w1)) as [found x] eqn:Hfind.
    rewrite (search_fallback_run criteria w1 Hfind).
    destruct found as [[|d docs]|m0]; try discriminate.
    remember (firstn 20 (d :: docs)) as kept eqn:Hkept.
    intros Heq. injection Heq as <- _. cbn [Result.hotels].
    apply Forall_forall. intros h Hin. apply in_map_iff in Hin.
    destruct Hin as [doc [<- _]]. simpl. repeat split; reflexivity.
Qed.

(** X27. The hotels of a fallback result are formatted from directory
    documents, whose address and contact are nested where the formatter
    does not look: each has no address, city or country, no phone or
    e-mail, the default check-in and check-out times '15:00' and '11:00',
    and no price. *)
Theorem searchHotels_fallback_hotels_are_bare :
  forall (criteria : Search.t) (w w' : World E) (r : Result.t),
    searchHotels criteria w = (Ok r, w') ->
    Result.source r = SourceFallback ->
    Forall (fun h => bare_details h /\ hotel_priceAmount h = None) (Result.hotels r).
Proof.
  exact fallback_hotels_bare.
Qed.

(** X28. A price range whose lower end is above 0 leaves no
    alternatives when the search fell back to the directory: the
    formatted directory hotels have no price, which the price filter of
    [getAlternativeHotels] counts as 0. *)
Theorem getAlternativeHotels_fallback_has_no_priced_alternatives :
  forall (req : AltReq.t) (w w' w1 : World E) (searchResults : Result.t)
         (priceRange : Range.t) (found : list ResultHotel),
    searchHotels (plain_search (AltReq.location req) (AltReq.checkIn req)
                    (AltReq.checkOut req)) w
    = (Ok searchResults, w1) ->
    Result.source searchResults = SourceFallback ->
    AltReq.priceRange req = Some priceRange ->
    (0 < Range.min priceRange)%Q ->
    getAlternativeHotels req w = (Ok found, w') ->
    found = [].
Proof.
  intros req w w' w1 searchResults priceRange found Hsearch Hsrc Hprice Hmin Hget.
  pose proof (getAlternativeHotels_cases req w) as Hcases.
  rewrite Hsearch in Hcases. rewrite Hget in Hcases.
  destruct (alternatives_among (Result.hotels searchResults) req) as [l|m] eqn:Hamong;
    [|discriminate].
  injection Hcases as -> _.
  destruct l as [|h l]; [reflexivity|]. exfalso.
  destruct (alternatives_among_ranked _ _ Hamong) as [_ [Hin _]].
  assert (Hh : In h (Result.hotels searchResults)) by (apply Hin; simpl; auto).
  assert (Hbare : hotel_priceAmount h = None).
  { pose proof (fallback_hotels_bare _ _ Hsearch Hsrc) as Hall.
    rewrite Forall_forall in Hall. exact (proj2 (Hall h Hh)). }
  destruct (alternatives_among_candidates _ _ Hamong) as [named [_ Hfound]].
  rewrite Hprice in Hfound.
  assert (Hkept : In h (h :: l)) by (simpl; auto).
  rewrite Hfound in Hkept. apply in_firstn in Hkept.
  apply (Permutation_in _ (sort_by_permutation _ _)) in Hkept.
  apply filter_In in Hkept. destruct Hkept as [_ Hkept].
  apply andb_true_iff in Hkept. destruct Hkept as [Hlo _].
  apply Qle_bool_iff in Hlo. unfold price_or_zero in Hlo.
  rewrite Hbare in Hlo. simpl in Hlo. lra.
Qed.

End ServiceSignature.

Lemma searchHotels_cache_hit_by_signature_witness :
  let raw := raw_named "b" "Hotel B" (Some 4%Q) in
  let w1 :=
    snd (searchHotels (Search.mk "Paris" (Some june_1) (Some june_3) (Some 1) (Some 1))
           (healthy_world [raw] [])) in
  exists cachedHotels,
    fst (searchHotels (Search.mk "Paris" (Some june_1) (Some june_3) (Some 1) (Some 1)) w1)
    = Ok (Result.mk cachedHotels 1 SourceCache None)
    /\ fst (searchHotels (Search.mk "PARIS" (Some june_1) (Some june_3) None (Some 0)) w1)
       = Ok (Result.mk cachedHotels 1 SourceCache None).
Proof.
  intros raw w1.
  exists [Listed (cast_hotel (objectId may_20 0) (formatHotelResult raw))].
  assert (Hrun : searchHotels
                   (Search.mk "Paris" (Some june_1) (Some june_3) (Some 1) (Some 1)) w1
                 = (Ok (Result.mk
                          [Listed (cast_hotel (objectId may_20 0) (formatHotelResult raw))]
                          1 SourceCache None),
                    snd (searchHotels
                           (Search.mk "Paris" (Some june_1) (Some june_3) (Some 1) (Some 1))
                           w1)))
    by (vm_compute; reflexivity).
  assert (Hkey : generateSearchKey
                   (search_params
                      (Search.mk "Paris" (Some june_1) (Some june_3) (Some 1) (Some 1)))
                 = generateSearchKey
                     (search_params
                        (Search.mk "PARIS" (Some june_1) (Some june_3) None (Some 0))))
    by (vm_compute; reflexivity).
  split; [rewrite Hrun; reflexivity|].
  rewrite (@searchHotels_cache_hit_by_signature _ Scripted _ _ _ _ _ Hkey Hrun eq_refl).
  reflexivity.
Defined.

Lemma searchHotels_fallback_hotels_are_bare_witness :
  let doc := doc_named "d1" "Hotel B" "Paris" (Some 4%Q) in
  let w := scripted_world (Throw "ECONNREFUSED") (Ok [doc]) (Ok tt) no_fault in
  fst (searchHotels (plain_search "Paris" (Some june_1) (Some june_3)) w)
  = Ok (Result.mk [Detailed (formatHotelDetails (toObject doc))] 1 SourceFallback None)
  /\ Forall (fun h => bare_details h /\ hotel_priceAmount h = None)
       [Detailed (formatHotelDetails (toObject doc))].
Proof.
  intros doc w.
  assert (Hrun : searchHotels (plain_search "Paris" (Some june_1) (Some june_3)) w
                 = (Ok (Result.mk [Detailed (formatHotelDetails (toObject doc))] 1
                          SourceFallback None),
                    snd (searchHotels (plain_search "Paris" (Some june_1) (Some june_3)) w)))
    by (vm_compute; reflexivity).
  split; [rewrite Hrun; reflexivity|].
  exact (@searchHotels_fallback_hotels_are_bare _ Scripted _ _ _ _ Hrun eq_refl).
Defined.

Lemma getAlternativeHotels_fallback_has_no_priced_alternatives_witness :
  let doc := doc_named "d1" "Hotel B" "Paris" (Some 4%Q) in
  let w := scripted_world (Throw "ECONNREFUSED") (Ok [doc]) (Ok tt) no_fault in
  let req := AltReq.mk "Hotel A" "Paris" (Some june_1) (Some june_3)
               (Some (Range.mk 50 200)) None None in
  fst (getAlternativeHotels req w) = Ok [].
Proof.
  intros doc w req.
  assert (Hrun : searchHotels (plain_search "Paris" (Some june_1) (Some june_3)) w
                 = (Ok (Result.mk [Detailed (formatHotelDetails (toObject doc))] 1
                          SourceFallback None),
                    snd (searchHotels (plain_search "Paris" (Some june_1) (Some june_3)) w)))
    by (vm_compute; reflexivity).
  destruct (getAlternativeHotels req w) as [[found|m] w'] eqn:Hget.
  - rewrite (@getAlternativeHotels_fallback_has_no_priced_alternatives _ Scripted
               req w w' _ _ (Range.mk 50 200) found Hrun eq_refl eq_refl
               ltac:(reflexivity) Hget).
    reflexivity.
  - vm_compute in Hget. discriminate.
Defined.
